(** * claude-cowork-service: wire protocol and host-native process supervisor

    A shallow embedding of the Go sources
      - [pipe/protocol.go]  (frame codec, reply serialisation),
      - [pipe/handlers.go]  (RPC dispatcher),
      - [pipe/server.go]    (backend contract),
      - [process/events.go] (event constructors),
      - [native/process.go] (process tracker),
    together with the properties of the specification that concern them.

    Conventions.  A Go [byte] is an [ascii] (eight bits), a [[]byte] is a
    [list ascii], a Go [string] is a [string].  Machine integers are [Z] with
    the wrap-around written where the code converts ([uint32(len(data))],
    [byte(v >> 24)], [pt.nextID++]).  A Go [error] is represented by the text
    of its [Error()] method; [(T, error)] results are values of [result T]. *)

From Stdlib Require Import ZArith Lia Ascii String List Bool.
From stdpp Require Import base option list gmap strings pretty.

Open Scope string_scope.
Open Scope list_scope.
Open Scope Z_scope.

Set Warnings "-register-all".

(** ** Basic data *)

Definition byte := ascii.
Definition bytes := list ascii.

(** [[]byte(s)] and [string(b)] *)
Definition bytes_of_string (s : string) : bytes := list_ascii_of_string s.
Definition string_of_bytes (b : bytes) : string := string_of_list_ascii b.

Definition byte_to_Z (b : byte) : Z := Z.of_N (N_of_ascii b).
(** [byte(v)]: conversion of an integer to a byte keeps the low eight bits *)
Definition byte_of_Z (v : Z) : byte := ascii_of_N (Z.to_N (v mod 256)).

Inductive result (A : Type) : Type :=
  | Ok (a : A)
  | Err (e : string).
Arguments Ok {A} a.
Arguments Err {A} e.

Definition is_Err {A} (r : result A) : Prop :=
  match r with Err _ => True | Ok _ => False end.

(** ** pipe/protocol.go: the frame codec *)

Module Frame.

(** A [net.Conn] as the codec sees it: the bytes the peer has sent and that
    are still unread (the stream ends after them), whether the connection
    has stopped taking writes ([Write] then returns an error), and the log
    of [Write] calls, one entry per call. *)
Record Conn : Type := mkConn {
  conn_in : bytes;
  conn_closed : bool;
  conn_out : list bytes
}.

Definition reader (input : bytes) : Conn := mkConn input false [].

(** What the peer receives when the writes succeed: their concatenation. *)
Definition wire (c : Conn) : bytes := concat (conn_out c).

(** [conn.Write(buf)]: one call, logged as one entry. *)
Definition conn_Write (buf : bytes) (c : Conn) : option string * Conn :=
  (if conn_closed c then Some "use of closed network connection" else None,
   mkConn (conn_in c) (conn_closed c) (conn_out c ++ [buf])).

(** [io.ReadFull(conn, buf)] with [len(buf) = n]: exactly [n] bytes or an
    error; [io.EOF] when nothing could be read, [io.ErrUnexpectedEOF] when
    the stream ended part-way. *)
Definition ReadFull (n : nat) (c : Conn) : result bytes * Conn :=
  if (n <=? length (conn_in c))%nat
  then (Ok (take n (conn_in c)),
        mkConn (drop n (conn_in c)) (conn_closed c) (conn_out c))
  else (Err (match conn_in c with [] => "EOF" | _ => "unexpected EOF" end),
        mkConn [] (conn_closed c) (conn_out c)).

(** [binary.BigEndian.Uint32] *)
Definition Uint32 (b : bytes) : Z :=
  match b with
  | [b0; b1; b2; b3] =>
      Z.lor (Z.lor (Z.lor (byte_to_Z b3) (Z.shiftl (byte_to_Z b2) 8))
                   (Z.shiftl (byte_to_Z b1) 16))
            (Z.shiftl (byte_to_Z b0) 24)
  | _ => 0
  end.

(** [binary.BigEndian.PutUint32] *)
Definition PutUint32 (v : Z) : bytes :=
  [byte_of_Z (Z.shiftr v 24); byte_of_Z (Z.shiftr v 16);
   byte_of_Z (Z.shiftr v 8); byte_of_Z v].

(** [uint32(n)] *)
Definition uint32 (n : Z) : Z := n mod 2 ^ 32.

(** [10*1024*1024] *)
Definition maxMessageSize : Z := 10 * 1024 * 1024.

Definition ReadMessage (c : Conn) : result bytes * Conn :=
  match ReadFull 4 c with
  | (Err e, c1) => (Err ("reading length prefix: " +:+ e), c1)
  | (Ok lenBuf, c1) =>
      let length := Uint32 lenBuf in
      if length =? 0 then (Err "zero-length message", c1)
      else if length >? maxMessageSize
      then (Err ("message too large: " +:+ pretty length +:+ " bytes"), c1)
      else
        match ReadFull (Z.to_nat length) c1 with
        | (Err e, c2) =>
            (Err ("reading payload (" +:+ pretty length +:+ " bytes): " +:+ e), c2)
        | (Ok payload, c2) => (Ok payload, c2)
        end
  end.

(** The buffer [WriteMessage] builds: header, then payload. *)
Definition frame (data : bytes) : bytes :=
  PutUint32 (uint32 (Z.of_nat (length data))) ++ data.

Definition WriteMessage (data : bytes) (c : Conn) : option string * Conn :=
  conn_Write (frame data) c.

(** The earlier revision of [WriteMessage] that is still in the tree: header
    and payload go out in two [Write] calls. *)
Definition WriteMessage_two_writes (data : bytes) (c : Conn) : option string * Conn :=
  let lenBuf := PutUint32 (uint32 (Z.of_nat (length data))) in
  match conn_Write lenBuf c with
  | (Some e, c1) => (Some ("writing length prefix: " +:+ e), c1)
  | (None, c1) =>
      match conn_Write data c1 with
      | (Some e, c2) => (Some ("writing payload: " +:+ e), c2)
      | (None, c2) => (None, c2)
      end
  end.

(** The [Write] calls a connection operation adds to the log. *)
Definition writes_of (op : Conn -> option string * Conn) (c : Conn) : list bytes :=
  drop (length (conn_out c)) (conn_out (op c).2).

(** Concurrent writers on one connection.  Each writer is the sequence of
    [Write] calls it still has to make; the connection serialises whole
    [Write] calls, so a run picks, step by step, some writer and performs
    its next call.  [interleaved ws log] says that [log] is the log of one
    such run carried to completion. *)
Inductive interleaved {A : Type} : list (list A) -> list A -> Prop :=
  | interleaved_done ws :
      Forall (fun w => w = []) ws -> interleaved ws []
  | interleaved_step ws i x w log :
      ws !! i = Some (x :: w) ->
      interleaved (<[i := w]> ws) log ->
      interleaved ws (x :: log).

End Frame.

(** ** process/events.go: event values *)

Module Events.

Record StdoutEvent : Type := mkStdoutEvent {
  so_Type : string;        (* json:"type" *)
  so_ProcessID : string;   (* json:"id" *)
  so_Data : string         (* json:"data" *)
}.

Record StderrEvent : Type := mkStderrEvent {
  se_Type : string;
  se_ProcessID : string;
  se_Data : string
}.

Record ExitEvent : Type := mkExitEvent {
  ex_Type : string;
  ex_ProcessID : string;
  ex_ExitCode : Z;         (* json:"exitCode" *)
  ex_Signal : string;      (* json:"signal,omitempty" *)
  ex_OOMKillCount : Z      (* json:"oomKillCount,omitempty" *)
}.

Record ErrorEvent : Type := mkErrorEvent {
  er_Type : string;
  er_ProcessID : string;
  er_Message : string;     (* json:"message" *)
  er_Fatal : bool          (* json:"fatal" *)
}.

(** The [interface{}] values handed to the [emit] callback. *)
Inductive Event : Type :=
  | EvStdout (e : StdoutEvent)
  | EvStderr (e : StderrEvent)
  | EvExit (e : ExitEvent)
  | EvError (e : ErrorEvent).

Definition NewStdoutEvent (processID data : string) : StdoutEvent :=
  mkStdoutEvent "stdout" processID data.

Definition NewStderrEvent (processID data : string) : StderrEvent :=
  mkStderrEvent "stderr" processID data.

Definition NewExitEvent (processID : string) (code : Z) : ExitEvent :=
  mkExitEvent "exit" processID code "" 0.

Definition NewExitEventWithSignal (processID : string) (code : Z) (signal : string) : ExitEvent :=
  mkExitEvent "exit" processID code signal 0.

Definition NewErrorEvent (processID message : string) (fatal : bool) : ErrorEvent :=
  mkErrorEvent "error" processID message fatal.

(** The wire fields ["type"] and ["id"] of an event. *)
Definition event_type (e : Event) : string :=
  match e with
  | EvStdout e => so_Type e
  | EvStderr e => se_Type e
  | EvExit e => ex_Type e
  | EvError e => er_Type e
  end.

Definition event_id (e : Event) : string :=
  match e with
  | EvStdout e => so_ProcessID e
  | EvStderr e => se_ProcessID e
  | EvExit e => ex_ProcessID e
  | EvError e => er_ProcessID e
  end.

(** The wire field ["data"], for the events that have one. *)
Definition event_data (e : Event) : option string :=
  match e with
  | EvStdout e => Some (so_Data e)
  | EvStderr e => Some (se_Data e)
  | _ => None
  end.

End Events.

(** ** Library functions on byte strings used by the tracker *)

Module Bytes.

(** [bytes.HasPrefix(s, p)] *)
Fixpoint HasPrefix (s p : bytes) {struct p} : bool :=
  match p, s with
  | [], _ => true
  | a :: p', b :: s' => Ascii.eqb a b && HasPrefix s' p'
  | _ :: _, [] => false
  end.

(** [bytes.Contains(s, sub)] *)
Fixpoint Contains (s sub : bytes) : bool :=
  HasPrefix s sub ||
  match s with
  | [] => false
  | _ :: s' => Contains s' sub
  end.

(** Width of the UTF-8 sequence at the head of [p], as [utf8.DecodeRune]
    reports it: an ill-formed or truncated sequence has width 1. *)
Definition rune_width (p : bytes) : nat :=
  let cont lo hi b := (lo <=? byte_to_Z b) && (byte_to_Z b <=? hi) in
  let tail (sz : nat) (lo hi : Z) : nat :=
    match p with
    | _ :: b1 :: rest =>
        if negb (cont lo hi b1) then 1%nat
        else match sz, rest with
             | 2%nat, _ => 2%nat
             | 3%nat, b2 :: _ => if cont 128 191 b2 then 3%nat else 1%nat
             | 4%nat, b2 :: b3 :: _ =>
                 if cont 128 191 b2 && cont 128 191 b3 then 4%nat else 1%nat
             | _, _ => 1%nat
             end
    | _ => 1%nat
    end in
  match p with
  | [] => 0%nat
  | b0 :: _ =>
      let x := byte_to_Z b0 in
      if x <? 194 then 1%nat
      else if x <? 224 then tail 2%nat 128 191
      else if x =? 224 then tail 3%nat 160 191
      else if x =? 237 then tail 3%nat 128 159
      else if x <? 240 then tail 3%nat 128 191
      else if x =? 240 then tail 4%nat 144 191
      else if x <? 244 then tail 4%nat 128 191
      else if x =? 244 then tail 4%nat 128 143
      else 1%nat
  end.

(** [bytes.ReplaceAll(s, old, new)] for a non-empty [old]: occurrences are
    found left to right and do not overlap.  [skip] counts the bytes of the
    occurrence just replaced that are still to be dropped. *)
Fixpoint replace_from (old new : bytes) (skip : nat) (s : bytes) {struct s} : bytes :=
  match s with
  | [] => []
  | c :: s' =>
      match skip with
      | S k => replace_from old new k s'
      | O =>
          if HasPrefix s old
          then new ++ replace_from old new (length old - 1) s'
          else c :: replace_from old new 0 s'
      end
  end.

(** For an empty [old]: [new] is inserted after every UTF-8 sequence.
    [pending] counts the bytes of the current sequence still to be copied. *)
Fixpoint insert_after_runes (new : bytes) (pending : nat) (s : bytes) {struct s} : bytes :=
  match s with
  | [] => []
  | c :: s' =>
      let left := match pending with
                  | O => (rune_width s - 1)%nat
                  | S k => k
                  end in
      c :: (if (left =? 0)%nat then new else []) ++ insert_after_runes new left s'
  end.

Definition ReplaceAll (s old new : bytes) : bytes :=
  match old with
  | [] => new ++ insert_after_runes new 0 s
  | _ :: _ => replace_from old new 0 s
  end.

End Bytes.

(** ** The fragment of [regexp] the tracker uses

    A pattern is a sequence of literal bytes and of greedy one-or-more
    repetitions of a byte class.  Matching is leftmost-first: at a position,
    a repetition takes as many bytes as it can and gives them back one at a
    time while the rest of the pattern fails. *)

Module Regexp.

Inductive atom : Type :=
  | Lit (c : ascii)
  | Plus (cls : ascii -> bool).

Definition Regexp := list atom.

(** Length of the match that starts at the head of [s], if there is one. *)
Fixpoint match_here (re : Regexp) (s : bytes) {struct re} : option nat :=
  match re with
  | [] => Some 0%nat
  | Lit c :: re' =>
      match s with
      | x :: s' => if Ascii.eqb x c then S <$> match_here re' s' else None
      | [] => None
      end
  | Plus cls :: re' =>
      (fix plus (s : bytes) {struct s} : option nat :=
         match s with
         | x :: s' =>
             if cls x
             then match plus s' with
                  | Some n => Some (S n)
                  | None => S <$> match_here re' s'
                  end
             else None
         | [] => None
         end) s
  end.

(** [re.Match(b)]: is there a match anywhere in [b] *)
Fixpoint Match (re : Regexp) (s : bytes) : bool :=
  match match_here re s with
  | Some _ => true
  | None => match s with [] => false | _ :: s' => Match re s' end
  end.

(** [re.ReplaceAll(src, repl)] for a pattern that cannot match the empty
    string and a replacement without [$]: successive non-overlapping
    leftmost matches are replaced by [repl].  [skip] counts the bytes of the
    match just replaced that are still to be dropped. *)
Fixpoint replace_matches (re : Regexp) (repl : bytes) (skip : nat) (s : bytes)
    {struct s} : bytes :=
  match s with
  | [] => []
  | c :: s' =>
      match skip with
      | S k => replace_matches re repl k s'
      | O =>
          match match_here re s with
          | Some (S n) => repl ++ replace_matches re repl n s'
          | _ => c :: replace_matches re repl 0 s'
          end
      end
  end.

Definition ReplaceAll (re : Regexp) (src repl : bytes) : bytes :=
  replace_matches re repl 0 src.

End Regexp.

(** ** native/process.go: the process tracker *)

Module Native.
Import Events.

(** [syscall.Signal] values (Linux numbering). *)
Definition Signal := Z.
Definition SIGHUP : Signal := 1.
Definition SIGINT : Signal := 2.
Definition SIGQUIT : Signal := 3.
Definition SIGABRT : Signal := 6.
Definition SIGKILL : Signal := 9.
Definition SIGUSR1 : Signal := 10.
Definition SIGSEGV : Signal := 11.
Definition SIGUSR2 : Signal := 12.
Definition SIGPIPE : Signal := 13.
Definition SIGTERM : Signal := 15.

Record pathRemap : Type := mkPathRemap {
  from : bytes;
  to : bytes
}.

(** What happened on a child's stdin pipe and its guarding mutex. *)
Inductive stdin_op : Type :=
  | MuLock
  | StdinWrite (data : bytes) (err : option string)
  | MuUnlock.

(** [localProcess] ([lp_id] is its field [id]).  Of [cmd] the record keeps
    the fields the tracker sets or reads: path, arguments, directory,
    environment and, once started, the pid ([cmd.Process]).  [done] is the
    completion latch: [true] once the channel is closed.  [stdin_ops] is the
    history of the stdin pipe. *)
Record localProcess : Type := mkLocalProcess {
  lp_id : string;
  cmd_Path : string;
  cmd_Args : list string;
  cmd_Dir : string;
  cmd_Env : list string;
  cmd_Process : option Z;
  stdin_ops : list stdin_op;
  done : bool;
  vmPrefix : option bytes;
  realPrefix : option bytes;
  reverseMap : bool;
  mountRemap : list pathRemap
}.

(** A signal handed to the kernel. *)
Inductive signal_sent : Type :=
  | KillGroup (pgid : Z) (sig : Signal)      (* syscall.Kill(-pgid, sig) *)
  | SignalProcess (pid : Z) (sig : Signal).  (* cmd.Process.Signal(sig) *)

Definition signal_of (s : signal_sent) : Signal :=
  match s with
  | KillGroup _ sig => sig
  | SignalProcess _ sig => sig
  end.

(** [processTracker].  The map [processes] holds pointers: [objects] is
    the store of every [localProcess] allocated so far, a pointer is an index
    into it, and the goroutines of a process keep the pointer they were
    started with.  [emitted] is the sequence of calls of the [emit] callback,
    [signalled] the sequence of signals sent. *)
Record processTracker : Type := mkTracker {
  objects : list localProcess;
  processes : gmap string nat;
  nextID : Z;
  emitted : list Event;
  signalled : list signal_sent;
  debug : bool
}.

Definition newProcessTracker (debug : bool) : processTracker :=
  mkTracker [] ∅ 0 [] [] debug.

(** [lp, ok := pt.processes[id]] *)
Definition lookup_process (id : string) (pt : processTracker) : option (nat * localProcess) :=
  match processes pt !! id with
  | Some p => match objects pt !! p with Some lp => Some (p, lp) | None => None end
  | None => None
  end.

Definition emit (e : Event) (pt : processTracker) : processTracker :=
  mkTracker (objects pt) (processes pt) (nextID pt) (emitted pt ++ [e]) (signalled pt)
    (debug pt).

(** [n + 1] on Go's 64-bit [int] *)
Definition int_succ (n : Z) : Z := (n + 1 + 2 ^ 63) mod 2 ^ 64 - 2 ^ 63.

(** What the operating system and the Go runtime answer during one [spawn]. *)
Record SpawnOS : Type := mkSpawnOS {
  os_Stat : string -> bool;                     (* os.Stat(p) succeeds *)
  os_LookPath : string -> option string;        (* exec.LookPath *)
  os_which : string -> option string;           (* output of bash -lc "which b", trimmed and cleaned *)
  os_HOME : string;                             (* os.Getenv("HOME") *)
  fp_Base : string -> string;                   (* filepath.Base *)
  fp_Join : list string -> string;              (* filepath.Join *)
  fp_Abs : string -> option string;             (* filepath.Abs, [None] when it fails *)
  os_Environ : list string;                     (* os.Environ() *)
  range_env : gmap string string -> list (string * string);  (* order of "range env" *)
  os_StdinPipe : option string;                 (* error of c.StdinPipe() *)
  os_StdoutPipe : option string;
  os_StderrPipe : option string;
  os_Start : result Z                           (* c.Start(): the pid *)
}.

(** The search for the executable at the head of [spawn]. *)
Definition resolveCommand (os : SpawnOS) (cmd : string) : string :=
  if os_Stat os cmd then cmd
  else
    let base := fp_Base os cmd in
    match os_LookPath os base with
    | Some resolved => resolved
    | None =>
        match os_which os base with
        | Some resolved => resolved
        | None =>
            match filter (fun candidate => os_Stat os candidate = true)
                    [fp_Join os [os_HOME os; ".local"; "bin"; base];
                     "/usr/local/bin/" +:+ base;
                     "/usr/bin/" +:+ base] with
            | candidate :: _ => candidate
            | [] => cmd
            end
        end
    end.

(** [strings.HasPrefix] *)
Definition HasPrefix (s p : string) : bool := String.prefix p s.

Definition nestedPrefixes : list string := ["CLAUDECODE="; "CLAUDE_CODE_ENTRYPOINT="].

(** Does the entry start with one of the two prefixes *)
Definition stripped (e : string) : bool := existsb (HasPrefix e) nestedPrefixes.

(** The loop [for i := len(c.Env) - 1; i >= 0; i--] that removes the entries
    with one of the two prefixes; [n] is [i + 1]. *)
Fixpoint stripNested (n : nat) (env : list string) : list string :=
  match n with
  | O => env
  | S i =>
      stripNested i
        (match env !! i with
         | Some e => if stripped e then delete i env else env
         | None => env
         end)
  end.

(** [strings.Index(s, "=")] *)
Fixpoint index_equals (s : string) : option nat :=
  match s with
  | "" => None
  | String c s' => if Ascii.eqb c "=" then Some O else S <$> index_equals s'
  end.

(** [os/exec]: the key [dedupEnv] cuts off an entry, [kv[:i]] for the index
    [i] of the first [=] sign, or of the second when the entry starts with
    one; [None] for an entry without the sign. *)
Definition entry_key (kv : string) : option string :=
  match index_equals kv with
  | None => None
  | Some O =>
      match index_equals (String.substring 1 (String.length kv - 1)%nat kv) with
      | Some j => Some (String.substring 0 (S j) kv)
      | None => Some ""
      end
  | Some i => Some (String.substring 0 i kv)
  end.

(** [strings.IndexByte(kv, 0) != -1] *)
Definition has_NUL (kv : string) : bool :=
  existsb (Ascii.eqb "000") (bytes_of_string kv).

(** [os/exec]: one pass of the loop of [dedupEnv], off Windows and Plan 9.
    An entry with a NUL byte is left out and reported, one without [=] is
    kept unless empty, and of the others the first visited of each key is
    kept. *)
Definition dedup_visit (kv : string) (st : list string * list string * option string)
    : list string * list string * option string :=
  let '(out, saw, err) := st in
  if has_NUL kv then (out, saw, Some "exec: environment variable contains NUL")
  else
    match entry_key kv with
    | None => (if String.eqb kv "" then out else out ++ [kv], saw, err)
    | Some k =>
        if bool_decide (k ∈ saw) then (out, saw, err)
        else (out ++ [kv], k :: saw, err)
    end.

(** [os/exec]: [dedupEnv].  The entries are visited from the last to the
    first, so that the last entry of each key is the one kept; [out] is put
    back in order at the end. *)
Definition dedupEnv (env : list string) : list string * option string :=
  let '(out, _, err) := foldr dedup_visit ([], [], None) env in
  (reverse out, err).

(** [os/exec]: [c.Environ()] for a command whose [Env] is nil and whose
    [Dir] is [Dir], off Windows and Plan 9: the environment of the
    supervisor, followed by [PWD] for the directory when one is set, without
    duplicates; the error is dropped. *)
Definition Environ (os : SpawnOS) (Dir : string) : list string :=
  let env := os_Environ os in
  let env :=
    if negb (String.eqb Dir "")
    then match fp_Abs os Dir with
         | Some pwd => env ++ ["PWD=" +:+ pwd]
         | None => env
         end
    else env in
  (dedupEnv env).1.

(** [c.Env] as [spawn] leaves it; [c.Dir] is [cwd] by then. *)
Definition childEnv (os : SpawnOS) (env : gmap string string) (cwd : string) : list string :=
  let Env : option (list string) :=
    if (0 <? size env)%nat
    then Some (foldl (fun acc kv => acc ++ [kv.1 +:+ "=" +:+ kv.2]) (Environ os cwd)
                 (range_env os env))
    else None in
  let Env := match Env with Some e => e | None => os_Environ os end in
  stripNested (length Env) Env.

(** What is left of [s] after the prefix [p], if [s] starts with [p]. *)
Fixpoint cut_prefix (p s : string) : option string :=
  match p, s with
  | "", _ => Some s
  | String a p', String b s' => if Ascii.eqb a b then cut_prefix p' s' else None
  | String _ _, "" => None
  end.

(** The value of the variable [name] in an environment given as a list of
    entries [name=value]: when a name occurs several times, the process that
    is started sees the last entry ([os/exec] keeps that one). *)
Fixpoint getenv (env : list string) (name : string) : option string :=
  match env with
  | [] => None
  | e :: env' =>
      match getenv env' name with
      | Some v => Some v
      | None => cut_prefix (name +:+ "=") e
      end
  end.

(** A name of an environment variable holds no [=] sign. *)
Definition no_equals (s : string) : Prop := "="%char ∉ bytes_of_string s.

Global Instance no_equals_dec s : Decision (no_equals s).
Proof. unfold no_equals. apply _. Defined.

(** Allocation of [lp] followed by [pt.processes[id] = lp] *)
Definition register (id : string) (lp : localProcess) (pt : processTracker) : processTracker :=
  mkTracker (objects pt ++ [lp]) (<[id := length (objects pt)]> (processes pt))
    (nextID pt) (emitted pt) (signalled pt) (debug pt).

(** The id [spawn] settles on at its head. *)
Definition assigned_id (id : string) (pt : processTracker) : string :=
  if String.eqb id "" then "proc-" +:+ pretty (int_succ (nextID pt)) else id.

(** [spawn], up to the point where it starts the reader and reaper
    goroutines and returns; those are [streamOutput] and [reap] below. *)
Definition spawn (id : string) (cmd : string) (args : list string)
    (env : gmap string string) (cwd : string) (vmPrefix realPrefix : string)
    (mountRemap : list pathRemap) (os : SpawnOS) (pt : processTracker)
    : result string * processTracker :=
  let '(id, pt) :=
    if String.eqb id ""
    then let n := int_succ (nextID pt) in
         ("proc-" +:+ pretty n,
          mkTracker (objects pt) (processes pt) n (emitted pt) (signalled pt) (debug pt))
    else (id, pt) in
  let cmd := resolveCommand os cmd in
  let Env := childEnv os env cwd in
  match os_StdinPipe os with
  | Some e => (Err ("creating stdin pipe: " +:+ e), pt)
  | None =>
  match os_StdoutPipe os with
  | Some e => (Err ("creating stdout pipe: " +:+ e), pt)
  | None =>
  match os_StderrPipe os with
  | Some e => (Err ("creating stderr pipe: " +:+ e), pt)
  | None =>
  match os_Start os with
  | Err e =>
      (Err ("starting process: " +:+ e),
       emit (EvError (NewErrorEvent id ("failed to start process: " +:+ e) true)) pt)
  | Ok pid =>
      let mapped := negb (String.eqb vmPrefix "") && negb (String.eqb realPrefix "") in
      let lp := mkLocalProcess id cmd args cwd Env (Some pid) [] false
                  (if mapped then Some (bytes_of_string vmPrefix) else None)
                  (if mapped then Some (bytes_of_string realPrefix) else None)
                  (mapped && os_Stat os vmPrefix)
                  mountRemap in
      (Ok id, register id lp pt)
  end end end end.

(** What a [bufio.Scanner] delivers over the life of a stream: the tokens
    for which [Scan()] returned true, then the value of [Err()]. *)
Record Scanned : Type := mkScanned {
  tokens : list string;
  scan_err : option string
}.

(** The stream behind an [io.Reader]: the bytes the child writes to the
    pipe until it ends, and the error of the read that ends it, [None] for
    [io.EOF]. *)
Record Reader : Type := mkReader {
  written : bytes;
  read_err : option string
}.

(** [bufio]: [dropCR] *)
Definition dropCR (data : bytes) : bytes :=
  match reverse data with
  | c :: rest => if Ascii.eqb c "013" then reverse rest else data
  | [] => data
  end.

(** [bufio.Scanner] with the split function [ScanLines] and a buffer of at
    most [max] bytes, over the bytes still to come.  [held] is the part of
    the current line that sits in the buffer.  At a newline the line is
    delivered without a carriage return at its end.  A byte that leaves the
    buffer full, [max] bytes without a newline, ends the scan with
    [ErrTooLong]: the scanner asks for more room before it reads on.  At the
    end of the stream what is held is delivered as a last line. *)
Fixpoint Scan (max : Z) (held : bytes) (data : bytes) (err : option string) : Scanned :=
  match data with
  | [] =>
      mkScanned (match held with [] => [] | _ => [string_of_bytes (dropCR held)] end) err
  | c :: data =>
      if Ascii.eqb c "010" then
        let r := Scan max [] data err in
        mkScanned (string_of_bytes (dropCR held) :: tokens r) (scan_err r)
      else if max <=? Z.of_nat (length held) + 1 then
        mkScanned [] (Some "bufio.Scanner: token too long")
      else Scan max (held ++ [c]) data err
  end.

(** [10*1024*1024], the limit [streamOutput] gives its scanner *)
Definition maxTokenSize : Z := 10 * 1024 * 1024.

(** [scanner := bufio.NewScanner(r)] after
    [scanner.Buffer(make([]byte, 64*1024), 10*1024*1024)], run to its end *)
Definition scanner (r : Reader) : Scanned :=
  Scan maxTokenSize [] (written r) (read_err r).

(** ["\n"] *)
Definition newline : string := String "010" "".

(** The text one token turns into. *)
Definition outputLine (lp : option localProcess) (text : string) : string :=
  let line := text +:+ newline in
  match lp with
  | Some lp =>
      if reverseMap lp
      then string_of_bytes
             (Bytes.ReplaceAll (bytes_of_string line)
                (default [] (realPrefix lp)) (default [] (vmPrefix lp)))
      else line
  | None => line
  end.

(** [streamOutput(id, r, stream)], from what its scanner delivers over the
    stream: [scanner r] for the reader [r]. *)
Definition streamOutput (id : string) (r : Scanned) (stream : string)
    (pt : processTracker) : processTracker :=
  let lp := snd <$> lookup_process id pt in
  let pt := foldl (fun pt text => emit (EvStdout (NewStdoutEvent id (outputLine lp text))) pt)
              pt (tokens r) in
  match scan_err r with
  | Some err => emit (EvError (NewErrorEvent id (stream +:+ " scanner error: " +:+ err) false)) pt
  | None => pt
  end.

(** Result of [c.Wait()] as the reaper reads it. *)
Inductive WaitResult : Type :=
  | WaitOk                                        (* err == nil *)
  | WaitExit (code : Z) (signaled : option Signal)  (* *exec.ExitError *)
  | WaitOther.                                    (* any other error *)

Definition signalName (sig : Signal) : string :=
  if sig =? SIGTERM then "SIGTERM"
  else if sig =? SIGKILL then "SIGKILL"
  else if sig =? SIGINT then "SIGINT"
  else if sig =? SIGQUIT then "SIGQUIT"
  else if sig =? SIGHUP then "SIGHUP"
  else if sig =? SIGUSR1 then "SIGUSR1"
  else if sig =? SIGUSR2 then "SIGUSR2"
  else if sig =? SIGPIPE then "SIGPIPE"
  else if sig =? SIGABRT then "SIGABRT"
  else if sig =? SIGSEGV then "SIGSEGV"
  else "SIG" +:+ pretty sig.

(** [close(lp.done)] for the object at pointer [p] *)
Definition close_done (p : nat) (pt : processTracker) : processTracker :=
  mkTracker
    (alter (fun lp => mkLocalProcess (lp_id lp) (cmd_Path lp) (cmd_Args lp) (cmd_Dir lp)
                        (cmd_Env lp) (cmd_Process lp) (stdin_ops lp) true (vmPrefix lp)
                        (realPrefix lp) (reverseMap lp) (mountRemap lp))
       p (objects pt))
    (processes pt) (nextID pt) (emitted pt) (signalled pt) (debug pt).

(** The reaper goroutine of [spawn], run once both readers are done; [id]
    and the pointer [p] are the ones of the [spawn] call that started it. *)
Definition reap (id : string) (p : nat) (w : WaitResult) (pt : processTracker)
    : processTracker :=
  let '(code, sig) :=
    match w with
    | WaitOk => (0, "")
    | WaitExit code (Some s) => (code, signalName s)
    | WaitExit code None => (code, "")
    | WaitOther => (-1, "")
    end in
  let pt :=
    if negb (String.eqb sig "")
    then emit (EvExit (NewExitEventWithSignal id code sig)) pt
    else emit (EvExit (NewExitEvent id code)) pt in
  close_done p pt.

(** [strings.ToUpper], byte by byte.  Besides the ASCII letters it maps the
    two runes whose upper case is an ASCII letter (U+017F to S, U+0131 to
    I); no other rune has an upper case in ASCII, so comparisons of the
    result with ASCII words come out as in Go. *)
Fixpoint ToUpper (s : string) : string :=
  match s with
  | "" => ""
  | String "197" (String "191" s') => String "S" (ToUpper s')
  | String "196" (String "177" s') => String "I" (ToUpper s')
  | String c s' =>
      let n := byte_to_Z c in
      String (if (97 <=? n) && (n <=? 122) then byte_of_Z (n - 32) else c) (ToUpper s')
  end.

(** [strings.TrimPrefix] *)
Definition TrimPrefix (s prefix : string) : string :=
  match cut_prefix prefix s with
  | Some rest => rest
  | None => s
  end.

Definition mapSignal (name : string) : Signal :=
  let n := ToUpper (TrimPrefix (ToUpper name) "SIG") in
  if String.eqb n "KILL" then SIGKILL
  else if String.eqb n "INT" then SIGINT
  else if String.eqb n "QUIT" then SIGQUIT
  else if String.eqb n "HUP" then SIGHUP
  else if String.eqb n "USR1" then SIGUSR1
  else if String.eqb n "USR2" then SIGUSR2
  else SIGTERM.

Definition send (s : signal_sent) (pt : processTracker) : processTracker :=
  mkTracker (objects pt) (processes pt) (nextID pt) (emitted pt) (signalled pt ++ [s])
    (debug pt).

(** [kill(processID, signal)]; [getpgid] is the answer of
    [syscall.Getpgid], [None] when it fails. *)
Definition kill (processID : string) (signal : string) (getpgid : Z -> option Z)
    (pt : processTracker) : option string * processTracker :=
  match lookup_process processID pt with
  | None => (Some ("process " +:+ processID +:+ " not found"), pt)
  | Some (_, lp) =>
      match cmd_Process lp with
      | None => (None, pt)
      | Some pid =>
          let sig := mapSignal signal in
          match getpgid pid with
          | Some pgid => (None, send (KillGroup pgid sig) pt)
          | None => (None, send (SignalProcess pid sig) pt)
          end
      end
  end.

(** The marker: content between double quotes, a colon, a double quote and
    a slash; and the pattern compiled by [writeStdin]: the marker, then
    [[a-zA-Z0-9_-]+], then a colon. *)
Definition skillMarker : bytes :=
  bytes_of_string (String "034" "content" +:+ String "034" ":" +:+ String "034" "/").

Definition skillNameByte (c : ascii) : bool :=
  let n := byte_to_Z c in
  ((97 <=? n) && (n <=? 122)) || ((65 <=? n) && (n <=? 90)) ||
  ((48 <=? n) && (n <=? 57)) || (n =? 95) || (n =? 45).

(** One or more bytes of a class, then the byte [c] *)
Definition run_then (cls : ascii -> bool) (c : ascii) : Regexp.Regexp :=
  [Regexp.Plus cls; Regexp.Lit c].

Definition skillPrefixRe : Regexp.Regexp :=
  map Regexp.Lit skillMarker ++ run_then skillNameByte ":".

(** The texts the pattern matches: the marker, a name, a colon. *)
Definition occurrence (name : bytes) : bytes := skillMarker ++ name ++ [":"%char].

(** The rewriting of the payload at the head of [writeStdin]. *)
Definition remapPaths (lp : localProcess) (data : bytes) : bytes :=
  let data :=
    match vmPrefix lp with
    | Some vm => Bytes.ReplaceAll data vm (default [] (realPrefix lp))
    | None => data
    end in
  foldl (fun data rm => Bytes.ReplaceAll data (from rm) (to rm)) data (mountRemap lp).

Definition stripSkillPrefix (data : bytes) : bytes :=
  if Bytes.Contains data skillMarker
  then if Regexp.Match skillPrefixRe data
       then Regexp.ReplaceAll skillPrefixRe data skillMarker
       else data
  else data.

(** The three cases of the [select] that waits for the write. *)
Inductive select_case : Type := CaseWrite | CaseDone | CaseTimeout.

Global Instance select_case_eq_dec : EqDecision select_case.
Proof. solve_decision. Defined.

(** What the rest of the program does while one [writeStdin] waits, with
    times in nanoseconds from the moment the [select] is entered:
    when the writer goroutine delivers its result and with which error
    ([None]: it stays blocked), when the completion latch is closed
    ([None]: not while the call waits), and the order in which the runtime
    polls the cases that are ready together. *)
Record StdinRace : Type := mkStdinRace {
  write_returns : option (Z * option string);
  latch_closes : option Z;
  pollorder : list select_case
}.

(** [10 * time.Second] *)
Definition stdinTimeout : Z := 10 * 1000000000.

Definition ready_at (r : StdinRace) (c : select_case) : option Z :=
  match c with
  | CaseWrite => fst <$> write_returns r
  | CaseDone => latch_closes r
  | CaseTimeout => Some stdinTimeout
  end.

(** The moment the first case of the [select] becomes ready. *)
Definition first_ready (r : StdinRace) : Z :=
  foldr Z.min stdinTimeout (omap (ready_at r) [CaseWrite; CaseDone]).

(** The case a blocking [select] proceeds with: one of those that become
    ready first, the earliest of them in the polling order. *)
Definition select (r : StdinRace) : select_case :=
  let winner c := bool_decide (ready_at r c = Some (first_ready r)) in
  match filter (fun c => winner c = true) (pollorder r ++ [CaseWrite; CaseDone; CaseTimeout]) with
  | c :: _ => c
  | [] => CaseTimeout
  end.

Definition record_stdin (p : nat) (ops : list stdin_op) (pt : processTracker)
    : processTracker :=
  mkTracker
    (alter (fun lp => mkLocalProcess (lp_id lp) (cmd_Path lp) (cmd_Args lp) (cmd_Dir lp)
                        (cmd_Env lp) (cmd_Process lp) (stdin_ops lp ++ ops) (done lp)
                        (vmPrefix lp) (realPrefix lp) (reverseMap lp) (mountRemap lp))
       p (objects pt))
    (processes pt) (nextID pt) (emitted pt) (signalled pt) (debug pt).

(** [writeStdin(processID, data)].  When the call returns through the latch
    or the timer, the writer goroutine is still on its way and the pipe's
    history is left as it is. *)
Definition writeStdin (processID : string) (data : bytes) (race : StdinRace)
    (pt : processTracker) : option string * processTracker :=
  match lookup_process processID pt with
  | None => (Some ("process " +:+ processID +:+ " not found"), pt)
  | Some (p, lp) =>
      let data := remapPaths lp data in
      let data := stripSkillPrefix data in
      if done lp then (Some ("process " +:+ processID +:+ " has exited"), pt)
      else
        match select race with
        | CaseWrite =>
            let err := match write_returns race with
                       | Some (_, err) => err
                       | None => None
                       end in
            (err, record_stdin p [MuLock; StdinWrite data err; MuUnlock] pt)
        | CaseDone => (Some ("process " +:+ processID +:+ " exited during write"), pt)
        | CaseTimeout => (Some ("stdin write timeout for process " +:+ processID), pt)
        end
  end.



End Native.

(** ** The lines of a text *)

Module Lines.

(** The lines of what a process writes to a stream: the pieces that end in
    a newline, each without it, and after them the last piece when the text
    does not end in a newline. *)
Fixpoint lines (data : bytes) : list bytes :=
  match data with
  | [] => []
  | c :: data =>
      if Ascii.eqb c "010" then [] :: lines data
      else
        match lines data with
        | [] => [[c]]
        | line :: rest => (c :: line) :: rest
        end
  end.

(** A line of less than 10 MiB *)
Definition short (line : bytes) : Prop := Z.of_nat (length line) < 10 * 2 ^ 20.

Global Instance short_dec line : Decision (short line).
Proof. unfold short. apply _. Defined.

End Lines.

(** ** pipe/protocol.go, pipe/server.go, pipe/handlers.go: messages, backend
    contract and dispatcher *)

Module Pipe.
Import Frame.

(** A JSON document.  A number keeps its literal. *)
Inductive json : Type :=
  | JNull
  | JBool (b : bool)
  | JNumber (literal : string)
  | JString (s : string)
  | JArray (items : list json)
  | JObject (members : list (string * json)).

(** [Request].  [Params] is a [json.RawMessage]: [None] is the nil slice of
    a request without params.  [ID] is the decoded value, [None] when absent. *)
Record Request : Type := mkRequest {
  Method : string;         (* json:"method" *)
  Params : option bytes;   (* json:"params,omitempty" *)
  ID : option json         (* json:"id,omitempty" *)
}.

(** [Response].  [Result] is an [interface{}]: [None] is nil, [Some d] a
    value that marshals to the document [d]. *)
Record Response : Type := mkResponse {
  Success : bool;          (* json:"success" *)
  Result : option json;    (* json:"result,omitempty" *)
  Error : string           (* json:"error,omitempty" *)
}.

(** The document [json.Marshal] produces for a [Response], field by field
    in declaration order; a field tagged [omitempty] is left out when it is
    nil, respectively the empty string. *)
Definition Response_document (r : Response) : json :=
  JObject
    ([("success", JBool (Success r))] ++
     match Result r with Some d => [("result", d)] | None => [] end ++
     (if String.eqb (Error r) "" then [] else [("error", JString (Error r))])).

(** The document [json.Marshal] produces for an event, by the tags of its
    struct. *)
Definition Event_document (e : Events.Event) : json :=
  match e with
  | Events.EvStdout e =>
      JObject [("type", JString (Events.so_Type e)); ("id", JString (Events.so_ProcessID e));
               ("data", JString (Events.so_Data e))]
  | Events.EvStderr e =>
      JObject [("type", JString (Events.se_Type e)); ("id", JString (Events.se_ProcessID e));
               ("data", JString (Events.se_Data e))]
  | Events.EvExit e =>
      JObject
        ([("type", JString (Events.ex_Type e)); ("id", JString (Events.ex_ProcessID e));
          ("exitCode", JNumber (pretty (Events.ex_ExitCode e)))] ++
         (if String.eqb (Events.ex_Signal e) "" then []
          else [("signal", JString (Events.ex_Signal e))]) ++
         (if Events.ex_OOMKillCount e =? 0 then []
          else [("oomKillCount", JNumber (pretty (Events.ex_OOMKillCount e)))]))
  | Events.EvError e =>
      JObject [("type", JString (Events.er_Type e)); ("id", JString (Events.er_ProcessID e));
               ("message", JString (Events.er_Message e)); ("fatal", JBool (Events.er_Fatal e))]
  end.

(** Parameter types *)

Record configureParams : Type := mkConfigureParams {
  cp_Memory : Z;           (* json:"memory" *)
  cp_CPUs : Z              (* json:"cpus" *)
}.

Record vmNameParams : Type := mkVmNameParams {
  vn_Name : string         (* json:"name" *)
}.

Record additionalMount : Type := mkAdditionalMount {
  am_Path : string;        (* json:"path" *)
  am_Mode : string         (* json:"mode" *)
}.

Record spawnParams : Type := mkSpawnParams {
  sp_Name : string;                              (* json:"name" *)
  sp_ID : string;                                (* json:"id" *)
  sp_Cmd : string;                               (* json:"command" *)
  sp_Args : list string;                         (* json:"args" *)
  sp_Env : gmap string string;                   (* json:"env" *)
  sp_Cwd : string;                               (* json:"cwd" *)
  sp_AdditionalMounts : gmap string additionalMount  (* json:"additionalMounts" *)
}.

Record processIDParams : Type := mkProcessIDParams {
  pi_ProcessID : string    (* json:"id" *)
}.

Record writeStdinParams : Type := mkWriteStdinParams {
  ws_ProcessID : string;   (* json:"id" *)
  ws_Data : string         (* json:"data" *)
}.

Record mountPathParams : Type := mkMountPathParams {
  mp_Name : string;        (* json:"name" *)
  mp_HostPath : string;    (* json:"hostPath" *)
  mp_GuestPath : string    (* json:"guestPath" *)
}.

Record readFileParams : Type := mkReadFileParams {
  rf_Name : string;        (* json:"name" *)
  rf_Path : string         (* json:"path" *)
}.

Record oauthTokenParams : Type := mkOauthTokenParams {
  ot_Name : string;        (* json:"name" *)
  ot_Token : string        (* json:"token" *)
}.

Record debugLoggingParams : Type := mkDebugLoggingParams {
  dl_Enabled : bool        (* json:"enabled" *)
}.

(** The zero value a [var p T] declaration starts from. *)
Class Zero (T : Type) : Type := zero : T.
Global Instance Request_zero : Zero Request := mkRequest "" None None.
Global Instance configureParams_zero : Zero configureParams := mkConfigureParams 0 0.
Global Instance vmNameParams_zero : Zero vmNameParams := mkVmNameParams "".
Global Instance spawnParams_zero : Zero spawnParams := mkSpawnParams "" "" "" [] ∅ "" ∅.
Global Instance processIDParams_zero : Zero processIDParams := mkProcessIDParams "".
Global Instance writeStdinParams_zero : Zero writeStdinParams := mkWriteStdinParams "" "".
Global Instance mountPathParams_zero : Zero mountPathParams := mkMountPathParams "" "" "".
Global Instance readFileParams_zero : Zero readFileParams := mkReadFileParams "" "".
Global Instance oauthTokenParams_zero : Zero oauthTokenParams := mkOauthTokenParams "" "".
Global Instance debugLoggingParams_zero : Zero debugLoggingParams := mkDebugLoggingParams false.

(** [json.Unmarshal(data, &v)] at type [T]: the value [v] holds afterwards
    (a failed call may have filled part of it) and the error. *)
Class Unmarshal (T : Type) : Type := json_Unmarshal : bytes -> T -> T * option string.

(** [json.Marshal] of a value, given the document it denotes. *)
Class Marshal : Type := json_Marshal : json -> bytes.

(** The types [encoding/json] is used at. *)
Class Codec : Type := mkCodec {
  codec_Marshal :: Marshal;
  codec_Request :: Unmarshal Request;
  codec_configureParams :: Unmarshal configureParams;
  codec_vmNameParams :: Unmarshal vmNameParams;
  codec_spawnParams :: Unmarshal spawnParams;
  codec_processIDParams :: Unmarshal processIDParams;
  codec_writeStdinParams :: Unmarshal writeStdinParams;
  codec_mountPathParams :: Unmarshal mountPathParams;
  codec_readFileParams :: Unmarshal readFileParams;
  codec_oauthTokenParams :: Unmarshal oauthTokenParams;
  codec_debugLoggingParams :: Unmarshal debugLoggingParams
}.

(** [VMBackend] over a backend with states [S].  [SubscribeEvents] returns
    a handle and [Cancel] is the call of the [cancel] function it stands for. *)
Record VMBackend (S : Type) : Type := mkVMBackend {
  Configure : Z -> Z -> S -> option string * S;
  CreateVM : string -> S -> option string * S;
  StartVM : string -> S -> option string * S;
  StopVM : string -> S -> option string * S;
  IsRunning : string -> S -> result bool * S;
  IsGuestConnected : string -> S -> result bool * S;
  Spawn : string -> string -> string -> list string -> gmap string string -> string ->
          gmap string string -> S -> result string * S;
  Kill : string -> S -> option string * S;
  WriteStdin : string -> bytes -> S -> option string * S;
  IsProcessRunning : string -> S -> result bool * S;
  MountPath : string -> string -> string -> S -> option string * S;
  ReadFile : string -> string -> S -> result bytes * S;
  InstallSdk : string -> S -> option string * S;
  AddApprovedOauthToken : string -> string -> S -> option string * S;
  SetDebugLogging : bool -> S -> S;
  SubscribeEvents : string -> S -> result nat * S;
  Cancel : nat -> S -> S;
  GetDownloadStatus : S -> string * S
}.
Arguments Configure {S} _ _ _ _.
Arguments CreateVM {S} _ _ _.
Arguments StartVM {S} _ _ _.
Arguments StopVM {S} _ _ _.
Arguments IsRunning {S} _ _ _.
Arguments IsGuestConnected {S} _ _ _.
Arguments Spawn {S} _ _ _ _ _ _ _ _ _.
Arguments Kill {S} _ _ _.
Arguments WriteStdin {S} _ _ _ _.
Arguments IsProcessRunning {S} _ _ _.
Arguments MountPath {S} _ _ _ _ _.
Arguments ReadFile {S} _ _ _ _.
Arguments InstallSdk {S} _ _ _.
Arguments AddApprovedOauthToken {S} _ _ _ _.
Arguments SetDebugLogging {S} _ _ _.
Arguments SubscribeEvents {S} _ _ _.
Arguments Cancel {S} _ _ _.
Arguments GetDownloadStatus {S} _ _.

Section Dispatcher.
Context `{!Codec} {St : Type} (backend : VMBackend St).

(** [WriteResponse] *)
Definition WriteResponse (result : option json) (conn : Conn) : option string * Conn :=
  let resp := mkResponse true result "" in
  WriteMessage (json_Marshal (Response_document resp)) conn.

(** [WriteError] *)
Definition WriteError (id : option json) (code : Z) (message : string) (conn : Conn)
    : option string * Conn :=
  let resp := mkResponse false None message in
  WriteMessage (json_Marshal (Response_document resp)) conn.

(** A handler works on the connection and the backend; it drops the error a
    write returns. *)
Definition reply (w : Conn -> option string * Conn) (st : Conn * St) : Conn * St :=
  ((w st.1).2, st.2).

(** [req.Params] as the byte slice handed to [json.Unmarshal] *)
Definition raw (req : Request) : bytes := default [] (Params req).

Definition handleConfigure (req : Request) (st : Conn * St) : Conn * St :=
  match json_Unmarshal (raw req) (zero : configureParams) with
  | (_, Some err) => reply (WriteError (ID req) (-32602) ("Invalid params: " +:+ err)) st
  | (p, None) =>
      match Configure backend (cp_Memory p) (cp_CPUs p) st.2 with
      | (Some err, s) => reply (WriteError (ID req) (-32000) err) (st.1, s)
      | (None, s) => reply (WriteResponse None) (st.1, s)
      end
  end.

Definition handleCreateVM (req : Request) (st : Conn * St) : Conn * St :=
  match json_Unmarshal (raw req) (zero : vmNameParams) with
  | (_, Some err) => reply (WriteError (ID req) (-32602) ("Invalid params: " +:+ err)) st
  | (p, None) =>
      match CreateVM backend (vn_Name p) st.2 with
      | (Some err, s) => reply (WriteError (ID req) (-32000) err) (st.1, s)
      | (None, s) => reply (WriteResponse None) (st.1, s)
      end
  end.

Definition handleStartVM (req : Request) (st : Conn * St) : Conn * St :=
  match json_Unmarshal (raw req) (zero : vmNameParams) with
  | (_, Some err) => reply (WriteError (ID req) (-32602) ("Invalid params: " +:+ err)) st
  | (p, None) =>
      match StartVM backend (vn_Name p) st.2 with
      | (Some err, s) => reply (WriteError (ID req) (-32000) err) (st.1, s)
      | (None, s) => reply (WriteResponse None) (st.1, s)
      end
  end.

Definition handleStopVM (req : Request) (st : Conn * St) : Conn * St :=
  match json_Unmarshal (raw req) (zero : vmNameParams) with
  | (_, Some err) => reply (WriteError (ID req) (-32602) ("Invalid params: " +:+ err)) st
  | (p, None) =>
      match StopVM backend (vn_Name p) st.2 with
      | (Some err, s) => reply (WriteError (ID req) (-32000) err) (st.1, s)
      | (None, s) => reply (WriteResponse None) (st.1, s)
      end
  end.

(** [var p vmNameParams; if req.Params != nil { json.Unmarshal(req.Params, &p) }]:
    the error of the call is dropped. *)
Definition optionalName (req : Request) : vmNameParams :=
  match Params req with
  | Some params => (json_Unmarshal params (zero : vmNameParams)).1
  | None => zero
  end.

Definition handleIsRunning (req : Request) (st : Conn * St) : Conn * St :=
  let p := optionalName req in
  match IsRunning backend (vn_Name p) st.2 with
  | (Err err, s) => reply (WriteError (ID req) (-32000) err) (st.1, s)
  | (Ok running, s) =>
      reply (WriteResponse (Some (JObject [("running", JBool running)]))) (st.1, s)
  end.

Definition handleIsGuestConnected (req : Request) (st : Conn * St) : Conn * St :=
  let p := optionalName req in
  match IsGuestConnected backend (vn_Name p) st.2 with
  | (Err err, s) => reply (WriteError (ID req) (-32000) err) (st.1, s)
  | (Ok connected, s) =>
      reply (WriteResponse (Some (JObject [("connected", JBool connected)]))) (st.1, s)
  end.

Definition handleSpawn (req : Request) (st : Conn * St) : Conn * St :=
  match json_Unmarshal (raw req) (zero : spawnParams) with
  | (_, Some err) => reply (WriteError (ID req) (-32602) ("Invalid params: " +:+ err)) st
  | (p, None) =>
      let mounts := am_Path <$> sp_AdditionalMounts p in
      match Spawn backend (sp_Name p) (sp_ID p) (sp_Cmd p) (sp_Args p) (sp_Env p)
              (sp_Cwd p) mounts st.2 with
      | (Err err, s) => reply (WriteError (ID req) (-32000) err) (st.1, s)
      | (Ok processID, s) =>
          reply (WriteResponse (Some (JObject [("id", JString processID)]))) (st.1, s)
      end
  end.

Definition handleKill (req : Request) (st : Conn * St) : Conn * St :=
  match json_Unmarshal (raw req) (zero : processIDParams) with
  | (_, Some err) => reply (WriteError (ID req) (-32602) ("Invalid params: " +:+ err)) st
  | (p, None) =>
      match Kill backend (pi_ProcessID p) st.2 with
      | (Some err, s) => reply (WriteError (ID req) (-32000) err) (st.1, s)
      | (None, s) => reply (WriteResponse None) (st.1, s)
      end
  end.

Definition handleWriteStdin (req : Request) (st : Conn * St) : Conn * St :=
  match json_Unmarshal (raw req) (zero : writeStdinParams) with
  | (_, Some err) => reply (WriteError (ID req) (-32602) ("Invalid params: " +:+ err)) st
  | (p, None) =>
      match WriteStdin backend (ws_ProcessID p) (bytes_of_string (ws_Data p)) st.2 with
      | (Some err, s) => reply (WriteError (ID req) (-32000) err) (st.1, s)
      | (None, s) => reply (WriteResponse None) (st.1, s)
      end
  end.

Definition handleIsProcessRunning (req : Request) (st : Conn * St) : Conn * St :=
  match json_Unmarshal (raw req) (zero : processIDParams) with
  | (_, Some err) => reply (WriteError (ID req) (-32602) ("Invalid params: " +:+ err)) st
  | (p, None) =>
      match IsProcessRunning backend (pi_ProcessID p) st.2 with
      | (Err err, s) => reply (WriteError (ID req) (-32000) err) (st.1, s)
      | (Ok running, s) =>
          reply (WriteResponse (Some (JObject [("running", JBool running)]))) (st.1, s)
      end
  end.

Definition handleMountPath (req : Request) (st : Conn * St) : Conn * St :=
  match json_Unmarshal (raw req) (zero : mountPathParams) with
  | (_, Some err) => reply (WriteError (ID req) (-32602) ("Invalid params: " +:+ err)) st
  | (p, None) =>
      match MountPath backend (mp_Name p) (mp_HostPath p) (mp_GuestPath p) st.2 with
      | (Some err, s) => reply (WriteError (ID req) (-32000) err) (st.1, s)
      | (None, s) => reply (WriteResponse None) (st.1, s)
      end
  end.

Definition handleReadFile (req : Request) (st : Conn * St) : Conn * St :=
  match json_Unmarshal (raw req) (zero : readFileParams) with
  | (_, Some err) => reply (WriteError (ID req) (-32602) ("Invalid params: " +:+ err)) st
  | (p, None) =>
      match ReadFile backend (rf_Name p) (rf_Path p) st.2 with
      | (Err err, s) => reply (WriteError (ID req) (-32000) err) (st.1, s)
      | (Ok data, s) =>
          reply (WriteResponse (Some (JObject [("data", JString (string_of_bytes data))])))
            (st.1, s)
      end
  end.

Definition handleInstallSdk (req : Request) (st : Conn * St) : Conn * St :=
  match json_Unmarshal (raw req) (zero : vmNameParams) with
  | (_, Some err) => reply (WriteError (ID req) (-32602) ("Invalid params: " +:+ err)) st
  | (p, None) =>
      match InstallSdk backend (vn_Name p) st.2 with
      | (Some err, s) => reply (WriteError (ID req) (-32000) err) (st.1, s)
      | (None, s) => reply (WriteResponse None) (st.1, s)
      end
  end.

Definition handleAddApprovedOauthToken (req : Request) (st : Conn * St) : Conn * St :=
  match json_Unmarshal (raw req) (zero : oauthTokenParams) with
  | (_, Some err) => reply (WriteError (ID req) (-32602) ("Invalid params: " +:+ err)) st
  | (p, None) =>
      match AddApprovedOauthToken backend (ot_Name p) (ot_Token p) st.2 with
      | (Some err, s) => reply (WriteError (ID req) (-32000) err) (st.1, s)
      | (None, s) => reply (WriteResponse None) (st.1, s)
      end
  end.

Definition handleSetDebugLogging (req : Request) (st : Conn * St) : Conn * St :=
  match json_Unmarshal (raw req) (zero : debugLoggingParams) with
  | (_, Some err) => reply (WriteError (ID req) (-32602) ("Invalid params: " +:+ err)) st
  | (p, None) =>
      reply (WriteResponse None) (st.1, SetDebugLogging backend (dl_Enabled p) st.2)
  end.

(** The loop [for { if _, err := ReadMessage(conn); err != nil { ... return } }]
    at the end of [handleSubscribeEvents]: frames are read and dropped until
    a read fails; the result is the connection at that point.  Every frame
    read takes at least five bytes off the finite input, so a [fuel] above
    the length of the input is not used up ([None] would say it was). *)
Fixpoint readUntilError (fuel : nat) (conn : Conn) : option Conn :=
  match fuel with
  | O => None
  | S fuel =>
      match ReadMessage conn with
      | (Err _, conn) => Some conn
      | (Ok _, conn) => readUntilError fuel conn
      end
  end.


Definition handleSubscribeEvents (req : Request) (st : Conn * St) : Conn * St :=
  let p := optionalName req in
  match SubscribeEvents backend (vn_Name p) st.2 with
  | (Err err, s) => reply (WriteError (ID req) (-32000) err) (st.1, s)
  | (Ok cancel, s) =>
      let '(conn, s) := reply (WriteResponse (Some (JObject [("subscribed", JBool true)])))
                          (st.1, s) in
      match readUntilError (S (length (conn_in conn))) conn with
      | Some conn => (conn, Cancel backend cancel s)
      | None => (conn, s)
      end
  end.

Definition handleGetDownloadStatus (req : Request) (st : Conn * St) : Conn * St :=
  let '(status, s) := GetDownloadStatus backend st.2 in
  reply (WriteResponse (Some (JObject [("status", JString status)]))) (st.1, s).

(** The [switch req.Method] of [Handle], case by case. *)
Definition methods : list (string * (Request -> Conn * St -> Conn * St)) :=
  [("configure", handleConfigure);
   ("createVM", handleCreateVM);
   ("startVM", handleStartVM);
   ("stopVM", handleStopVM);
   ("isRunning", handleIsRunning);
   ("isGuestConnected", handleIsGuestConnected);
   ("spawn", handleSpawn);
   ("kill", handleKill);
   ("writeStdin", handleWriteStdin);
   ("isProcessRunning", handleIsProcessRunning);
   ("mountPath", handleMountPath);
   ("readFile", handleReadFile);
   ("installSdk", handleInstallSdk);
   ("addApprovedOauthToken", handleAddApprovedOauthToken);
   ("setDebugLogging", handleSetDebugLogging);
   ("subscribeEvents", handleSubscribeEvents);
   ("getDownloadStatus", handleGetDownloadStatus)].

Fixpoint switch {A} (cases : list (string * A)) (x : string) : option A :=
  match cases with
  | [] => None
  | (k, a) :: cases => if String.eqb x k then Some a else switch cases x
  end.

(** [Handle] *)
Definition Handle (payload : bytes) (st : Conn * St) : Conn * St :=
  match json_Unmarshal payload (zero : Request) with
  | (_, Some err) => reply (WriteError None (-32700) "Parse error") st
  | (req, None) =>
      match switch methods (Method req) with
      | Some handler => handler req st
      | None => reply (WriteError (ID req) (-32601) ("Method not found: " +:+ Method req)) st
      end
  end.

(** *** The operations as the specification tabulates them *)

(** The two shapes of a reply. *)
Definition success_document (result : option json) : json :=
  JObject (("success", JBool true) ::
           match result with Some d => [("result", d)] | None => [] end).

Definition error_document (message : string) : json :=
  JObject [("success", JBool false); ("error", JString message)].

(** The state after a handler has written the one reply [doc] and left the
    backend in state [s]. *)
Definition replied (doc : json) (conn : Conn) (s : St) : Conn * St :=
  (mkConn (conn_in conn) (conn_closed conn) (conn_out conn ++ [frame (json_Marshal doc)]), s).

(** The error, if any, of decoding the params of a request into the
    parameter shape the specification gives for the method. *)
Definition params_error (req : Request) : option string :=
  let at_type (T : Type) `{!Zero T, !Unmarshal T} : option string :=
    (json_Unmarshal (raw req) (zero : T)).2 in
  default None
    (switch
       [("configure", at_type configureParams);
        ("createVM", at_type vmNameParams);
        ("startVM", at_type vmNameParams);
        ("stopVM", at_type vmNameParams);
        ("isRunning", at_type vmNameParams);
        ("isGuestConnected", at_type vmNameParams);
        ("spawn", at_type spawnParams);
        ("kill", at_type processIDParams);
        ("writeStdin", at_type writeStdinParams);
        ("isProcessRunning", at_type processIDParams);
        ("mountPath", at_type mountPathParams);
        ("readFile", at_type readFileParams);
        ("installSdk", at_type vmNameParams);
        ("addApprovedOauthToken", at_type oauthTokenParams);
        ("setDebugLogging", at_type debugLoggingParams);
        ("subscribeEvents", at_type vmNameParams)]
       (Method req)).

(** The outcome of an operation that completes successfully: its params
    decode (for the three methods that take an optional name: as far as they
    decode), the backend reports no error, and the result is the one of the
    specification's table, [None] standing for null.  [None] overall when
    the operation does not complete successfully. *)
Definition operation_result (req : Request) (s : St) : option (option json * St) :=
  let strict (T : Type) `{!Zero T, !Unmarshal T} (call : T -> option (option json * St)) :=
    match json_Unmarshal (raw req) (zero : T) with
    | (p, None) => call p
    | (_, Some _) => None
    end in
  let null (r : option string * St) : option (option json * St) :=
    match r with (None, s) => Some (None, s) | (Some _, _) => None end in
  let shaped {A} (doc : A -> json) (r : result A * St) : option (option json * St) :=
    match r with (Ok a, s) => Some (Some (doc a), s) | (Err _, _) => None end in
  let name := vn_Name (optionalName req) in
  mjoin
    (switch
       [("configure",
         strict configureParams (fun p => null (Configure backend (cp_Memory p) (cp_CPUs p) s)));
        ("createVM", strict vmNameParams (fun p => null (CreateVM backend (vn_Name p) s)));
        ("startVM", strict vmNameParams (fun p => null (StartVM backend (vn_Name p) s)));
        ("stopVM", strict vmNameParams (fun p => null (StopVM backend (vn_Name p) s)));
        ("isRunning",
         shaped (fun b => JObject [("running", JBool b)]) (IsRunning backend name s));
        ("isGuestConnected",
         shaped (fun b => JObject [("connected", JBool b)]) (IsGuestConnected backend name s));
        ("spawn",
         strict spawnParams (fun p =>
           shaped (fun id => JObject [("id", JString id)])
             (Spawn backend (sp_Name p) (sp_ID p) (sp_Cmd p) (sp_Args p) (sp_Env p) (sp_Cwd p)
                (am_Path <$> sp_AdditionalMounts p) s)));
        ("kill", strict processIDParams (fun p => null (Kill backend (pi_ProcessID p) s)));
        ("writeStdin",
         strict writeStdinParams (fun p =>
           null (WriteStdin backend (ws_ProcessID p) (bytes_of_string (ws_Data p)) s)));
        ("isProcessRunning",
         strict processIDParams (fun p =>
           shaped (fun b => JObject [("running", JBool b)])
             (IsProcessRunning backend (pi_ProcessID p) s)));
        ("mountPath",
         strict mountPathParams (fun p =>
           null (MountPath backend (mp_Name p) (mp_HostPath p) (mp_GuestPath p) s)));
        ("readFile",
         strict readFileParams (fun p =>
           shaped (fun data => JObject [("data", JString (string_of_bytes data))])
             (ReadFile backend (rf_Name p) (rf_Path p) s)));
        ("installSdk", strict vmNameParams (fun p => null (InstallSdk backend (vn_Name p) s)));
        ("addApprovedOauthToken",
         strict oauthTokenParams (fun p =>
           null (AddApprovedOauthToken backend (ot_Name p) (ot_Token p) s)));
        ("setDebugLogging",
         strict debugLoggingParams (fun p =>
           Some (None, SetDebugLogging backend (dl_Enabled p) s)));
        ("subscribeEvents",
         shaped (fun _ : nat => JObject [("subscribed", JBool true)])
           (SubscribeEvents backend name s));
        ("getDownloadStatus",
         shaped (fun status => JObject [("status", JString status)])
           (let '(status, s) := GetDownloadStatus backend s in (Ok status, s)))]
       (Method req)).

End Dispatcher.

(** The seventeen method names. *)
Definition method_names : list string :=
  ["configure"; "createVM"; "startVM"; "stopVM"; "isRunning"; "isGuestConnected"; "spawn";
   "kill"; "writeStdin"; "isProcessRunning"; "mountPath"; "readFile"; "installSdk";
   "addApprovedOauthToken"; "setDebugLogging"; "subscribeEvents"; "getDownloadStatus"].

(** The methods whose handler reports a params decoding error. *)
Definition strict_methods : list string :=
  ["configure"; "createVM"; "startVM"; "stopVM"; "spawn"; "kill"; "writeStdin";
   "isProcessRunning"; "mountPath"; "readFile"; "installSdk"; "addApprovedOauthToken";
   "setDebugLogging"].

(** The methods whose result is null in the specification's table. *)
Definition null_result_methods : list string :=
  ["configure"; "createVM"; "startVM"; "stopVM"; "kill"; "writeStdin"; "mountPath";
   "installSdk"; "addApprovedOauthToken"; "setDebugLogging"].

End Pipe.

(** ** A codec: JSON text and the decoding rules of [encoding/json]

    The dispatcher above is stated for any codec.  This one reads and writes
    JSON text and decodes documents into the parameter types by the rules of
    [encoding/json]: a member is matched to a field by its tag, ignoring
    case; [null] leaves a field as it is; a value of the wrong kind is
    reported and decoding goes on; the first error is the one returned. *)

Module Encoding.
Import Pipe.

Definition quote : ascii := "034".
Definition backslash : ascii := "092".

Definition is_space (c : ascii) : bool :=
  let n := byte_to_Z c in (n =? 32) || (n =? 9) || (n =? 10) || (n =? 13).

Definition is_digit (c : ascii) : bool :=
  let n := byte_to_Z c in (48 <=? n) && (n <=? 57).

Fixpoint skip_space (s : bytes) : bytes :=
  match s with
  | c :: s' => if is_space c then skip_space s' else s
  | [] => []
  end.

Definition hex_value (c : ascii) : option Z :=
  let n := byte_to_Z c in
  if (48 <=? n) && (n <=? 57) then Some (n - 48)
  else if (97 <=? n) && (n <=? 102) then Some (n - 87)
  else if (65 <=? n) && (n <=? 70) then Some (n - 55)
  else None.

(** [getu4] on the text after a backslash: the code unit of [uXXXX] *)
Definition getu4 (s : bytes) : option Z :=
  match s with
  | "u"%char :: a :: b :: c :: d :: _ =>
      a ← hex_value a; b ← hex_value b; c ← hex_value c; d ← hex_value d;
      Some (((a * 16 + b) * 16 + c) * 16 + d)
  | _ => None
  end.

(** [utf8.AppendRune] for a valid code point *)
Definition utf8_encode (r : Z) : bytes :=
  if r <? 128 then [byte_of_Z r]
  else if r <? 2048 then [byte_of_Z (192 + r / 64); byte_of_Z (128 + r mod 64)]
  else if r <? 65536
  then [byte_of_Z (224 + r / 4096); byte_of_Z (128 + (r / 64) mod 64);
        byte_of_Z (128 + r mod 64)]
  else [byte_of_Z (240 + r / 262144); byte_of_Z (128 + (r / 4096) mod 64);
        byte_of_Z (128 + (r / 64) mod 64); byte_of_Z (128 + r mod 64)].

(** U+FFFD *)
Definition replacement : bytes := utf8_encode 65533.

(** The text of a string literal after its opening quote: the decoded
    bytes and what follows the closing quote. *)
Fixpoint read_string (fuel : nat) (s : bytes) : option (bytes * bytes) :=
  match fuel with
  | O => None
  | S fuel =>
      match s with
      | [] => None
      | c :: s' =>
          if Ascii.eqb c quote then Some ([], s')
          else if Ascii.eqb c backslash then
            match s' with
            | [] => None
            | e :: s'' =>
                let plain (b : Z) :=
                  '(t, rest) ← read_string fuel s''; Some (byte_of_Z b :: t, rest) in
                if Ascii.eqb e quote then plain 34
                else if Ascii.eqb e backslash then plain 92
                else if Ascii.eqb e "/" then plain 47
                else if Ascii.eqb e "b" then plain 8
                else if Ascii.eqb e "f" then plain 12
                else if Ascii.eqb e "n" then plain 10
                else if Ascii.eqb e "r" then plain 13
                else if Ascii.eqb e "t" then plain 9
                else
                  r ← getu4 s';
                  let after := drop 5 s' in
                  if (55296 <=? r) && (r <? 57344) then
                    let pair :=
                      match after with
                      | bs :: after' =>
                          if Ascii.eqb bs backslash then
                            match getu4 after' with
                            | Some r2 =>
                                if (55296 <=? r) && (r <? 56320) &&
                                   (56320 <=? r2) && (r2 <? 57344)
                                then Some ((r - 55296) * 1024 + (r2 - 56320) + 65536)
                                else None
                            | None => None
                            end
                          else None
                      | [] => None
                      end in
                    match pair with
                    | Some r' =>
                        '(t, rest) ← read_string fuel (drop 6 after);
                        Some (utf8_encode r' ++ t, rest)
                    | None =>
                        '(t, rest) ← read_string fuel after;
                        Some (replacement ++ t, rest)
                    end
                  else
                    '(t, rest) ← read_string fuel after;
                    Some (utf8_encode r ++ t, rest)
            end
          else if byte_to_Z c <? 32 then None
          else if byte_to_Z c <? 128 then
            '(t, rest) ← read_string fuel s'; Some (c :: t, rest)
          else
            let w := Bytes.rune_width s in
            if (w <=? 1)%nat
            then '(t, rest) ← read_string fuel s'; Some (replacement ++ t, rest)
            else '(t, rest) ← read_string fuel (drop w s); Some (take w s ++ t, rest)
      end
  end.

Fixpoint digits (s : bytes) : bytes * bytes :=
  match s with
  | c :: s' => if is_digit c then let '(d, rest) := digits s' in (c :: d, rest) else ([], s)
  | [] => ([], [])
  end.

(** A number literal at the head of [s] *)
Definition read_number (s : bytes) : option (bytes * bytes) :=
  let '(sign, s) := match s with
                    | "-"%char :: s' => (["-"%char], s')
                    | _ => ([], s)
                    end in
  '(int, s) ← match s with
              | "0"%char :: s' => Some (["0"%char], s')
              | _ => match digits s with
                     | ([], _) => None
                     | (d, s') => Some (d, s')
                     end
              end;
  '(frac, s) ← match s with
               | "."%char :: s' =>
                   match digits s' with
                   | ([], _) => None
                   | (d, s'') => Some ("."%char :: d, s'')
                   end
               | _ => Some ([], s)
               end;
  '(exp, s) ← match s with
              | e :: s' =>
                  if Ascii.eqb e "e" || Ascii.eqb e "E" then
                    let '(sg, s'') := match s' with
                                      | g :: t => if Ascii.eqb g "+" || Ascii.eqb g "-"
                                                  then ([g], t) else ([], s')
                                      | [] => ([], s')
                                      end in
                    match digits s'' with
                    | ([], _) => None
                    | (d, rest) => Some (e :: sg ++ d, rest)
                    end
                  else Some ([], s)
              | [] => Some ([], s)
              end;
  Some (sign ++ int ++ frac ++ exp, s).

Definition read_word (w : string) (v : json) (s : bytes) : option (json * bytes) :=
  let w := bytes_of_string w in
  if Bytes.HasPrefix s w then Some (v, drop (length w) s) else None.

(** One value at the head of [s] (leading blanks allowed) and the text after
    it.  A recursive call is made on shorter text only, so a [fuel] above the
    length of the text is never used up. *)
Fixpoint read_value (fuel : nat) (s : bytes) : option (json * bytes) :=
  match fuel with
  | O => None
  | S fuel =>
      let read_items :=
        fix read_items (n : nat) (s : bytes) : option (list json * bytes) :=
          match n with
          | O => None
          | S n =>
              '(v, s) ← read_value fuel s;
              match skip_space s with
              | ","%char :: s' => '(vs, rest) ← read_items n s'; Some (v :: vs, rest)
              | "]"%char :: s' => Some ([v], s')
              | _ => None
              end
          end in
      let read_members :=
        fix read_members (n : nat) (s : bytes) : option (list (string * json) * bytes) :=
          match n with
          | O => None
          | S n =>
              match skip_space s with
              | q :: s =>
                  if Ascii.eqb q quote then
                    '(k, s) ← read_string (length s) s;
                    match skip_space s with
                    | ":"%char :: s =>
                        '(v, s) ← read_value fuel s;
                        match skip_space s with
                        | ","%char :: s' =>
                            '(ms, rest) ← read_members n s';
                            Some ((string_of_bytes k, v) :: ms, rest)
                        | "}"%char :: s' => Some ([(string_of_bytes k, v)], s')
                        | _ => None
                        end
                    | _ => None
                    end
                  else None
              | [] => None
              end
          end in
      match skip_space s with
      | [] => None
      | c :: s' =>
          if Ascii.eqb c "n" then read_word "null" JNull (c :: s')
          else if Ascii.eqb c "t" then read_word "true" (JBool true) (c :: s')
          else if Ascii.eqb c "f" then read_word "false" (JBool false) (c :: s')
          else if Ascii.eqb c quote then
            '(t, rest) ← read_string (length s') s'; Some (JString (string_of_bytes t), rest)
          else if Ascii.eqb c "[" then
            match skip_space s' with
            | "]"%char :: rest => Some (JArray [], rest)
            | _ => '(vs, rest) ← read_items (length s') s'; Some (JArray vs, rest)
            end
          else if Ascii.eqb c "{" then
            match skip_space s' with
            | "}"%char :: rest => Some (JObject [], rest)
            | _ => '(ms, rest) ← read_members (length s') s'; Some (JObject ms, rest)
            end
          else
            '(lit, rest) ← read_number (c :: s'); Some (JNumber (string_of_bytes lit), rest)
      end
  end.

(** A whole text: one value, blanks around it and nothing else. *)
Definition parse (s : bytes) : option json :=
  match read_value (S (length s)) s with
  | Some (v, rest) => match skip_space rest with [] => Some v | _ => None end
  | None => None
  end.

(** The raw text of each member of the object that [s] holds, in order;
    used for [json.RawMessage] fields after [parse] has accepted [s]. *)
Fixpoint member_texts (n : nat) (s : bytes) : list (string * bytes) :=
  match n with
  | O => []
  | S n =>
      match skip_space s with
      | q :: s =>
          if Ascii.eqb q quote then
            match read_string (length s) s with
            | Some (k, s) =>
                match skip_space s with
                | ":"%char :: s =>
                    let s := skip_space s in
                    match read_value (S (length s)) s with
                    | Some (_, rest) =>
                        let text := take (length s - length rest) s in
                        (string_of_bytes k, text) ::
                        match skip_space rest with
                        | ","%char :: s' => member_texts n s'
                        | _ => []
                        end
                    | None => []
                    end
                | _ => []
                end
            | None => []
            end
          else []
      | [] => []
      end
  end.

Definition object_texts (s : bytes) : list (string * bytes) :=
  match skip_space s with
  | "{"%char :: s' => member_texts (length s') s'
  | _ => []
  end.

(** *** Writing *)

Definition hex_digit (n : Z) : ascii :=
  if n <? 10 then byte_of_Z (48 + n) else byte_of_Z (87 + n).

Definition u00 (n : Z) : bytes :=
  bytes_of_string "\u00" ++ [hex_digit (n / 16); hex_digit (n mod 16)].

(** The inside of a string literal: quote, backslash, control bytes and the
    bytes of [<], [>] and [&] are escaped, an ill-formed UTF-8 sequence is
    written as U+FFFD, U+2028 and U+2029 are escaped. *)
Fixpoint write_chars (fuel : nat) (s : bytes) : bytes :=
  match fuel with
  | O => []
  | S fuel =>
      match s with
      | [] => []
      | c :: s' =>
          let n := byte_to_Z c in
          if n <? 128 then
            (if (n =? 34) || (n =? 92) then [backslash; c]
             else if n =? 8 then bytes_of_string "\b"
             else if n =? 12 then bytes_of_string "\f"
             else if n =? 10 then bytes_of_string "\n"
             else if n =? 13 then bytes_of_string "\r"
             else if n =? 9 then bytes_of_string "\t"
             else if (n <? 32) || (n =? 60) || (n =? 62) || (n =? 38) then u00 n
             else [c]) ++ write_chars fuel s'
          else
            let w := Bytes.rune_width s in
            if (w <=? 1)%nat then bytes_of_string "\ufffd" ++ write_chars fuel s'
            else if Bytes.HasPrefix s (utf8_encode 8232)
            then bytes_of_string "\u2028" ++ write_chars fuel (drop 3 s)
            else if Bytes.HasPrefix s (utf8_encode 8233)
            then bytes_of_string "\u2029" ++ write_chars fuel (drop 3 s)
            else take w s ++ write_chars fuel (drop w s)
      end
  end.

Definition write_string (s : string) : bytes :=
  let b := bytes_of_string s in quote :: write_chars (length b) b ++ [quote].

(** The compact text of a document *)
Fixpoint write (v : json) : bytes :=
  match v with
  | JNull => bytes_of_string "null"
  | JBool true => bytes_of_string "true"
  | JBool false => bytes_of_string "false"
  | JNumber literal => bytes_of_string literal
  | JString s => write_string s
  | JArray items =>
      "["%char ::
      (fix write_items (l : list json) : bytes :=
         match l with
         | [] => []
         | x :: l' =>
             write x ++ match l' with [] => [] | _ :: _ => ","%char :: write_items l' end
         end) items ++ ["]"%char]
  | JObject members =>
      "{"%char ::
      (fix write_members (l : list (string * json)) : bytes :=
         match l with
         | [] => []
         | (k, x) :: l' =>
             write_string k ++ ":"%char :: write x ++
             match l' with [] => [] | _ :: _ => ","%char :: write_members l' end
         end) members ++ ["}"%char]
  end.

(** *** Decoding into Go values *)

Definition kind (v : json) : string :=
  match v with
  | JNull => "null"
  | JBool _ => "bool"
  | JNumber _ => "number"
  | JString _ => "string"
  | JArray _ => "array"
  | JObject _ => "object"
  end.

Definition type_error (v : json) (target : string) : option string :=
  Some ("json: cannot unmarshal " +:+ kind v +:+ " into Go " +:+ target).

Definition first_error (e1 e2 : option string) : option string :=
  match e1 with Some _ => e1 | None => e2 end.

(** Keys are compared after case folding: ASCII letters, and the two runes
    that fold to an ASCII letter (U+017F with S, U+212A with K). *)
Fixpoint foldName (s : string) : string :=
  match s with
  | "" => ""
  | String "197" (String "191" s') => String "S" (foldName s')
  | String "226" (String "132" (String "170" s')) => String "K" (foldName s')
  | String c s' =>
      let n := byte_to_Z c in
      String (if (97 <=? n) && (n <=? 122) then byte_of_Z (n - 32) else c) (foldName s')
  end.

Definition decode_string (field : string) (v : json) (cur : string) : string * option string :=
  match v with
  | JString s => (s, None)
  | JNull => (cur, None)
  | _ => (cur, type_error v ("struct field " +:+ field +:+ " of type string"))
  end.

Definition decode_bool (field : string) (v : json) (cur : bool) : bool * option string :=
  match v with
  | JBool b => (b, None)
  | JNull => (cur, None)
  | _ => (cur, type_error v ("struct field " +:+ field +:+ " of type bool"))
  end.

(** [strconv.ParseInt(literal, 10, 64)] on a JSON number literal *)
Definition parse_int (literal : string) : option Z :=
  let '(neg, ds) := match bytes_of_string literal with
                    | "-"%char :: ds => (true, ds)
                    | ds => (false, ds)
                    end in
  if forallb is_digit ds && negb (length ds =? 0)%nat then
    let n := foldl (fun acc c => acc * 10 + (byte_to_Z c - 48)) 0 ds in
    let n := if neg then - n else n in
    if (- 2 ^ 63 <=? n) && (n <? 2 ^ 63) then Some n else None
  else None.

Definition decode_int (field : string) (v : json) (cur : Z) : Z * option string :=
  match v with
  | JNumber literal =>
      match parse_int literal with
      | Some n => (n, None)
      | None =>
          (cur, Some ("json: cannot unmarshal number " +:+ literal +:+
                      " into Go struct field " +:+ field +:+ " of type int"))
      end
  | JNull => (cur, None)
  | _ => (cur, type_error v ("struct field " +:+ field +:+ " of type int"))
  end.

Definition decode_strings (field : string) (v : json) (cur : list string)
    : list string * option string :=
  match v with
  | JArray items =>
      foldl (fun '(acc, err) x =>
               let '(s, e) := decode_string field x "" in (acc ++ [s], first_error err e))
        ([], None) items
  | JNull => ([], None)
  | _ => (cur, type_error v ("struct field " +:+ field +:+ " of type []string"))
  end.

Definition decode_string_map (field : string) (v : json) (cur : gmap string string)
    : gmap string string * option string :=
  match v with
  | JObject members =>
      foldl (fun '(acc, err) '(k, x) =>
               let '(s, e) := decode_string field x "" in (<[k := s]> acc, first_error err e))
        (cur, None) members
  | JNull => (∅, None)
  | _ => (cur, type_error v ("struct field " +:+ field +:+ " of type map[string]string"))
  end.

(** Decoding an object into a struct: [set] stores one member, given its
    folded key. *)
Definition decode_struct {T} (target : string) (set : string -> json -> T -> T * option string)
    (v : json) (cur : T) : T * option string :=
  match v with
  | JObject members =>
      foldl (fun '(acc, err) '(k, x) =>
               let '(acc, e) := set (foldName k) x acc in (acc, first_error err e))
        (cur, None) members
  | JNull => (cur, None)
  | _ => (cur, type_error v target)
  end.

Definition set_additionalMount (k : string) (v : json) (p : additionalMount) :=
  if String.eqb k "PATH" then
    let '(s, e) := decode_string "spawnParams.additionalMounts.path" v (am_Path p) in
    (mkAdditionalMount s (am_Mode p), e)
  else if String.eqb k "MODE" then
    let '(s, e) := decode_string "spawnParams.additionalMounts.mode" v (am_Mode p) in
    (mkAdditionalMount (am_Path p) s, e)
  else (p, None).

Definition decode_mounts (v : json) (cur : gmap string additionalMount)
    : gmap string additionalMount * option string :=
  match v with
  | JObject members =>
      foldl (fun '(acc, err) '(k, x) =>
               let '(m, e) :=
                 decode_struct
                   "struct field spawnParams.additionalMounts of type pipe.additionalMount"
                   set_additionalMount x (mkAdditionalMount "" "") in
               (<[k := m]> acc, first_error err e))
        (cur, None) members
  | JNull => (∅, None)
  | _ => (cur, type_error v
                 "struct field spawnParams.additionalMounts of type map[string]pipe.additionalMount")
  end.

Definition set_configureParams (k : string) (v : json) (p : configureParams) :=
  if String.eqb k "MEMORY" then
    let '(n, e) := decode_int "configureParams.memory" v (cp_Memory p) in
    (mkConfigureParams n (cp_CPUs p), e)
  else if String.eqb k "CPUS" then
    let '(n, e) := decode_int "configureParams.cpus" v (cp_CPUs p) in
    (mkConfigureParams (cp_Memory p) n, e)
  else (p, None).

Definition set_vmNameParams (k : string) (v : json) (p : vmNameParams) :=
  if String.eqb k "NAME" then
    let '(s, e) := decode_string "vmNameParams.name" v (vn_Name p) in (mkVmNameParams s, e)
  else (p, None).

Definition set_spawnParams (k : string) (v : json) (p : spawnParams) :=
  let mk n i c a e w m := mkSpawnParams n i c a e w m in
  if String.eqb k "NAME" then
    let '(s, e) := decode_string "spawnParams.name" v (sp_Name p) in
    (mk s (sp_ID p) (sp_Cmd p) (sp_Args p) (sp_Env p) (sp_Cwd p) (sp_AdditionalMounts p), e)
  else if String.eqb k "ID" then
    let '(s, e) := decode_string "spawnParams.id" v (sp_ID p) in
    (mk (sp_Name p) s (sp_Cmd p) (sp_Args p) (sp_Env p) (sp_Cwd p) (sp_AdditionalMounts p), e)
  else if String.eqb k "COMMAND" then
    let '(s, e) := decode_string "spawnParams.command" v (sp_Cmd p) in
    (mk (sp_Name p) (sp_ID p) s (sp_Args p) (sp_Env p) (sp_Cwd p) (sp_AdditionalMounts p), e)
  else if String.eqb k "ARGS" then
    let '(l, e) := decode_strings "spawnParams.args" v (sp_Args p) in
    (mk (sp_Name p) (sp_ID p) (sp_Cmd p) l (sp_Env p) (sp_Cwd p) (sp_AdditionalMounts p), e)
  else if String.eqb k "ENV" then
    let '(m, e) := decode_string_map "spawnParams.env" v (sp_Env p) in
    (mk (sp_Name p) (sp_ID p) (sp_Cmd p) (sp_Args p) m (sp_Cwd p) (sp_AdditionalMounts p), e)
  else if String.eqb k "CWD" then
    let '(s, e) := decode_string "spawnParams.cwd" v (sp_Cwd p) in
    (mk (sp_Name p) (sp_ID p) (sp_Cmd p) (sp_Args p) (sp_Env p) s (sp_AdditionalMounts p), e)
  else if String.eqb k "ADDITIONALMOUNTS" then
    let '(m, e) := decode_mounts v (sp_AdditionalMounts p) in
    (mk (sp_Name p) (sp_ID p) (sp_Cmd p) (sp_Args p) (sp_Env p) (sp_Cwd p) m, e)
  else (p, None).

Definition set_processIDParams (k : string) (v : json) (p : processIDParams) :=
  if String.eqb k "ID" then
    let '(s, e) := decode_string "processIDParams.id" v (pi_ProcessID p) in
    (mkProcessIDParams s, e)
  else (p, None).

Definition set_writeStdinParams (k : string) (v : json) (p : writeStdinParams) :=
  if String.eqb k "ID" then
    let '(s, e) := decode_string "writeStdinParams.id" v (ws_ProcessID p) in
    (mkWriteStdinParams s (ws_Data p), e)
  else if String.eqb k "DATA" then
    let '(s, e) := decode_string "writeStdinParams.data" v (ws_Data p) in
    (mkWriteStdinParams (ws_ProcessID p) s, e)
  else (p, None).

Definition set_mountPathParams (k : string) (v : json) (p : mountPathParams) :=
  if String.eqb k "NAME" then
    let '(s, e) := decode_string "mountPathParams.name" v (mp_Name p) in
    (mkMountPathParams s (mp_HostPath p) (mp_GuestPath p), e)
  else if String.eqb k "HOSTPATH" then
    let '(s, e) := decode_string "mountPathParams.hostPath" v (mp_HostPath p) in
    (mkMountPathParams (mp_Name p) s (mp_GuestPath p), e)
  else if String.eqb k "GUESTPATH" then
    let '(s, e) := decode_string "mountPathParams.guestPath" v (mp_GuestPath p) in
    (mkMountPathParams (mp_Name p) (mp_HostPath p) s, e)
  else (p, None).

Definition set_readFileParams (k : string) (v : json) (p : readFileParams) :=
  if String.eqb k "NAME" then
    let '(s, e) := decode_string "readFileParams.name" v (rf_Name p) in
    (mkReadFileParams s (rf_Path p), e)
  else if String.eqb k "PATH" then
    let '(s, e) := decode_string "readFileParams.path" v (rf_Path p) in
    (mkReadFileParams (rf_Name p) s, e)
  else (p, None).

Definition set_oauthTokenParams (k : string) (v : json) (p : oauthTokenParams) :=
  if String.eqb k "NAME" then
    let '(s, e) := decode_string "oauthTokenParams.name" v (ot_Name p) in
    (mkOauthTokenParams s (ot_Token p), e)
  else if String.eqb k "TOKEN" then
    let '(s, e) := decode_string "oauthTokenParams.token" v (ot_Token p) in
    (mkOauthTokenParams (ot_Name p) s, e)
  else (p, None).

Definition set_debugLoggingParams (k : string) (v : json) (p : debugLoggingParams) :=
  if String.eqb k "ENABLED" then
    let '(b, e) := decode_bool "debugLoggingParams.enabled" v (dl_Enabled p) in
    (mkDebugLoggingParams b, e)
  else (p, None).

(** [json.Unmarshal]: the text is checked first; nothing is stored when it
    is not valid JSON.  The message of a syntax error is shortened: it does
    not name the offending character. *)
Definition unmarshal {T} (decode : json -> T -> T * option string) (data : bytes) (cur : T)
    : T * option string :=
  match parse data with
  | Some v => decode v cur
  | None =>
      (cur, Some (match skip_space data with
                  | [] => "unexpected end of JSON input"
                  | _ => "invalid character in JSON input"
                  end))
  end.

(** A [Request] is decoded from the member texts, because [Params] keeps
    the text of its member. *)
Definition set_Request (k : string) (text : bytes) (r : Request) : Request * option string :=
  if String.eqb k "METHOD" then
    match parse text with
    | Some v =>
        let '(s, e) := decode_string "Request.method" v (Method r) in
        (mkRequest s (Params r) (ID r), e)
    | None => (r, None)
    end
  else if String.eqb k "PARAMS" then (mkRequest (Method r) (Some text) (ID r), None)
  else if String.eqb k "ID" then
    match parse text with
    | Some JNull => (mkRequest (Method r) (Params r) None, None)
    | Some v => (mkRequest (Method r) (Params r) (Some v), None)
    | None => (r, None)
    end
  else (r, None).

Definition unmarshal_Request (data : bytes) (cur : Request) : Request * option string :=
  match parse data with
  | Some (JObject _) =>
      foldl (fun '(acc, err) '(k, text) =>
               let '(acc, e) := set_Request (foldName k) text acc in (acc, first_error err e))
        (cur, None) (object_texts data)
  | Some JNull => (cur, None)
  | Some v => (cur, type_error v "value of type pipe.Request")
  | None =>
      (cur, Some (match skip_space data with
                  | [] => "unexpected end of JSON input"
                  | _ => "invalid character in JSON input"
                  end))
  end.

Global Instance json_codec : Codec := {|
  codec_Marshal := write;
  codec_Request := unmarshal_Request;
  codec_configureParams :=
    unmarshal (decode_struct "value of type pipe.configureParams" set_configureParams);
  codec_vmNameParams :=
    unmarshal (decode_struct "value of type pipe.vmNameParams" set_vmNameParams);
  codec_spawnParams :=
    unmarshal (decode_struct "value of type pipe.spawnParams" set_spawnParams);
  codec_processIDParams :=
    unmarshal (decode_struct "value of type pipe.processIDParams" set_processIDParams);
  codec_writeStdinParams :=
    unmarshal (decode_struct "value of type pipe.writeStdinParams" set_writeStdinParams);
  codec_mountPathParams :=
    unmarshal (decode_struct "value of type pipe.mountPathParams" set_mountPathParams);
  codec_readFileParams :=
    unmarshal (decode_struct "value of type pipe.readFileParams" set_readFileParams);
  codec_oauthTokenParams :=
    unmarshal (decode_struct "value of type pipe.oauthTokenParams" set_oauthTokenParams);
  codec_debugLoggingParams :=
    unmarshal (decode_struct "value of type pipe.debugLoggingParams" set_debugLoggingParams)
|}.

End Encoding.

(** ** Runs of the tracker

    The tracker is driven by the calls of the backend and by the goroutines
    it starts.  A run is a sequence of such steps. *)

Module Run.
Import Events Native.

Record SpawnCall : Type := mkSpawnCall {
  call_id : string;
  call_cmd : string;
  call_args : list string;
  call_env : gmap string string;
  call_cwd : string;
  call_vmPrefix : string;
  call_realPrefix : string;
  call_mountRemap : list pathRemap;
  call_os : SpawnOS
}.

Definition do_spawn (c : SpawnCall) (pt : processTracker) : result string * processTracker :=
  spawn (call_id c) (call_cmd c) (call_args c) (call_env c) (call_cwd c)
    (call_vmPrefix c) (call_realPrefix c) (call_mountRemap c) (call_os c) pt.

Inductive step : Type :=
  | StepSpawn (c : SpawnCall)
  | StepStream (id : string) (r : Scanned) (stream : string)
  | StepReap (id : string) (p : nat) (w : WaitResult)
  | StepKill (processID signal : string) (getpgid : Z -> option Z)
  | StepWriteStdin (processID : string) (data : bytes) (race : StdinRace).

(** One step; for a [spawn] also what the call returned. *)
Definition exec (s : step) (pt : processTracker) : option (result string) * processTracker :=
  match s with
  | StepSpawn c => let '(r, pt) := do_spawn c pt in (Some r, pt)
  | StepStream id r stream => (None, streamOutput id r stream pt)
  | StepReap id p w => (None, reap id p w pt)
  | StepKill processID signal getpgid => (None, (kill processID signal getpgid pt).2)
  | StepWriteStdin processID data race => (None, (writeStdin processID data race pt).2)
  end.

(** A run: what every step returned, and the tracker at the end. *)
Fixpoint run (steps : list step) (pt : processTracker)
    : list (option (result string)) * processTracker :=
  match steps with
  | [] => ([], pt)
  | s :: steps =>
      let '(r, pt) := exec s pt in
      let '(rs, pt) := run steps pt in
      (r :: rs, pt)
  end.

(** The id a successful [spawn] step with an empty requested id returned. *)
Definition generated_id (s : step) (r : option (result string)) : option string :=
  match s, r with
  | StepSpawn c, Some (Ok id) => if String.eqb (call_id c) "" then Some id else None
  | _, _ => None
  end.

End Run.

(** ** The native backend's [Kill] and two backends to run the dispatcher on *)

Module Backends.
Import Frame Pipe Native.

(** Modelled from the spec: the [Kill] method of the native backend
    ([native/backend.go]) is not among the sources.  The specification's
    kill semantics has it select the record by the id and use SIGTERM when
    no signal is given; the interface gives [Kill] nothing but the id, so it
    calls the tracker's [kill] with the empty signal name, as [killAll]
    does. *)
Definition Backend_Kill (getpgid : Z -> option Z) (processID : string)
    (pt : processTracker) : option string * processTracker :=
  kill processID "" getpgid pt.

(** A backend in which every operation succeeds and nothing is running. *)
Definition quiet : VMBackend unit := {|
  Configure := fun _ _ s => (None, s);
  CreateVM := fun _ s => (None, s);
  StartVM := fun _ s => (None, s);
  StopVM := fun _ s => (None, s);
  IsRunning := fun _ s => (Ok false, s);
  IsGuestConnected := fun _ s => (Ok false, s);
  Spawn := fun _ id _ _ _ _ _ s => (Ok id, s);
  Kill := fun _ s => (None, s);
  WriteStdin := fun _ _ s => (None, s);
  IsProcessRunning := fun _ s => (Ok false, s);
  MountPath := fun _ _ _ s => (None, s);
  ReadFile := fun _ _ s => (Ok [], s);
  InstallSdk := fun _ s => (None, s);
  AddApprovedOauthToken := fun _ _ s => (None, s);
  SetDebugLogging := fun _ s => s;
  SubscribeEvents := fun _ s => (Ok 0%nat, s);
  Cancel := fun _ s => s;
  GetDownloadStatus := fun s => ("NotDownloaded", s)
|}.

(** The [quiet] backend over a process tracker, with the native [Kill]. *)
Definition quiet_with_Kill (getpgid : Z -> option Z) : VMBackend processTracker := {|
  Configure := fun _ _ s => (None, s);
  CreateVM := fun _ s => (None, s);
  StartVM := fun _ s => (None, s);
  StopVM := fun _ s => (None, s);
  IsRunning := fun _ s => (Ok false, s);
  IsGuestConnected := fun _ s => (Ok false, s);
  Spawn := fun _ id _ _ _ _ _ s => (Ok id, s);
  Kill := Backend_Kill getpgid;
  WriteStdin := fun _ _ s => (None, s);
  IsProcessRunning := fun _ s => (Ok false, s);
  MountPath := fun _ _ _ s => (None, s);
  ReadFile := fun _ _ s => (Ok [], s);
  InstallSdk := fun _ s => (None, s);
  AddApprovedOauthToken := fun _ _ s => (None, s);
  SetDebugLogging := fun _ s => s;
  SubscribeEvents := fun _ s => (Ok 0%nat, s);
  Cancel := fun _ s => s;
  GetDownloadStatus := fun s => ("NotDownloaded", s)
|}.

(** Text with ['] standing for the double quote, to write JSON examples. *)
Definition json_text (s : string) : bytes :=
  map (fun c => if Ascii.eqb c "'" then "034"%char else c) (bytes_of_string s).

(** Requests used in the examples. *)
Definition isRunning_bad_params : bytes := json_text "{'method':'isRunning','params':5}".
Definition configure_request : bytes :=
  json_text "{'method':'configure','params':{'memory':4096,'cpus':2},'id':7}".
Definition configure_bad_params : bytes :=
  json_text "{'method':'configure','params':{'memory':'much'}}".
Definition unknown_method : bytes := json_text "{'method':'frobnicate'}".
Definition kill_with_signal : bytes :=
  json_text "{'method':'kill','params':{'id':'proc-1','signal':'SIGKILL'}}".

End Backends.

(** ** Concrete inputs for the examples *)

Module Fixtures.
Import Native Run.

(** An operating system on which the executable is found as given, the
    pipes can be created and the process starts with the given pid. *)
Definition os_ok (pid : Z) : SpawnOS := {|
  os_Stat := fun _ => true;
  os_LookPath := fun _ => None;
  os_which := fun _ => None;
  os_HOME := "/home/u";
  fp_Base := fun p => p;
  fp_Join := fun l => foldr (fun a b => a +:+ "/" +:+ b) "" l;
  fp_Abs := fun p => Some p;
  os_Environ := ["PATH=/usr/bin"; "CLAUDECODE=1"; "HOME=/home/u"];
  range_env := map_to_list;
  os_StdinPipe := None;
  os_StdoutPipe := None;
  os_StderrPipe := None;
  os_Start := Ok pid
|}.

(** The same for a supervisor that runs in [/srv]. *)
Definition os_in_srv (pid : Z) : SpawnOS := {|
  os_Stat := fun _ => true;
  os_LookPath := fun _ => None;
  os_which := fun _ => None;
  os_HOME := "/home/u";
  fp_Base := fun p => p;
  fp_Join := fun l => foldr (fun a b => a +:+ "/" +:+ b) "" l;
  fp_Abs := fun p => Some p;
  os_Environ := ["PATH=/usr/bin"; "PWD=/srv"];
  range_env := map_to_list;
  os_StdinPipe := None;
  os_StdoutPipe := None;
  os_StderrPipe := None;
  os_Start := Ok pid
|}.

(** A call of [spawn] for [/bin/cat] under the requested id. *)
Definition cat_call (id : string) (pid : Z) : SpawnCall :=
  mkSpawnCall id "/bin/cat" [] ∅ "" "" "" [] (os_ok pid).

(** A caller's environment that names one of the two stripped variables. *)
Definition caller_env : gmap string string :=
  <["CLAUDECODE" := "2"]> (<["FOO" := "bar"]> ∅).

(** A process spawned with reverse mapping on. *)
Definition mapped_process : localProcess :=
  mkLocalProcess "proc-1" "/bin/sh" [] "" [] (Some 4242) [] false
    (Some (bytes_of_string "/sessions/s")) (Some (bytes_of_string "/data/s")) true [].

(** A tracker that holds this one process. *)
Definition one_process : processTracker :=
  mkTracker [mapped_process] {["proc-1" := 0%nat]} 1 [] [] false.

(** The write returns after a millisecond with an error; the latch stays
    open. *)
Definition write_fails : StdinRace :=
  mkStdinRace (Some (1000000, Some "write |1: broken pipe")) None [].

End Fixtures.

(** ** pipe/handlers.go, pipe/server.go: subscriptions, backend errors and
    the loop of a connection *)

Module Service.
Import Frame Pipe.

(** [conn.Close()] *)
Definition Close (c : Conn) : Conn := mkConn (conn_in c) true (conn_out c).

Section Service.
Context `{!Codec} {St : Type} (backend : VMBackend St).

(** Does the payload decode as a request for [subscribeEvents], the one
    method whose handler reads from the connection *)
Definition subscribes (payload : bytes) : bool :=
  match json_Unmarshal payload (zero : Request) with
  | (req, None) => String.eqb (Method req) "subscribeEvents"
  | (_, Some _) => false
  end.


(** The error the backend answers a request with, and the state it is left
    in: params are decoded as the handler of the method decodes them and the
    operation of the method is called.  [None] when the params do not
    decode, when the operation reports no error, and for the two methods
    whose operation has no error result. *)
Definition operation_error (req : Request) (s : St) : option (string * St) :=
  let strict (T : Type) `{!Zero T, !Unmarshal T} (call : T -> option (string * St)) :=
    match json_Unmarshal (raw req) (zero : T) with
    | (p, None) => call p
    | (_, Some _) => None
    end in
  let failed (r : option string * St) : option (string * St) :=
    match r with (Some e, s) => Some (e, s) | (None, _) => None end in
  let failed_with {A} (r : result A * St) : option (string * St) :=
    match r with (Err e, s) => Some (e, s) | (Ok _, _) => None end in
  let name := vn_Name (optionalName req) in
  mjoin
    (switch
       [("configure",
         strict configureParams (fun p => failed (Configure backend (cp_Memory p) (cp_CPUs p) s)));
        ("createVM", strict vmNameParams (fun p => failed (CreateVM backend (vn_Name p) s)));
        ("startVM", strict vmNameParams (fun p => failed (StartVM backend (vn_Name p) s)));
        ("stopVM", strict vmNameParams (fun p => failed (StopVM backend (vn_Name p) s)));
        ("isRunning", failed_with (IsRunning backend name s));
        ("isGuestConnected", failed_with (IsGuestConnected backend name s));
        ("spawn",
         strict spawnParams (fun p =>
           failed_with
             (Spawn backend (sp_Name p) (sp_ID p) (sp_Cmd p) (sp_Args p) (sp_Env p) (sp_Cwd p)
                (am_Path <$> sp_AdditionalMounts p) s)));
        ("kill", strict processIDParams (fun p => failed (Kill backend (pi_ProcessID p) s)));
        ("writeStdin",
         strict writeStdinParams (fun p =>
           failed (WriteStdin backend (ws_ProcessID p) (bytes_of_string (ws_Data p)) s)));
        ("isProcessRunning",
         strict processIDParams (fun p =>
           failed_with (IsProcessRunning backend (pi_ProcessID p) s)));
        ("mountPath",
         strict mountPathParams (fun p =>
           failed (MountPath backend (mp_Name p) (mp_HostPath p) (mp_GuestPath p) s)));
        ("readFile",
         strict readFileParams (fun p => failed_with (ReadFile backend (rf_Name p) (rf_Path p) s)));
        ("installSdk", strict vmNameParams (fun p => failed (InstallSdk backend (vn_Name p) s)));
        ("addApprovedOauthToken",
         strict oauthTokenParams (fun p =>
           failed (AddApprovedOauthToken backend (ot_Name p) (ot_Token p) s)));
        ("subscribeEvents", failed_with (SubscribeEvents backend name s))]
       (Method req)).

(** The loop of [handleConnection]: look at [quit], read a frame, hand it to
    [Handle]; leave when [quit] is closed or a read fails.  [quit] is the
    number of passes after which the loop finds the channel closed, [None]
    when it stays open.  The deferred [conn.Close()] runs on the way out.
    Every pass takes at least five bytes off the finite input, so a [fuel]
    above its length is not used up ([None] would say it was). *)
Fixpoint connectionLoop (fuel : nat) (quit : option nat) (st : Conn * St)
    : option (Conn * St) :=
  match fuel with
  | O => None
  | S fuel =>
      match quit with
      | Some O => Some (Close st.1, st.2)
      | _ =>
          match ReadMessage st.1 with
          | (Err _, conn) => Some (Close conn, st.2)
          | (Ok payload, conn) =>
              connectionLoop fuel (Nat.pred <$> quit) (Handle backend payload (conn, st.2))
          end
      end
  end.

(** [handleConnection] *)
Definition handleConnection (quit : option nat) (st : Conn * St) : option (Conn * St) :=
  connectionLoop (S (length (conn_in st.1))) quit st.

End Service.
End Service.

(** ** native/process.go: the shape of the registry *)

Module Registry.
Import Native.

(** The registry is consistent when every entry points to an allocated
    record that carries the key as its id and holds a started process. *)
Definition consistent (pt : processTracker) : Prop :=
  map_Forall
    (fun id p =>
       match objects pt !! p with
       | Some lp => lp_id lp = id /\ is_Some (cmd_Process lp)
       | None => False
       end)
    (processes pt).


End Registry.

(** ** vm/vsock.go: the channel to the daemon inside the guest *)

Module Vsock.
Import Frame Pipe.

(** [VsockListener]: of the socket the model keeps the descriptor and the
    accepted connection, [None] for nil. *)
Record VsockListener : Type := mkVsockListener {
  vs_cid : Z;
  vs_port : Z;
  vs_conn : option Conn;
  vs_connected : bool;
  vs_debug : bool;
  vs_fd : Z;
  vs_closed : bool
}.

(** [0xC822] *)
Definition vsockPort : Z := 51234.

Definition NewVsockListener (port : Z) (debug : bool) : VsockListener :=
  mkVsockListener 0 port None false debug (-1) false.

(** The body of [acceptLoop] once a connection has been accepted: it
    replaces the earlier one. *)
Definition accepted (c : Conn) (v : VsockListener) : VsockListener :=
  mkVsockListener (vs_cid v) (vs_port v) (Some c) true (vs_debug v) (vs_fd v) (vs_closed v).

Definition IsConnected (v : VsockListener) : bool := vs_connected v.

(** [markDisconnected]: the connection, if there is one, is closed and
    dropped. *)
Definition markDisconnected (v : VsockListener) : VsockListener :=
  mkVsockListener (vs_cid v) (vs_port v) None false (vs_debug v) (vs_fd v) (vs_closed v).

(** The listener with its connection in a new state *)
Definition with_conn (c : Conn) (v : VsockListener) : VsockListener :=
  mkVsockListener (vs_cid v) (vs_port v) (Some c) (vs_connected v) (vs_debug v) (vs_fd v)
    (vs_closed v).

(** [SendCommand(cmd)], for a command that marshals to the document [cmd]
    (a map of strings, string slices and string maps always marshals). *)
Definition SendCommand `{!Marshal} (cmd : json) (v : VsockListener)
    : result bytes * VsockListener :=
  match vs_conn v with
  | None => (Err "sdk-daemon not connected", v)
  | Some conn =>
      let data := json_Marshal cmd in
      let lenBuf := PutUint32 (uint32 (Z.of_nat (length data))) in
      match conn_Write lenBuf conn with
      | (Some e, _) => (Err ("writing to sdk-daemon: " +:+ e), markDisconnected v)
      | (None, conn) =>
      match conn_Write data conn with
      | (Some e, _) => (Err ("writing to sdk-daemon: " +:+ e), markDisconnected v)
      | (None, conn) =>
      match ReadFull 4 conn with
      | (Err e, _) => (Err ("reading from sdk-daemon: " +:+ e), markDisconnected v)
      | (Ok respLen, conn) =>
          let length := Uint32 respLen in
          if length >? 10 * 1024 * 1024
          then (Err ("response too large: " +:+ pretty length +:+ " bytes"), with_conn conn v)
          else
            match ReadFull (Z.to_nat length) conn with
            | (Err e, _) => (Err ("reading response: " +:+ e), markDisconnected v)
            | (Ok resp, conn) => (Ok resp, with_conn conn v)
            end
      end end end
  end.

(** [Close] *)
Definition Close (v : VsockListener) : VsockListener :=
  mkVsockListener (vs_cid v) (vs_port v) None
    (match vs_conn v with Some _ => false | None => vs_connected v end)
    (vs_debug v) (if 0 <=? vs_fd v then -1 else vs_fd v) true.

(** What happens to a listener over time. *)
Inductive event : Type :=
  | Accept (c : Conn)
  | Send (cmd : json)
  | Disconnect
  | Shut.

Definition step `{!Marshal} (e : event) (v : VsockListener) : VsockListener :=
  match e with
  | Accept c => accepted c v
  | Send cmd => (SendCommand cmd v).2
  | Disconnect => markDisconnected v
  | Shut => Close v
  end.

End Vsock.

(** ** process/spawn.go: the tracker of processes inside the guest *)

Module GuestProcesses.
Import Frame Pipe Vsock.

(** [ProcessInfo]; [Args] is a slice, [None] for nil. *)
Record ProcessInfo : Type := mkProcessInfo {
  pi_ID : string;
  pi_Cmd : string;
  pi_Args : option (list string);
  pi_Running : bool
}.

(** [Tracker] *)
Record Tracker : Type := mkGuestTracker {
  vsock : option VsockListener;
  processes : gmap string ProcessInfo
}.

Definition NewTracker (vsock : option VsockListener) : Tracker := mkGuestTracker vsock ∅.

(** The anonymous struct the response of a spawn is decoded into. *)
Record spawnResult : Type := mkSpawnResult {
  sr_ProcessID : string    (* json:"processId" *)
}.
Global Instance spawnResult_zero : Zero spawnResult := mkSpawnResult "".

(** The entries of a map in the order [json.Marshal] writes them: sorted
    by key. *)
Fixpoint insertEntry (kv : string * string) (l : list (string * string))
    : list (string * string) :=
  match l with
  | [] => [kv]
  | x :: l' => if String.leb kv.1 x.1 then kv :: l else x :: insertEntry kv l'
  end.

Definition sortedEntries (m : gmap string string) : list (string * string) :=
  foldr insertEntry [] (map_to_list m).

(** The documents [json.Marshal] gives a slice of strings and a map of
    strings; nil gives null. *)
Definition strings_document (l : option (list string)) : json :=
  match l with
  | Some l => JArray (JString <$> l)
  | None => JNull
  end.

Definition map_document (m : option (gmap string string)) : json :=
  match m with
  | Some m => JObject ((fun kv => (kv.1, JString kv.2)) <$> sortedEntries m)
  | None => JNull
  end.

(** The commands, as the maps marshal: keys in sorted order. *)
Definition spawn_command (cmd : string) (args : option (list string))
    (env : option (gmap string string)) (cwd : string) : json :=
  JObject [("args", strings_document args); ("cmd", JString cmd); ("cwd", JString cwd);
           ("env", map_document env); ("method", JString "spawn")].

Definition kill_command (processID : string) : json :=
  JObject [("method", JString "kill"); ("processId", JString processID)].

Section Tracker.
Context `{!Marshal, !Unmarshal spawnResult}.

Definition connected (t : Tracker) : bool :=
  match vsock t with
  | Some v => IsConnected v
  | None => false
  end.

(** [Spawn] *)
Definition Spawn (cmd : string) (args : option (list string))
    (env : option (gmap string string)) (cwd : string) (t : Tracker)
    : result string * Tracker :=
  match vsock t with
  | None => (Err "sdk-daemon not connected", t)
  | Some v =>
      if negb (IsConnected v) then (Err "sdk-daemon not connected", t)
      else
        match SendCommand (spawn_command cmd args env cwd) v with
        | (Err err, v) => (Err ("spawn command failed: " +:+ err), mkGuestTracker (Some v) (processes t))
        | (Ok resp, v) =>
            match json_Unmarshal resp (zero : spawnResult) with
            | (_, Some err) =>
                (Err ("parsing spawn response: " +:+ err), mkGuestTracker (Some v) (processes t))
            | (result, None) =>
                (Ok (sr_ProcessID result),
                 mkGuestTracker (Some v)
                   (<[sr_ProcessID result :=
                        mkProcessInfo (sr_ProcessID result) cmd args true]> (processes t)))
            end
        end
  end.

(** [p.Running = false] for the entry of [processID], if there is one *)
Definition stopped (processID : string) (m : gmap string ProcessInfo) : gmap string ProcessInfo :=
  alter (fun p => mkProcessInfo (pi_ID p) (pi_Cmd p) (pi_Args p) false) processID m.

(** [Kill] *)
Definition Kill (processID : string) (t : Tracker) : option string * Tracker :=
  match vsock t with
  | None => (Some "sdk-daemon not connected", t)
  | Some v =>
      if negb (IsConnected v) then (Some "sdk-daemon not connected", t)
      else
        match SendCommand (kill_command processID) v with
        | (Err err, v) => (Some err, mkGuestTracker (Some v) (processes t))
        | (Ok _, v) => (None, mkGuestTracker (Some v) (stopped processID (processes t)))
        end
  end.

(** [IsRunning] *)
Definition IsRunning (processID : string) (t : Tracker) : bool :=
  match processes t !! processID with
  | None => false
  | Some p => pi_Running p
  end.

(** [MarkExited] *)
Definition MarkExited (processID : string) (t : Tracker) : Tracker :=
  mkGuestTracker (vsock t) (stopped processID (processes t)).

End Tracker.
End GuestProcesses.

(** ** vm/manager.go: settings, subscriptions and bundles of the VM manager *)

Module Manager.
Import Pipe.

(** A callback [func(event interface{})]: callbacks are told apart by a
    number. *)
Definition callback := nat.

(** [Manager], without the VM instance and the guest channel, which the
    operations below do not touch. *)
Record Manager : Type := mkManager {
  dataDir : string;
  bundlesDir : string;
  debug : bool;
  memory : Z;
  cpus : Z;
  cid : Z;
  subscribers : list (option callback)
}.

Definition NewManager (dataDir bundlesDir : string) (debug : bool) : Manager :=
  mkManager dataDir bundlesDir debug 4096 2 3 [].

(** [Configure] *)
Definition Configure (memory cpus : Z) (m : Manager) : option string * Manager :=
  let m := if 0 <? memory
           then mkManager (dataDir m) (bundlesDir m) (debug m) memory (Manager.cpus m) (cid m)
                  (subscribers m)
           else m in
  let m := if 0 <? cpus
           then mkManager (dataDir m) (bundlesDir m) (debug m) (Manager.memory m) cpus (cid m)
                  (subscribers m)
           else m in
  (None, m).

(** [MountPath] *)
Definition MountPath (name hostPath guestPath : string) (m : Manager) : option string * Manager :=
  (Some "dynamic mount not yet implemented; configure mounts before VM start", m).

(** [SetDebugLogging] *)
Definition SetDebugLogging (enabled : bool) (m : Manager) : Manager :=
  mkManager (dataDir m) (bundlesDir m) enabled (memory m) (cpus m) (cid m) (subscribers m).

(** [SubscribeEvents]: the result stands for the [cancel] function, which
    holds the index of the new entry. *)
Definition SubscribeEvents (name : string) (cb : callback) (m : Manager)
    : result nat * Manager :=
  (Ok (length (subscribers m)),
   mkManager (dataDir m) (bundlesDir m) (debug m) (memory m) (cpus m) (cid m)
     (subscribers m ++ [Some cb])).

(** The [cancel] function for the index [idx] *)
Definition cancel (idx : nat) (m : Manager) : Manager :=
  if (idx <? length (subscribers m))%nat
  then mkManager (dataDir m) (bundlesDir m) (debug m) (memory m) (cpus m) (cid m)
         (<[idx := None]> (subscribers m))
  else m.

(** [emitEvent]: the callbacks it starts, each in a goroutine of its own
    (so the order in which they run is not fixed). *)
Definition emitEvent (m : Manager) : list callback :=
  omap id (subscribers m).

(** Operations on the subscriptions of a manager, and a run of them. *)
Inductive sub_op : Type :=
  | Subscribe (cb : callback)
  | Cancel (idx : nat).

Definition sub_step (m : Manager) (op : sub_op) : Manager :=
  match op with
  | Subscribe cb => (SubscribeEvents "" cb m).2
  | Cancel idx => cancel idx m
  end.

(** What the file system answers while bundles are looked for. *)
Record DirEntry : Type := mkDirEntry {
  Name : string;
  IsDir : bool
}.

Record BundleFS : Type := mkBundleFS {
  ReadDir : string -> result (list DirEntry);   (* os.ReadDir *)
  Stat : string -> bool;                        (* os.Stat succeeds *)
  Join : string -> string -> string             (* filepath.Join of two elements *)
}.

Definition holds (fs : BundleFS) (dir : string) (file : string) : bool :=
  Stat fs (Join fs dir file).

(** The loop of [GetDownloadStatus] over the entries of the bundles
    directory *)
Fixpoint downloaded (fs : BundleFS) (bundlesDir : string) (entries : list DirEntry) : string :=
  match entries with
  | [] => "NotDownloaded"
  | entry :: entries =>
      if IsDir entry then
        let dir := Join fs bundlesDir (Name entry) in
        if holds fs dir "rootfs.vhdx" then "Ready"
        else if holds fs dir "rootfs.qcow2" then "Ready"
        else downloaded fs bundlesDir entries
      else downloaded fs bundlesDir entries
  end.

(** [GetDownloadStatus] *)
Definition GetDownloadStatus (fs : BundleFS) (m : Manager) : string :=
  match ReadDir fs (bundlesDir m) with
  | Err _ => "NotDownloaded"
  | Ok [] => "NotDownloaded"
  | Ok entries => downloaded fs (bundlesDir m) entries
  end.

(** The loop of [findLatestBundle] *)
Fixpoint latest (fs : BundleFS) (bundlesDir : string) (entries : list DirEntry)
    : result string :=
  match entries with
  | [] => Err ("no bundles found in " +:+ bundlesDir)
  | entry :: entries =>
      if IsDir entry then
        let dir := Join fs bundlesDir (Name entry) in
        if holds fs dir "rootfs.vhdx" then Ok dir
        else if holds fs dir "rootfs.qcow2" then Ok dir
        else if holds fs dir "rootfs.vhdx.zst" then Ok dir
        else latest fs bundlesDir entries
      else latest fs bundlesDir entries
  end.

(** [findLatestBundle] *)
Definition findLatestBundle (fs : BundleFS) (m : Manager) : result string :=
  match ReadDir fs (bundlesDir m) with
  | Err err => Err ("reading bundles dir: " +:+ err)
  | Ok entries => latest fs (bundlesDir m) entries
  end.

End Manager.

(** ** Further inputs for the examples *)

Module Samples.
Import Frame Pipe Native Encoding.

(** A backend in which every operation that can fail fails with [e]. *)
Definition refusing (e : string) : VMBackend unit := {|
  Configure := fun _ _ s => (Some e, s);
  CreateVM := fun _ s => (Some e, s);
  StartVM := fun _ s => (Some e, s);
  StopVM := fun _ s => (Some e, s);
  IsRunning := fun _ s => (Err e, s);
  IsGuestConnected := fun _ s => (Err e, s);
  Spawn := fun _ _ _ _ _ _ _ s => (Err e, s);
  Kill := fun _ s => (Some e, s);
  WriteStdin := fun _ _ s => (Some e, s);
  IsProcessRunning := fun _ s => (Err e, s);
  MountPath := fun _ _ _ s => (Some e, s);
  ReadFile := fun _ _ s => (Err e, s);
  InstallSdk := fun _ s => (Some e, s);
  AddApprovedOauthToken := fun _ _ s => (Some e, s);
  SetDebugLogging := fun _ s => s;
  SubscribeEvents := fun _ s => (Err e, s);
  Cancel := fun _ s => s;
  GetDownloadStatus := fun s => ("NotDownloaded", s)
|}.

Definition configure_without_id : bytes :=
  Backends.json_text "{'method':'configure','params':{'memory':4096,'cpus':2}}".

Definition isRunning_request : bytes :=
  Backends.json_text "{'method':'isRunning','params':{'name':'vm'}}".

Definition subscribe_request : bytes :=
  Backends.json_text "{'method':'subscribeEvents','params':{'name':'vm'}}".

(** An operating system on which the process cannot be started. *)
Definition os_start_fails : SpawnOS := {|
  os_Stat := fun _ => true;
  os_LookPath := fun _ => None;
  os_which := fun _ => None;
  os_HOME := "/home/u";
  fp_Base := fun p => p;
  fp_Join := fun l => foldr (fun a b => a +:+ "/" +:+ b) "" l;
  fp_Abs := fun p => Some p;
  os_Environ := [];
  range_env := map_to_list;
  os_StdinPipe := None;
  os_StdoutPipe := None;
  os_StderrPipe := None;
  os_Start := Err "exec format error"
|}.

(** A process without path mapping, and a tracker that holds it. *)
Definition plain_process : localProcess :=
  mkLocalProcess "proc-1" "/bin/cat" [] "" [] (Some 4242) [] false None None false [].

Definition plain_tracker : processTracker :=
  mkTracker [plain_process] {["proc-1" := 0%nat]} 1 [] [] false.

(** Decoding of the response of a spawn in the guest. *)
Definition set_spawnResult (k : string) (v : json) (r : GuestProcesses.spawnResult) :=
  if String.eqb k "PROCESSID" then
    let '(s, e) := decode_string ".processId" v (GuestProcesses.sr_ProcessID r) in
    (GuestProcesses.mkSpawnResult s, e)
  else (r, None).

Definition spawnResult_type : string :=
  "value of type struct { ProcessID string " +:+ String quote "json:" +:+
  String backslash (String quote "processId") +:+ String backslash (String quote "") +:+
  String quote " }".

Global Instance spawnResult_unmarshal : Unmarshal GuestProcesses.spawnResult :=
  unmarshal (decode_struct spawnResult_type set_spawnResult).

(** A file system with one bundle directory that holds only the compressed
    image. *)
Definition compressed_only : Manager.BundleFS := {|
  Manager.ReadDir := fun _ => Ok [Manager.mkDirEntry "sha" true];
  Manager.Stat := fun p => String.eqb p "/bundles/sha/rootfs.vhdx.zst";
  Manager.Join := fun a b => a +:+ "/" +:+ b
|}.

End Samples.

(** * Properties *)

(** ** The frame codec *)

Section FrameCodec.
Import Frame.

Lemma byte_to_Z_range b : 0 <= byte_to_Z b < 256.
Proof.
  unfold byte_to_Z. pose proof (N_ascii_bounded b). lia.
Qed.

Lemma byte_to_of_Z v : byte_to_Z (byte_of_Z v) = v mod 256.
Proof.
  unfold byte_to_Z, byte_of_Z.
  pose proof (Z.mod_pos_bound v 256 ltac:(lia)).
  rewrite N_ascii_embedding by lia. lia.
Qed.

Lemma byte_of_to_Z b : byte_of_Z (byte_to_Z b) = b.
Proof.
  unfold byte_to_Z, byte_of_Z. pose proof (N_ascii_bounded b).
  rewrite Z.mod_small by lia. rewrite N2Z.id. apply ascii_N_embedding.
Qed.

Lemma lor_shiftl_add a b n :
  0 <= n -> 0 <= a < 2 ^ n -> Z.lor a (Z.shiftl b n) = a + b * 2 ^ n.
Proof.
  intros Hn Ha. rewrite <- Z.shiftl_mul_pow2 by lia.
  assert (Hland : Z.land a (Z.shiftl b n) = 0).
  { apply Z.bits_inj'. intros k Hk. rewrite Z.land_spec, Z.bits_0.
    destruct (Z.lt_ge_cases k n) as [Hlt | Hge].
    - rewrite Z.shiftl_spec_low by lia. apply andb_false_r.
    - destruct (Z.eq_dec a 0) as [-> | Hne]; [rewrite Z.bits_0; reflexivity |].
      rewrite (Z.bits_above_log2 a k); [reflexivity | apply Ha |].
      apply Z.log2_lt_pow2; [lia |].
      apply Z.lt_le_trans with (2 ^ n); [apply Ha |].
      apply Z.pow_le_mono_r; lia. }
  rewrite Z.add_nocarry_lxor by exact Hland.
  symmetry. apply Z.lxor_lor. exact Hland.
Qed.

Lemma Uint32_arith b0 b1 b2 b3 :
  Uint32 [b0; b1; b2; b3] =
  byte_to_Z b3 + byte_to_Z b2 * 2 ^ 8 + byte_to_Z b1 * 2 ^ 16 + byte_to_Z b0 * 2 ^ 24.
Proof.
  unfold Uint32.
  pose proof (byte_to_Z_range b0). pose proof (byte_to_Z_range b1).
  pose proof (byte_to_Z_range b2). pose proof (byte_to_Z_range b3).
  rewrite (lor_shiftl_add (byte_to_Z b3)) by lia.
  rewrite (lor_shiftl_add _ (byte_to_Z b1)) by lia.
  rewrite (lor_shiftl_add _ (byte_to_Z b0)) by lia.
  reflexivity.
Qed.

Lemma Uint32_range b : 0 <= Uint32 b < 2 ^ 32.
Proof.
  destruct b as [| b0 [| b1 [| b2 [| b3 [| ? ?]]]]]; try (simpl; lia).
  rewrite Uint32_arith.
  pose proof (byte_to_Z_range b0). pose proof (byte_to_Z_range b1).
  pose proof (byte_to_Z_range b2). pose proof (byte_to_Z_range b3). lia.
Qed.

Lemma Uint32_PutUint32 v : 0 <= v < 2 ^ 32 -> Uint32 (PutUint32 v) = v.
Proof.
  intros Hv. unfold PutUint32. rewrite Uint32_arith, !byte_to_of_Z.
  rewrite !Z.shiftr_div_pow2 by lia.
  change (2 ^ 8) with 256. change (2 ^ 16) with 65536. change (2 ^ 24) with 16777216.
  change (2 ^ 32) with 4294967296 in Hv.
  pose proof (Z.div_mod v 256 ltac:(lia)).
  pose proof (Z.mod_pos_bound v 256 ltac:(lia)).
  pose proof (Z.div_mod (v / 256) 256 ltac:(lia)).
  pose proof (Z.mod_pos_bound (v / 256) 256 ltac:(lia)).
  pose proof (Z.div_mod (v / 256 / 256) 256 ltac:(lia)).
  pose proof (Z.mod_pos_bound (v / 256 / 256) 256 ltac:(lia)).
  assert (v / 65536 = v / 256 / 256) as -> by (rewrite Z.div_div by lia; reflexivity).
  assert (v / 16777216 = v / 256 / 256 / 256) as -> by (rewrite !Z.div_div by lia; reflexivity).
  assert (0 <= v / 256 / 256 / 256 < 256).
  { split; [repeat apply Z.div_pos; lia |].
    repeat (apply Z.div_lt_upper_bound; [lia |]). lia. }
  rewrite (Z.mod_small (v / 256 / 256 / 256)) by lia. lia.
Qed.


Lemma ReadFull_enough n c :
  (n <= length (conn_in c))%nat ->
  ReadFull n c = (Ok (take n (conn_in c)),
                  mkConn (drop n (conn_in c)) (conn_closed c) (conn_out c)).
Proof.
  intros Hn. unfold ReadFull.
  destruct (Nat.leb_spec n (length (conn_in c))); [reflexivity | lia].
Qed.

Lemma ReadFull_short n c :
  (length (conn_in c) < n)%nat -> is_Err (ReadFull n c).1.
Proof.
  intros Hn. unfold ReadFull.
  destruct (Nat.leb_spec n (length (conn_in c))); [lia | exact I].
Qed.

(** Reading a header: four bytes are available. *)
Lemma ReadMessage_header c hdr rest :
  conn_in c = hdr ++ rest -> length hdr = 4%nat ->
  ReadFull 4 c = (Ok hdr, mkConn rest (conn_closed c) (conn_out c)).
Proof.
  intros Hin Hlen. rewrite ReadFull_enough by (rewrite Hin, length_app; lia).
  rewrite Hin. rewrite <- Hlen at 1 2.
  rewrite take_app_length, drop_app_length. reflexivity.
Qed.

Lemma ReadMessage_zero c hdr rest :
  conn_in c = hdr ++ rest -> length hdr = 4%nat -> Uint32 hdr = 0 ->
  (ReadMessage c).1 = Err "zero-length message".
Proof.
  intros Hin Hlen Hz. unfold ReadMessage.
  rewrite (ReadMessage_header c hdr rest Hin Hlen). cbv zeta. rewrite Hz. reflexivity.
Qed.

Lemma ReadMessage_too_large c hdr rest :
  conn_in c = hdr ++ rest -> length hdr = 4%nat -> Uint32 hdr > maxMessageSize ->
  (ReadMessage c).1 = Err ("message too large: " +:+ pretty (Uint32 hdr) +:+ " bytes").
Proof.
  intros Hin Hlen Hz. unfold ReadMessage.
  rewrite (ReadMessage_header c hdr rest Hin Hlen). cbv zeta.
  assert (0 < maxMessageSize) by (unfold maxMessageSize; lia).
  destruct (Z.eqb_spec (Uint32 hdr) 0); [lia |].
  destruct (Z.gtb_spec (Uint32 hdr) maxMessageSize); [reflexivity | lia].
Qed.

Lemma ReadMessage_payload c hdr rest :
  conn_in c = hdr ++ rest -> length hdr = 4%nat ->
  1 <= Uint32 hdr <= maxMessageSize ->
  Uint32 hdr <= Z.of_nat (length rest) ->
  ReadMessage c =
    (Ok (take (Z.to_nat (Uint32 hdr)) rest),
     mkConn (drop (Z.to_nat (Uint32 hdr)) rest) (conn_closed c) (conn_out c)).
Proof.
  intros Hin Hlen Hz Hrest. unfold ReadMessage.
  rewrite (ReadMessage_header c hdr rest Hin Hlen). cbv zeta.
  destruct (Z.eqb_spec (Uint32 hdr) 0); [lia |].
  destruct (Z.gtb_spec (Uint32 hdr) maxMessageSize); [lia |].
  rewrite ReadFull_enough by (simpl; lia). reflexivity.
Qed.

Lemma ReadMessage_short_header c :
  (length (conn_in c) < 4)%nat -> is_Err (ReadMessage c).1.
Proof.
  intros Hn. unfold ReadMessage.
  pose proof (ReadFull_short 4 c Hn) as H.
  destruct (ReadFull 4 c) as [[? | ?] ?]; simpl in *; [contradiction | exact I].
Qed.

Lemma ReadMessage_short_payload c hdr rest :
  conn_in c = hdr ++ rest -> length hdr = 4%nat ->
  Z.of_nat (length rest) < Uint32 hdr ->
  is_Err (ReadMessage c).1.
Proof.
  intros Hin Hlen Hz. unfold ReadMessage.
  rewrite (ReadMessage_header c hdr rest Hin Hlen). cbv zeta.
  destruct (Z.eqb_spec (Uint32 hdr) 0); [exact I |].
  destruct (Z.gtb_spec (Uint32 hdr) maxMessageSize); [exact I |].
  pose proof (ReadFull_short (Z.to_nat (Uint32 hdr))
                (mkConn rest (conn_closed c) (conn_out c))) as HR.
  simpl in HR. specialize (HR ltac:(lia)).
  destruct (ReadFull _ _) as [[? | ?] ?]; simpl in *; [contradiction | exact I].
Qed.

Lemma ReadMessage_frame data rest closed out :
  1 <= Z.of_nat (length data) <= maxMessageSize ->
  ReadMessage (mkConn (frame data ++ rest) closed out) = (Ok data, mkConn rest closed out).
Proof.
  intros Hlen.
  assert (Hmax : maxMessageSize < 2 ^ 32) by (unfold maxMessageSize; lia).
  remember (PutUint32 (uint32 (Z.of_nat (length data)))) as hdr eqn:Hhdr.
  assert (Hu : Uint32 hdr = Z.of_nat (length data)).
  { subst hdr. unfold uint32. rewrite Z.mod_small by lia. apply Uint32_PutUint32. lia. }
  assert (Hl : length hdr = 4%nat) by (subst hdr; reflexivity).
  rewrite (ReadMessage_payload _ hdr (data ++ rest)); cbn [conn_in conn_closed conn_out].
  - rewrite Hu, Nat2Z.id, take_app_length, drop_app_length. reflexivity.
  - unfold frame. rewrite <- Hhdr, <- app_assoc. reflexivity.
  - exact Hl.
  - lia.
  - rewrite length_app. lia.
Qed.

Lemma WriteMessage_log data c :
  conn_out (WriteMessage data c).2 = conn_out c ++ [frame data].
Proof. reflexivity. Qed.

Lemma writes_of_WriteMessage data c : writes_of (WriteMessage data) c = [frame data].
Proof.
  unfold writes_of. rewrite WriteMessage_log. apply drop_app_length.
Qed.

Lemma writes_of_two_writes data c :
  writes_of (WriteMessage_two_writes data) c =
  PutUint32 (uint32 (Z.of_nat (length data))) :: (if conn_closed c then [] else [data]).
Proof.
  unfold writes_of, WriteMessage_two_writes, conn_Write.
  destruct c as [i [] o]; simpl.
  - apply drop_app_length.
  - rewrite <- app_assoc. apply drop_app_length.
Qed.

Lemma interleaved_Permutation {A} (ws : list (list A)) log :
  interleaved ws log -> log ≡ₚ concat ws.
Proof.
  induction 1 as [ws Hall | ws i x w log Hi _ IH].
  - induction Hall as [| w ws -> _ IH]; [reflexivity | exact IH].
  - rewrite IH. rewrite <- (take_drop_middle ws i (x :: w) Hi) at 2.
    rewrite insert_take_drop by (eapply lookup_lt_Some; eassumption).
    rewrite !concat_app. simpl.
    rewrite (Permutation_middle (concat (take i ws)) _ x). reflexivity.
Qed.

Lemma frame_length data : length (frame data) = (4 + length data)%nat.
Proof. unfold frame. rewrite length_app. reflexivity. Qed.

Lemma concat_writes_of_WriteMessage ds c :
  concat (map (fun d => writes_of (WriteMessage d) c) ds) = map frame ds.
Proof.
  induction ds as [| d ds IH]; [reflexivity |].
  simpl. rewrite IH, writes_of_WriteMessage. reflexivity.
Qed.

(** C3: every call of [WriteMessage] makes exactly one [Write] on the
    connection; what it writes is the four-byte big-endian length of the
    payload followed by the payload.  Hence, however the calls of
    concurrent writers on one connection are ordered, the log of the
    connection is a sequence of whole frames, one per call: frames do not
    interleave. *)
Theorem WriteMessage_single_write :
  (forall data c,
     conn_out (WriteMessage data c).2 =
       conn_out c ++ [PutUint32 (uint32 (Z.of_nat (length data))) ++ data] /\
     length (PutUint32 (uint32 (Z.of_nat (length data)))) = 4%nat /\
     Uint32 (PutUint32 (uint32 (Z.of_nat (length data)))) = Z.of_nat (length data) mod 2 ^ 32) /\
  (forall (ds : list bytes) (c : Conn) (log : list bytes),
     interleaved (map (fun d => writes_of (WriteMessage d) c) ds) log ->
     exists ds', ds' ≡ₚ ds /\ log = map frame ds').
Proof.
  split.
  - intros data c. split; [reflexivity | split; [reflexivity |]].
    apply Uint32_PutUint32. unfold uint32. apply Z.mod_pos_bound. lia.
  - intros ds c log Hrun. apply interleaved_Permutation in Hrun.
    rewrite concat_writes_of_WriteMessage in Hrun.
    apply Permutation_map_inv in Hrun as (ds' & -> & Hp).
    exists ds'. split; [symmetry; exact Hp | reflexivity].
Qed.

Lemma WriteMessage_single_write_witness :
  exists ds', ds' ≡ₚ [bytes_of_string "{}"; bytes_of_string "[1]"] /\
    [frame (bytes_of_string "[1]"); frame (bytes_of_string "{}")] = map frame ds'.
Proof.
  apply (proj2 WriteMessage_single_write _ (reader [])).
  eapply (interleaved_step _ 1%nat); [reflexivity |].
  eapply (interleaved_step _ 0%nat); [reflexivity |].
  apply interleaved_done. repeat constructor.
Defined.

(** The earlier two-call writer does not have the property: two writers
    can run so that the second header lands between the first header and
    its payload, and the reader takes two bytes of that header for the
    first payload. *)
Lemma two_writes_can_interleave :
  let a := bytes_of_string "{}" in
  let b := bytes_of_string "[1]" in
  exists log,
    interleaved [writes_of (WriteMessage_two_writes a) (reader []);
                 writes_of (WriteMessage_two_writes b) (reader [])] log /\
    (ReadMessage (reader (concat log))).1 = Ok ["000"%char; "000"%char].
Proof.
  intros a b.
  exists [PutUint32 2; PutUint32 3; a; b]. split.
  - eapply (interleaved_step _ 0%nat); [reflexivity |].
    eapply (interleaved_step _ 1%nat); [reflexivity |].
    eapply (interleaved_step _ 0%nat); [reflexivity |].
    eapply (interleaved_step _ 1%nat); [reflexivity |].
    apply interleaved_done. repeat constructor.
  - vm_compute. reflexivity.
Qed.

(** C2: a byte string of 1 to 10 * 2^20 bytes written with [WriteMessage]
    and read back with [ReadMessage] from the stream produced is returned
    as it was, and the reader is left at the byte after the frame.
    [ReadMessage] fails when the declared length is 0, when it is above
    10 * 2^20 (exactly 10 * 2^20 is accepted), when the stream ends before
    the declared number of payload bytes, and when it ends before the four
    bytes of the header. *)
Theorem ReadMessage_WriteMessage_roundtrip :
  (forall s rest : bytes,
     1 <= Z.of_nat (length s) <= 10 * 2 ^ 20 ->
     ReadMessage (reader (wire (WriteMessage s (reader [])).2 ++ rest)) =
       (Ok s, reader rest)) /\
  (forall c hdr rest,
     conn_in c = hdr ++ rest -> length hdr = 4%nat ->
     (Uint32 hdr = 0 -> is_Err (ReadMessage c).1) /\
     (Uint32 hdr > 10 * 2 ^ 20 -> is_Err (ReadMessage c).1) /\
     (Uint32 hdr = 10 * 2 ^ 20 -> 10 * 2 ^ 20 <= Z.of_nat (length rest) ->
        (ReadMessage c).1 = Ok (take (Z.to_nat (10 * 2 ^ 20)) rest)) /\
     (Z.of_nat (length rest) < Uint32 hdr -> is_Err (ReadMessage c).1)) /\
  (forall c, (length (conn_in c) < 4)%nat -> is_Err (ReadMessage c).1).
Proof.
  assert (Hmax : maxMessageSize = 10 * 2 ^ 20) by reflexivity.
  split; [| split].
  - intros s rest Hlen. unfold wire. simpl.
    rewrite app_nil_r. apply ReadMessage_frame. rewrite Hmax. exact Hlen.
  - intros c hdr rest Hin Hhdr. repeat split.
    + intros Hz. rewrite (ReadMessage_zero c hdr rest) by assumption. exact I.
    + intros Hz. rewrite (ReadMessage_too_large c hdr rest); [exact I | assumption.. |].
      rewrite Hmax. exact Hz.
    + intros Hz Hrest. rewrite (ReadMessage_payload c hdr rest); try assumption.
      * simpl. rewrite Hz. reflexivity.
      * rewrite Hmax, Hz. lia.
      * rewrite Hz. exact Hrest.
    + intros Hz. apply (ReadMessage_short_payload c hdr rest); assumption.
  - apply ReadMessage_short_header.
Qed.

Lemma ReadMessage_WriteMessage_roundtrip_witness :
  ReadMessage (reader (wire (WriteMessage (bytes_of_string "{}") (reader [])).2 ++ [])) =
    (Ok (bytes_of_string "{}"), reader []) /\
  is_Err (ReadMessage (reader (PutUint32 0 ++ bytes_of_string "{}"))).1 /\
  is_Err (ReadMessage (reader (PutUint32 (10 * 2 ^ 20 + 1) ++ bytes_of_string "{}"))).1 /\
  is_Err (ReadMessage (reader (PutUint32 3 ++ bytes_of_string "{}"))).1 /\
  is_Err (ReadMessage (reader (bytes_of_string "{}"))).1.
Proof.
  destruct ReadMessage_WriteMessage_roundtrip as (Hrt & Hrej & Hshort).
  split; [apply Hrt; simpl; lia |].
  split.
  { destruct (Hrej (reader (PutUint32 0 ++ bytes_of_string "{}")) (PutUint32 0)
                (bytes_of_string "{}") eq_refl eq_refl) as (H0 & _).
    apply H0. reflexivity. }
  split.
  { destruct (Hrej (reader (PutUint32 (10 * 2 ^ 20 + 1) ++ bytes_of_string "{}"))
                (PutUint32 (10 * 2 ^ 20 + 1)) (bytes_of_string "{}") eq_refl eq_refl)
      as (_ & H1 & _).
    apply H1. reflexivity. }
  split.
  { destruct (Hrej (reader (PutUint32 3 ++ bytes_of_string "{}")) (PutUint32 3)
                (bytes_of_string "{}") eq_refl eq_refl) as (_ & _ & _ & H3).
    apply H3. reflexivity. }
  apply Hshort. simpl. lia.
Defined.
End FrameCodec.

(** ** Output streaming *)

Section StreamOutput.
Import Events Native Lines.

Lemma emitted_emit e pt : emitted (emit e pt) = emitted pt ++ [e].
Proof. reflexivity. Qed.

Lemma lookup_process_emit id e pt : lookup_process id (emit e pt) = lookup_process id pt.
Proof. reflexivity. Qed.

Lemma emitted_foldl_emit {A} (f : A -> Event) (l : list A) pt :
  emitted (foldl (fun pt a => emit (f a) pt) pt l) = emitted pt ++ map f l.
Proof.
  revert pt. induction l as [| a l IH]; intros pt; simpl.
  - rewrite app_nil_r. reflexivity.
  - rewrite IH, emitted_emit, <- app_assoc. reflexivity.
Qed.

(** The events one reader adds to the tracker's emissions. *)
Lemma streamOutput_emitted id r stream pt :
  emitted (streamOutput id r stream pt) =
    emitted pt ++
    map (fun text => EvStdout (NewStdoutEvent id (outputLine (snd <$> lookup_process id pt) text)))
      (tokens r) ++
    match scan_err r with
    | Some err => [EvError (NewErrorEvent id (stream +:+ " scanner error: " +:+ err) false)]
    | None => []
    end.
Proof.
  unfold streamOutput. destruct (scan_err r) as [err |].
  - rewrite emitted_emit, emitted_foldl_emit, <- app_assoc. reflexivity.
  - rewrite emitted_foldl_emit, app_nil_r. reflexivity.
Qed.

Lemma HasPrefix_length s p : Bytes.HasPrefix s p = true -> (length p <= length s)%nat.
Proof.
  revert s. induction p as [| a p IH]; intros [| b s] H; simpl in *; try lia; try discriminate.
  apply andb_true_iff in H as [_ H]. apply IH in H. lia.
Qed.

Lemma HasPrefix_app_absent s p x :
  x ∉ p -> Bytes.HasPrefix (s ++ [x]) p = Bytes.HasPrefix s p.
Proof.
  revert s. induction p as [| a p IH]; intros s Hx; [destruct s; reflexivity |].
  apply not_elem_of_cons in Hx as [Hne Hx].
  destruct s as [| b s]; simpl.
  - destruct (Ascii.eqb_spec a x); [congruence | reflexivity].
  - rewrite IH by assumption. reflexivity.
Qed.

(** Appending a byte that does not occur in [old] commutes with the
    replacement of [old]. *)
Lemma replace_from_cons_0 old new c s :
  Bytes.replace_from old new 0 (c :: s) =
    if Bytes.HasPrefix (c :: s) old
    then new ++ Bytes.replace_from old new (length old - 1) s
    else c :: Bytes.replace_from old new 0 s.
Proof. reflexivity. Qed.

Lemma replace_from_cons_S old new k c s :
  Bytes.replace_from old new (S k) (c :: s) = Bytes.replace_from old new k s.
Proof. reflexivity. Qed.

Lemma replace_from_snoc old new x s k :
  old <> [] -> x ∉ old -> (k <= length s)%nat ->
  Bytes.replace_from old new k (s ++ [x]) = Bytes.replace_from old new k s ++ [x].
Proof.
  intros Hne Hx. revert k. induction s as [| c s IH]; intros k Hk.
  - assert (k = 0%nat) as -> by (simpl in Hk; lia).
    destruct old as [| a old]; [congruence |]. simpl.
    apply not_elem_of_cons in Hx as [Hax _].
    destruct (Ascii.eqb_spec a x); [congruence | reflexivity].
  - rewrite <- app_comm_cons. destruct k as [| k].
    + rewrite !replace_from_cons_0, app_comm_cons.
      rewrite HasPrefix_app_absent by assumption.
      destruct (Bytes.HasPrefix (c :: s) old) eqn:Hp.
      * apply HasPrefix_length in Hp. simpl in Hp.
        rewrite IH by lia. rewrite app_assoc. reflexivity.
      * rewrite IH by lia. reflexivity.
    + rewrite !replace_from_cons_S. apply IH. simpl in Hk. lia.
Qed.

Lemma ReplaceAll_snoc s old new x :
  old <> [] -> x ∉ old ->
  Bytes.ReplaceAll (s ++ [x]) old new = Bytes.ReplaceAll s old new ++ [x].
Proof.
  intros Hne Hx. destruct old as [| a old]; [congruence |].
  unfold Bytes.ReplaceAll. apply replace_from_snoc; [congruence | assumption | apply Nat.le_0_l].
Qed.

Lemma bytes_of_string_app s t :
  bytes_of_string (s +:+ t) = bytes_of_string s ++ bytes_of_string t.
Proof. induction s as [| c s IH]; simpl; [reflexivity | rewrite IH; reflexivity]. Qed.

Lemma string_of_bytes_app s t :
  string_of_bytes (s ++ t) = string_of_bytes s +:+ string_of_bytes t.
Proof. induction s as [| c s IH]; simpl; [reflexivity | rewrite IH; reflexivity]. Qed.

Lemma string_of_bytes_of_string s : string_of_bytes (bytes_of_string s) = s.
Proof. apply string_of_list_ascii_of_string. Qed.

Lemma bytes_of_string_of_bytes b : bytes_of_string (string_of_bytes b) = b.
Proof. apply list_ascii_of_string_of_list_ascii. Qed.

(** The data of an event: the line with the newline appended, rewritten
    when reverse mapping is on; when the real prefix holds no newline, that
    is the rewritten line followed by the newline. *)
Lemma outputLine_plain lp text :
  (forall p, lp = Some p -> reverseMap p = false) ->
  outputLine lp text = text +:+ newline.
Proof.
  intros H. unfold outputLine. destruct lp as [p |]; [| reflexivity].
  rewrite (H p eq_refl). reflexivity.
Qed.

Lemma outputLine_mapped p text real vm :
  reverseMap p = true -> realPrefix p = Some real -> vmPrefix p = Some vm ->
  outputLine (Some p) text =
    string_of_bytes (Bytes.ReplaceAll (bytes_of_string (text +:+ newline)) real vm) /\
  (real <> [] -> "010"%char ∉ real ->
   outputLine (Some p) text =
     string_of_bytes (Bytes.ReplaceAll (bytes_of_string text) real vm) +:+ newline).
Proof.
  intros Hr Hreal Hvm. unfold outputLine. rewrite Hr, Hreal, Hvm. simpl.
  split; [reflexivity |]. intros Hne Hnl.
  rewrite bytes_of_string_app. change (bytes_of_string newline) with ["010"%char].
  rewrite ReplaceAll_snoc by assumption.
  rewrite string_of_bytes_app. reflexivity.
Qed.

(** The lines of a text, piece by piece. *)
Lemma lines_no_newline held :
  Forall (fun c => c <> "010"%char) held ->
  lines held = match held with [] => [] | _ => [held] end.
Proof.
  induction held as [| a held IH]; intros Hh; [reflexivity |].
  apply Forall_cons in Hh as [Ha Hh]. simpl.
  destruct (Ascii.eqb_spec a "010"); [contradiction |].
  rewrite (IH Hh). destruct held; reflexivity.
Qed.

Lemma lines_newline held data :
  Forall (fun c => c <> "010"%char) held ->
  lines (held ++ "010"%char :: data) = held :: lines data.
Proof.
  induction held as [| a held IH]; intros Hh; [reflexivity |].
  apply Forall_cons in Hh as [Ha Hh]. simpl.
  destruct (Ascii.eqb_spec a "010"); [contradiction |].
  rewrite (IH Hh). reflexivity.
Qed.

Lemma lines_first held data :
  Forall (fun c => c <> "010"%char) held -> held <> [] ->
  exists more rest, lines (held ++ data) = (held ++ more) :: rest.
Proof.
  induction held as [| a held IH]; intros Hh Hne; [contradiction |].
  apply Forall_cons in Hh as [Ha Hh]. simpl.
  destruct (Ascii.eqb_spec a "010"); [contradiction |].
  destruct held as [| b held].
  - simpl. destruct (lines data) as [| line rest].
    + exists [], []. reflexivity.
    + exists line, rest. reflexivity.
  - destruct (IH Hh ltac:(discriminate)) as (more & rest & ->).
    exists more, rest. reflexivity.
Qed.

(** What the scanner delivers, read off the lines of the text: every line
    when all are short; otherwise the lines before the first long one, and
    [ErrTooLong]. *)
Lemma Scan_lines max err data : forall held,
  Forall (fun c => c <> "010"%char) held -> Z.of_nat (length held) < max ->
  (Forall (fun line => Z.of_nat (length line) < max) (lines (held ++ data)) ->
   Scan max held data err =
     mkScanned (map (fun line => string_of_bytes (dropCR line)) (lines (held ++ data))) err) /\
  (forall before long after,
     lines (held ++ data) = before ++ long :: after ->
     Forall (fun line => Z.of_nat (length line) < max) before ->
     max <= Z.of_nat (length long) ->
     Scan max held data err =
       mkScanned (map (fun line => string_of_bytes (dropCR line)) before)
         (Some "bufio.Scanner: token too long")).
Proof.
  induction data as [| c data IH]; intros held Hh Hlen.
  - rewrite app_nil_r, (lines_no_newline _ Hh). split.
    + intros _. destruct held; reflexivity.
    + intros before long after Heq _ Hlong. exfalso.
      destruct held as [| a held]; [destruct before; discriminate |].
      destruct before as [| b before]; [| destruct before; discriminate].
      simpl in Heq. injection Heq as <- _. lia.
  - cbn [Scan]. destruct (Ascii.eqb_spec c "010") as [-> | Hc].
    + rewrite (lines_newline _ _ Hh).
      destruct (IH [] ltac:(constructor) ltac:(simpl; lia)) as [IH1 IH2]. simpl in IH1, IH2.
      split.
      * intros Hall. apply Forall_cons in Hall as [_ Hall]. rewrite (IH1 Hall). reflexivity.
      * intros before long after Heq Hb Hlong.
        destruct before as [| b before]; simpl in Heq.
        -- injection Heq as <- _. lia.
        -- injection Heq as <- Heq. apply Forall_cons in Hb as [_ Hb].
           rewrite (IH2 _ _ _ Heq Hb Hlong). reflexivity.
    + assert (Hh' : Forall (fun c => c <> "010"%char) (held ++ [c])).
      { apply Forall_app. split; [exact Hh | repeat constructor; exact Hc]. }
      assert (Heq' : held ++ c :: data = (held ++ [c]) ++ data).
      { rewrite <- app_assoc. reflexivity. }
      rewrite Heq'.
      destruct (lines_first (held ++ [c]) data Hh' ltac:(destruct held; discriminate))
        as (more & rest & Hfirst).
      destruct (Z.leb_spec max (Z.of_nat (length held) + 1)) as [Hfull | Hroom].
      * assert (Hbig : max <= Z.of_nat (length ((held ++ [c]) ++ more))).
        { rewrite !length_app. simpl. lia. }
        split.
        -- intros Hall. rewrite Hfirst in Hall. apply Forall_cons in Hall as [Hall _]. lia.
        -- intros before long after Heq Hb _. rewrite Hfirst in Heq.
           destruct before as [| b before]; [reflexivity |].
           simpl in Heq. injection Heq as <- _. apply Forall_cons in Hb as [Hb _]. lia.
      * apply IH; [exact Hh' |]. rewrite length_app. simpl. lia.
Qed.

Lemma dropCR_ends_in_CR line : dropCR (line ++ ["013"%char]) = line.
Proof. unfold dropCR. rewrite reverse_app. simpl. apply reverse_involutive. Qed.

Lemma dropCR_other line : last line <> Some "013"%char -> dropCR line = line.
Proof.
  intros Hlast. unfold dropCR. destruct (reverse line) as [| c rest] eqn:Hr; [reflexivity |].
  destruct (Ascii.eqb_spec c "013") as [-> | Hc]; [| reflexivity].
  exfalso. apply Hlast. apply (f_equal reverse) in Hr.
  rewrite reverse_involutive, reverse_cons in Hr. rewrite Hr. apply last_snoc.
Qed.

(** The events of a reader, read off the lines of its stream. *)
Lemma streamOutput_lines id r stream pt :
  let lp := snd <$> lookup_process id pt in
  let event line :=
    EvStdout (mkStdoutEvent "stdout" id (outputLine lp (string_of_bytes (dropCR line)))) in
  let failure text :=
    EvError (mkErrorEvent "error" id (stream +:+ " scanner error: " +:+ text) false) in
  (Forall short (lines (written r)) ->
   emitted (streamOutput id (scanner r) stream pt) =
     emitted pt ++ map event (lines (written r)) ++
     match read_err r with Some err => [failure err] | None => [] end) /\
  (forall before long after,
     lines (written r) = before ++ long :: after -> Forall short before -> ~ short long ->
     emitted (streamOutput id (scanner r) stream pt) =
       emitted pt ++ map event before ++ [failure "bufio.Scanner: token too long"]).
Proof.
  intros lp event failure.
  destruct (Scan_lines maxTokenSize (read_err r) (written r) [] ltac:(constructor)
              ltac:(reflexivity)) as [H1 H2].
  simpl in H1, H2. unfold short. change (10 * 2 ^ 20) with maxTokenSize. split.
  - intros Hall. rewrite streamOutput_emitted. unfold scanner. rewrite (H1 Hall).
    cbn [tokens scan_err]. rewrite map_map. reflexivity.
  - intros before long after Heq Hb Hlong. rewrite streamOutput_emitted. unfold scanner.
    rewrite (H2 _ _ _ Heq Hb ltac:(lia)).
    cbn [tokens scan_err]. rewrite map_map. reflexivity.
Qed.

(** C4 (amended): for every line a child writes to stdout or to stderr,
    as long as the lines are shorter than the 10 MiB the scanner has room
    for, the reader emits exactly one event, of type stdout, carrying the
    process id and, as data, the line (without a carriage return at its
    end) with a newline appended, rewritten by the reverse path mapping when
    that is on for the process; the events follow the lines in order, a last
    piece without a newline counts as a line, and the only other event is
    the error event for a read that failed.  A line of 10 MiB or more ends
    the reader: the lines before it are reported, then one error event with
    the text "<stream> scanner error: bufio.Scanner: token too long", and
    neither that line nor any line after it is reported.  No event of type
    stderr is emitted.  [stream] is the label of the reader, stdout or
    stderr. *)
Theorem streamOutput_emits_stdout (stream id : string) (r : Reader) (pt : processTracker) :
  let lp := snd <$> lookup_process id pt in
  let pt' := streamOutput id (scanner r) stream pt in
  let event line :=
    EvStdout (mkStdoutEvent "stdout" id (outputLine lp (string_of_bytes (dropCR line)))) in
  let failure text :=
    EvError (mkErrorEvent "error" id (stream +:+ " scanner error: " +:+ text) false) in
  (Forall short (lines (written r)) ->
   emitted pt' =
     emitted pt ++ map event (lines (written r)) ++
     match read_err r with Some err => [failure err] | None => [] end) /\
  (forall before long after,
     lines (written r) = before ++ long :: after -> Forall short before -> ~ short long ->
     emitted pt' = emitted pt ++ map event before ++ [failure "bufio.Scanner: token too long"]) /\
  (forall line, dropCR (line ++ ["013"%char]) = line) /\
  (forall line, last line <> Some "013"%char -> dropCR line = line) /\
  Forall (fun e => event_type e <> "stderr") (drop (length (emitted pt)) (emitted pt')) /\
  (forall d, Pipe.Event_document (EvStdout (mkStdoutEvent "stdout" id d)) =
     Pipe.JObject [("type", Pipe.JString "stdout"); ("id", Pipe.JString id);
                   ("data", Pipe.JString d)]) /\
  (forall text, (forall p, lp = Some p -> reverseMap p = false) ->
     outputLine lp text = text +:+ newline) /\
  (forall text p real vm,
     lp = Some p -> reverseMap p = true -> realPrefix p = Some real -> vmPrefix p = Some vm ->
     outputLine lp text =
       string_of_bytes (Bytes.ReplaceAll (bytes_of_string (text +:+ newline)) real vm) /\
     (real <> [] -> "010"%char ∉ real ->
      outputLine lp text =
        string_of_bytes (Bytes.ReplaceAll (bytes_of_string text) real vm) +:+ newline)).
Proof.
  intros lp pt' event failure.
  destruct (streamOutput_lines id r stream pt) as [H1 H2].
  split; [exact H1 |]. split; [exact H2 |].
  split; [exact dropCR_ends_in_CR |]. split; [exact dropCR_other |]. split.
  - subst pt'. rewrite streamOutput_emitted, drop_app_length. apply Forall_app. split.
    + apply Forall_forall. intros e He. apply list_elem_of_fmap in He as (text & -> & _).
      discriminate.
    + destruct (scan_err (scanner r)); repeat constructor. discriminate.
  - split; [reflexivity |]. split.
    + intros text H. apply outputLine_plain. exact H.
    + intros text p real vm -> Hr Hreal Hvm. apply outputLine_mapped; assumption.
Qed.

Lemma streamOutput_emits_stdout_witness :
  emitted
    (streamOutput "proc-1"
       (scanner (mkReader (bytes_of_string ("cat /data/s/a.txt" +:+ String "013" newline +:+ "done")) None))
       "stderr" Fixtures.one_process) =
    [EvStdout (mkStdoutEvent "stdout" "proc-1" ("cat /sessions/s/a.txt" +:+ newline));
     EvStdout (mkStdoutEvent "stdout" "proc-1" ("done" +:+ newline))].
Proof.
  destruct (streamOutput_emits_stdout "stderr" "proc-1"
              (mkReader (bytes_of_string ("cat /data/s/a.txt" +:+ String "013" newline +:+ "done")) None)
              Fixtures.one_process) as (H & _).
  rewrite H.
  - vm_compute. reflexivity.
  - apply (bool_decide_eq_true_1 _). vm_compute. reflexivity.
Defined.

(** C4 as stated fails for a long line: the child writes a line of 10 MiB
    and then a second line; no stdout event is emitted for either, the
    reader ends with the error event of the scanner. *)
Lemma long_line_not_reported :
  emitted
    (streamOutput "proc-1"
       (scanner
          (mkReader
             (replicate (Z.to_nat (10 * 2 ^ 20)) "a"%char ++
              "010"%char :: bytes_of_string ("next" +:+ newline))
             None))
       "stdout" (newProcessTracker false)) =
    [EvError (mkErrorEvent "error" "proc-1"
                "stdout scanner error: bufio.Scanner: token too long" false)].
Proof.
  assert (Hgen : forall n, Z.of_nat n = 10 * 2 ^ 20 ->
            emitted
              (streamOutput "proc-1"
                 (scanner
                    (mkReader
                       (replicate n "a"%char ++
                        "010"%char :: bytes_of_string ("next" +:+ newline))
                       None))
                 "stdout" (newProcessTracker false)) =
              [EvError (mkErrorEvent "error" "proc-1"
                          "stdout scanner error: bufio.Scanner: token too long" false)]).
  { intros n Hn.
    destruct (streamOutput_lines "proc-1"
                (mkReader
                   (replicate n "a"%char ++ "010"%char :: bytes_of_string ("next" +:+ newline))
                   None)
                "stdout" (newProcessTracker false)) as [_ H].
    apply (H [] (replicate n "a"%char) (lines (bytes_of_string ("next" +:+ newline)))).
    - cbn [written]. apply lines_newline. apply Forall_replicate. discriminate.
    - constructor.
    - unfold short. rewrite length_replicate. lia. }
  apply Hgen. apply Z2Nat.id. discriminate.
Qed.
End StreamOutput.

(** ** Process identity *)

Section Identity.
Import Events Native Run.

Lemma int_succ_small n : - 2 ^ 63 <= n < 2 ^ 63 - 1 -> int_succ n = n + 1.
Proof.
  intros Hn. unfold int_succ. rewrite Z.mod_small by lia. lia.
Qed.

Lemma spawn_nextID id cmd args env cwd vm real mounts os pt :
  nextID (spawn id cmd args env cwd vm real mounts os pt).2 =
    if String.eqb id "" then int_succ (nextID pt) else nextID pt.
Proof.
  unfold spawn.
  destruct (String.eqb id ""), (os_StdinPipe os), (os_StdoutPipe os), (os_StderrPipe os),
    (os_Start os); reflexivity.
Qed.

Lemma spawn_Ok id cmd args env cwd vm real mounts os pt id' pt' :
  spawn id cmd args env cwd vm real mounts os pt = (Ok id', pt') ->
  id' = assigned_id id pt /\
  exists lp,
    lp_id lp = id' /\ cmd_Env lp = childEnv os env cwd /\ done lp = false /\
    os_Start os = Ok (default 0 (cmd_Process lp)) /\ cmd_Process lp <> None /\
    objects pt' = objects pt ++ [lp] /\
    processes pt' = <[id' := length (objects pt)]> (processes pt) /\
    emitted pt' = emitted pt.
Proof.
  unfold spawn, assigned_id.
  destruct (String.eqb id ""), (os_StdinPipe os), (os_StdoutPipe os), (os_StderrPipe os),
    (os_Start os) as [pid | e]; cbv beta iota zeta; intros H; simplify_eq;
    (split; [reflexivity |]); eexists; simpl; repeat split;
    first [reflexivity | discriminate].
Qed.

Lemma spawn_lookup id cmd args env cwd vm real mounts os pt id' pt' :
  spawn id cmd args env cwd vm real mounts os pt = (Ok id', pt') ->
  exists lp, lookup_process id' pt' = Some (length (objects pt), lp) /\ lp_id lp = id'.
Proof.
  intros H. apply spawn_Ok in H as (_ & lp & Hid & _ & _ & _ & _ & Hobj & Hproc & _).
  exists lp. split; [| exact Hid]. unfold lookup_process.
  rewrite Hproc, lookup_insert_eq, Hobj.
  rewrite lookup_app_r by lia. rewrite Nat.sub_diag. reflexivity.
Qed.

Lemma nextID_foldl_emit {A} (f : A -> Event) (l : list A) pt :
  nextID (foldl (fun pt a => emit (f a) pt) pt l) = nextID pt.
Proof. revert pt. induction l as [| a l IH]; intros pt; simpl; [| rewrite IH]; reflexivity. Qed.

Lemma streamOutput_nextID id r stream pt : nextID (streamOutput id r stream pt) = nextID pt.
Proof.
  unfold streamOutput. destruct (scan_err r); simpl; apply nextID_foldl_emit.
Qed.

Lemma reap_nextID id p w pt : nextID (reap id p w pt) = nextID pt.
Proof.
  unfold reap. destruct w as [| code [s |] |]; simpl;
    repeat match goal with |- context [if ?b then _ else _] => destruct b end; reflexivity.
Qed.

Lemma kill_nextID processID signal getpgid pt :
  nextID (kill processID signal getpgid pt).2 = nextID pt.
Proof.
  unfold kill. destruct (lookup_process processID pt) as [[p lp] |]; [| reflexivity].
  destruct (cmd_Process lp) as [pid |]; [| reflexivity].
  destruct (getpgid pid); reflexivity.
Qed.

Lemma writeStdin_nextID processID data race pt :
  nextID (writeStdin processID data race pt).2 = nextID pt.
Proof.
  unfold writeStdin. destruct (lookup_process processID pt) as [[p lp] |]; [| reflexivity].
  destruct (done lp); [reflexivity |]. destruct (select race); reflexivity.
Qed.

(** One step moves the counter by at most one, and a generated id is the
    counter's new value. *)
Lemma exec_nextID s pt r pt' :
  exec s pt = (r, pt') -> - 2 ^ 63 <= nextID pt < 2 ^ 63 - 1 ->
  nextID pt <= nextID pt' <= nextID pt + 1 /\
  (forall id, generated_id s r = Some id ->
     nextID pt' = nextID pt + 1 /\ id = "proc-" +:+ pretty (nextID pt')).
Proof.
  intros He Hn. destruct s as [c | id0 r0 stream | id0 p w | pid sig getpgid | pid data race];
    simpl in He.
  - unfold do_spawn in He.
    destruct (spawn _ _ _ _ _ _ _ _ _ pt) as [r1 pt1] eqn:Hs. injection He as <- <-.
    pose proof (spawn_nextID (call_id c) (call_cmd c) (call_args c) (call_env c) (call_cwd c)
                  (call_vmPrefix c) (call_realPrefix c) (call_mountRemap c) (call_os c) pt) as Hn1.
    rewrite Hs in Hn1. simpl in Hn1.
    destruct (String.eqb (call_id c) "") eqn:Hid.
    + rewrite int_succ_small in Hn1 by lia. split; [lia |].
      intros id Hg. simpl in Hg. destruct r1 as [id1 | e]; [| discriminate].
      rewrite Hid in Hg. injection Hg as ->.
      apply spawn_Ok in Hs as [-> _]. unfold assigned_id. rewrite Hid.
      rewrite int_succ_small by lia. split; [lia |]. rewrite Hn1. reflexivity.
    + split; [lia |]. intros id Hg. simpl in Hg.
      destruct r1; [rewrite Hid in Hg |]; discriminate.
  - injection He as <- <-. rewrite streamOutput_nextID. split; [lia | intros ? [=]].
  - injection He as <- <-. rewrite reap_nextID. split; [lia | intros ? [=]].
  - injection He as <- <-. rewrite kill_nextID. split; [lia | intros ? [=]].
  - injection He as <- <-. rewrite writeStdin_nextID. split; [lia | intros ? [=]].
Qed.

Lemma run_length steps pt rs pt' : run steps pt = (rs, pt') -> length rs = length steps.
Proof.
  revert pt rs pt'. induction steps as [| s steps IH]; intros pt rs pt' H; simpl in H.
  - injection H as <- <-. reflexivity.
  - destruct (exec s pt) as [r pt1]. destruct (run steps pt1) as [rs1 pt2] eqn:Hr.
    injection H as <- <-. simpl. f_equal. eapply IH. exact Hr.
Qed.

(** Over a run the counter only grows, and every generated id carries a
    value the counter took during the run. *)
Lemma run_nextID steps pt rs pt' :
  run steps pt = (rs, pt') ->
  - 2 ^ 63 <= nextID pt -> nextID pt + Z.of_nat (length steps) < 2 ^ 63 ->
  nextID pt <= nextID pt' <= nextID pt + Z.of_nat (length steps) /\
  (forall j s r id, steps !! j = Some s -> rs !! j = Some r -> generated_id s r = Some id ->
     exists n, id = "proc-" +:+ pretty n /\ nextID pt < n <= nextID pt') /\
  (forall i j si ri sj rj idi idj,
     (i < j)%nat -> steps !! i = Some si -> rs !! i = Some ri ->
     steps !! j = Some sj -> rs !! j = Some rj ->
     generated_id si ri = Some idi -> generated_id sj rj = Some idj ->
     exists ni nj, idi = "proc-" +:+ pretty ni /\ idj = "proc-" +:+ pretty nj /\
       nextID pt < ni /\ ni < nj /\ nj <= nextID pt').
Proof.
  revert pt rs pt'. induction steps as [| s steps IH]; intros pt rs pt' H Hlo Hhi; simpl in H.
  - injection H as <- <-. simpl in *. split; [lia |].
    split; [intros j ? ? ? Hj; rewrite lookup_nil in Hj; discriminate |].
    intros i j ? ? ? ? ? ? _ Hi; rewrite lookup_nil in Hi; discriminate.
  - destruct (exec s pt) as [r pt1] eqn:He. destruct (run steps pt1) as [rs1 pt2] eqn:Hr.
    injection H as <- <-. simpl length in Hhi. rewrite Nat2Z.inj_succ in Hhi.
    destruct (exec_nextID s pt r pt1 He ltac:(lia)) as [H1 Hg1].
    destruct (IH pt1 rs1 pt2 Hr ltac:(lia) ltac:(lia)) as (H2 & Hg2 & Hord2).
    simpl length. rewrite Nat2Z.inj_succ. split; [lia |]. split.
    + intros [| j] s0 r0 id Hs Hrj Hgen; simpl in Hs, Hrj.
      * injection Hs as <-. injection Hrj as <-.
        destruct (Hg1 id Hgen) as [Hn ->]. eexists. split; [reflexivity | lia].
      * destruct (Hg2 j s0 r0 id Hs Hrj Hgen) as (n & -> & Hn).
        exists n. split; [reflexivity | lia].
    + intros [| i] [| j] si ri sj rj idi idj Hij Hsi Hri Hsj Hrj Hgi Hgj; try lia;
        simpl in Hsi, Hri, Hsj, Hrj.
      * injection Hsi as <-. injection Hri as <-.
        destruct (Hg1 idi Hgi) as [Hn ->].
        destruct (Hg2 j sj rj idj Hsj Hrj Hgj) as (nj & -> & Hnj).
        exists (nextID pt1), nj. repeat split; lia.
      * destruct (Hord2 i j si ri sj rj idi idj ltac:(lia) Hsi Hri Hsj Hrj Hgi Hgj)
          as (ni & nj & -> & -> & ? & ? & ?).
        exists ni, nj. repeat split; lia.
Qed.

Lemma event_id_streamOutput id r stream pt :
  Forall (fun e => event_id e = id)
    (drop (length (emitted pt)) (emitted (streamOutput id r stream pt))).
Proof.
  rewrite streamOutput_emitted, drop_app_length. apply Forall_app. split.
  - apply Forall_forall. intros e He. apply list_elem_of_fmap in He as (text & -> & _).
    reflexivity.
  - destruct (scan_err r); repeat constructor.
Qed.

Lemma reap_emitted id p w pt :
  exists e, emitted (reap id p w pt) = emitted pt ++ [EvExit e] /\
    ex_Type e = "exit" /\ ex_ProcessID e = id.
Proof.
  unfold reap. destruct w as [| code [s |] |]; simpl;
    try match goal with |- context [if ?b then _ else _] => destruct b end;
    eexists; (split; [reflexivity |]); split; reflexivity.
Qed.

(** C7 (amended): over a run of the tracker that starts from a fresh
    tracker, the ids generated for spawns with an empty requested id are of
    the form proc-N with N positive and strictly increasing, hence distinct;
    a spawn with a non-empty requested id returns that id unchanged,
    registers the process under it, and the events of the process (output,
    scanner errors, exit) carry it in their id field. *)
Theorem spawn_ids :
  (forall steps rs pt' dbg,
     run steps (newProcessTracker dbg) = (rs, pt') ->
     Z.of_nat (length steps) < 2 ^ 63 ->
     forall i j si ri sj rj idi idj,
       (i < j)%nat -> steps !! i = Some si -> rs !! i = Some ri ->
       steps !! j = Some sj -> rs !! j = Some rj ->
       generated_id si ri = Some idi -> generated_id sj rj = Some idj ->
       exists ni nj, idi = "proc-" +:+ pretty ni /\ idj = "proc-" +:+ pretty nj /\
         0 < ni < nj /\ idi <> idj) /\
  (forall c pt id pt',
     call_id c <> "" -> do_spawn c pt = (Ok id, pt') ->
     id = call_id c /\
     (exists lp, lookup_process id pt' = Some (length (objects pt), lp) /\
        lp_id lp = call_id c) /\
     (forall r stream pt1,
        Forall (fun e => event_id e = id)
          (drop (length (emitted pt1)) (emitted (streamOutput id r stream pt1)))) /\
     (forall p w pt1, exists e,
        emitted (reap id p w pt1) = emitted pt1 ++ [EvExit e] /\ ex_ProcessID e = id)).
Proof.
  split.
  - intros steps rs pt' dbg Hrun Hlen i j si ri sj rj idi idj Hij Hsi Hri Hsj Hrj Hgi Hgj.
    destruct (run_nextID steps (newProcessTracker dbg) rs pt' Hrun) as (_ & _ & Hord);
      [simpl; lia | simpl; lia |].
    destruct (Hord i j si ri sj rj idi idj Hij Hsi Hri Hsj Hrj Hgi Hgj)
      as (ni & nj & -> & -> & Hni & Hlt & _).
    simpl in Hni. exists ni, nj. repeat split; try lia.
    intros Heq. apply (inj (String.app "proc-")) in Heq.
    apply (inj pretty) in Heq. lia.
  - intros c pt id pt' Hne Hs. unfold do_spawn in Hs.
    pose proof (spawn_Ok _ _ _ _ _ _ _ _ _ _ _ _ Hs) as [Hid _].
    unfold assigned_id in Hid.
    destruct (String.eqb_spec (call_id c) ""); [contradiction |]. subst id.
    split; [reflexivity |]. split; [| split].
    + apply spawn_lookup in Hs. exact Hs.
    + intros r stream pt1. apply event_id_streamOutput.
    + intros p w pt1. destruct (reap_emitted (call_id c) p w pt1) as (e & He & _ & Hid).
      exists e. split; assumption.
Qed.

Lemma spawn_ids_witness :
  exists ni nj, "proc-1" = "proc-" +:+ pretty ni /\ "proc-2" = "proc-" +:+ pretty nj /\
    0 < ni < nj /\ "proc-1" <> "proc-2".
Proof.
  eapply (proj1 spawn_ids
            [StepSpawn (Fixtures.cat_call "" 100); StepSpawn (Fixtures.cat_call "" 200)]
            _ _ false).
  - vm_compute. reflexivity.
  - simpl. lia.
  - exact (Nat.lt_0_succ 0).
  - reflexivity.
  - reflexivity.
  - reflexivity.
  - reflexivity.
  - vm_compute. reflexivity.
  - vm_compute. reflexivity.
Defined.

(** C7 as stated fails: the tracker does not compare a requested id with
    the ids in use.  Two spawns that both request the id x succeed, the
    two processes (pids 100 and 200) both carry the id x, and the registry
    entry of x is the second one. *)
Lemma spawn_same_id_twice :
  let out := run [StepSpawn (Fixtures.cat_call "x" 100); StepSpawn (Fixtures.cat_call "x" 200)]
               (newProcessTracker false) in
  out.1 = [Some (Ok "x"); Some (Ok "x")] /\
  map lp_id (objects out.2) = ["x"; "x"] /\
  map cmd_Process (objects out.2) = [Some 100; Some 200] /\
  processes out.2 !! "x" = Some 1%nat.
Proof. vm_compute. repeat split. Qed.
End Identity.

(** ** The environment of a child *)

Section Environment.
Import Native.

Lemma stripNested_take_drop n env :
  (n <= length env)%nat ->
  stripNested n env = filter (fun e => stripped e = false) (take n env) ++ drop n env.
Proof.
  revert env. induction n as [| i IH]; intros env Hn; [reflexivity |].
  destruct (lookup_lt_is_Some_2 env i ltac:(lia)) as [e He].
  cbn [stripNested]. rewrite He.
  rewrite (take_S_r env i e He), filter_app.
  destruct (stripped e) eqn:Hs.
  - rewrite IH by (rewrite length_delete by eauto; lia).
    rewrite delete_take_drop, take_app_length', drop_app_length' by (rewrite length_take; lia).
    rewrite filter_cons_False, filter_nil, app_nil_r by (rewrite Hs; discriminate).
    reflexivity.
  - rewrite IH by lia. rewrite (drop_S env e i He).
    rewrite filter_cons_True, filter_nil, <- app_assoc by exact Hs. reflexivity.
Qed.

Lemma stripNested_filter env :
  stripNested (length env) env = filter (fun e => stripped e = false) env.
Proof.
  rewrite stripNested_take_drop by lia.
  rewrite firstn_all, drop_all, app_nil_r. reflexivity.
Qed.

Lemma foldl_snoc_entries (base : list string) (kvs : list (string * string)) :
  foldl (fun acc kv => acc ++ [kv.1 +:+ "=" +:+ kv.2]) base kvs =
    base ++ map (fun kv => kv.1 +:+ "=" +:+ kv.2) kvs.
Proof.
  revert base. induction kvs as [| kv kvs IH]; intros base; simpl.
  - rewrite app_nil_r. reflexivity.
  - rewrite IH, <- app_assoc. reflexivity.
Qed.

Lemma no_equals_cons c s : no_equals (String c s) <-> c <> "="%char /\ no_equals s.
Proof.
  unfold no_equals. simpl. rewrite not_elem_of_cons. intuition congruence.
Qed.

Lemma append_nil_l (t : string) : "" +:+ t = t.
Proof. reflexivity. Qed.

Lemma append_cons a (s t : string) : String a s +:+ t = String a (s +:+ t).
Proof. reflexivity. Qed.

Lemma cut_prefix_cons a p b s :
  cut_prefix (String a p) (String b s) = if Ascii.eqb a b then cut_prefix p s else None.
Proof. reflexivity. Qed.

(** Two names without [=] that are both followed by [=] at the head of one
    entry are the same name. *)
Lemma cut_prefix_name a b va v :
  no_equals a -> no_equals b ->
  cut_prefix (a +:+ "=") (b +:+ "=" +:+ v) = Some va ->
  a = b /\ va = v.
Proof.
  revert b. induction a as [| x a IH]; intros [| y b] Ha Hb H;
    rewrite ?append_nil_l, ?append_cons in H;
    change "=" with (String "="%char "") in H; rewrite ?append_cons, ?append_nil_l in H;
    rewrite cut_prefix_cons in H.
  - rewrite Ascii.eqb_refl in H. injection H as <-. split; reflexivity.
  - apply no_equals_cons in Hb as [Hy _].
    destruct (Ascii.eqb_spec "="%char y); [congruence | discriminate].
  - apply no_equals_cons in Ha as [Hx _].
    destruct (Ascii.eqb_spec x "="%char); [congruence | discriminate].
  - apply no_equals_cons in Ha as [_ Ha]. apply no_equals_cons in Hb as [_ Hb].
    destruct (Ascii.eqb_spec x y) as [-> |]; [| discriminate].
    destruct (IH b Ha Hb H) as [-> ->]. split; reflexivity.
Qed.

Lemma cut_prefix_self a v : cut_prefix (a +:+ "=") (a +:+ "=" +:+ v) = Some v.
Proof.
  induction a as [| x a IH]; [reflexivity |].
  rewrite !append_cons, cut_prefix_cons, Ascii.eqb_refl. exact IH.
Qed.

Lemma cut_prefix_prefix p s v : cut_prefix p s = Some v -> s = p +:+ v.
Proof.
  revert s. induction p as [| a p IH]; intros s H; simpl in H.
  - injection H as ->. reflexivity.
  - destruct s as [| b s]; [discriminate |].
    destruct (Ascii.eqb_spec a b) as [-> |]; [| discriminate].
    rewrite append_cons. f_equal. apply IH. exact H.
Qed.

Lemma prefix_cut_prefix p s : String.prefix p s = true <-> is_Some (cut_prefix p s).
Proof.
  revert s. induction p as [| a p IH]; intros s.
  - destruct s; (split; [intros _; eexists; reflexivity | reflexivity]).
  - destruct s as [| b s]; cbn [String.prefix cut_prefix].
    + split; [discriminate | intros [? [=]]].
    + destruct (ascii_dec a b) as [-> | Hne].
      * rewrite Ascii.eqb_refl. apply IH.
      * destruct (Ascii.eqb_spec a b); [contradiction |].
        split; [discriminate | intros [? [=]]].
Qed.

Lemma append_assoc (a b c : string) : (a +:+ b) +:+ c = a +:+ (b +:+ c).
Proof.
  induction a as [| x a IH]; [reflexivity |]. rewrite !append_cons, IH. reflexivity.
Qed.

(** An entry that defines [name] is stripped exactly when [name] is one of
    the two names. *)
Lemma stripped_defines name e v :
  no_equals name -> cut_prefix (name +:+ "=") e = Some v ->
  stripped e = bool_decide (name = "CLAUDECODE" \/ name = "CLAUDE_CODE_ENTRYPOINT").
Proof.
  intros Hname He. apply cut_prefix_prefix in He. subst e. rewrite append_assoc.
  assert (Hp : forall n, no_equals n ->
            HasPrefix (name +:+ "=" +:+ v) (n +:+ "=") = bool_decide (name = n)).
  { intros n Hn. unfold HasPrefix.
    destruct (String.prefix (n +:+ "=") (name +:+ "=" +:+ v)) eqn:Hpre.
    - apply prefix_cut_prefix in Hpre as [v' Hv'].
      apply cut_prefix_name in Hv' as [-> _]; [| assumption..].
      rewrite bool_decide_eq_true_2; reflexivity.
    - case_bool_decide as Heq; [| reflexivity]. subst n.
      assert (is_Some (cut_prefix (name +:+ "=") (name +:+ "=" +:+ v))) as Hs
        by (rewrite cut_prefix_self; eauto).
      apply prefix_cut_prefix in Hs. congruence. }
  unfold stripped, nestedPrefixes. cbn [existsb].
  change "CLAUDECODE=" with ("CLAUDECODE" +:+ "=").
  change "CLAUDE_CODE_ENTRYPOINT=" with ("CLAUDE_CODE_ENTRYPOINT" +:+ "=").
  rewrite !Hp, orb_false_r.
  - repeat case_bool_decide; try reflexivity; tauto.
  - unfold no_equals. vm_compute. intros Hin.
    repeat (apply elem_of_cons in Hin as [Hin | Hin]; [discriminate |]). inversion Hin.
  - unfold no_equals. vm_compute. intros Hin.
    repeat (apply elem_of_cons in Hin as [Hin | Hin]; [discriminate |]). inversion Hin.
Qed.

Lemma getenv_app l1 l2 name :
  getenv (l1 ++ l2) name =
    match getenv l2 name with Some v => Some v | None => getenv l1 name end.
Proof.
  induction l1 as [| e l1 IH]; simpl.
  - destruct (getenv l2 name); reflexivity.
  - rewrite IH. destruct (getenv l2 name); reflexivity.
Qed.

Lemma getenv_filter_stripped l name :
  no_equals name ->
  getenv (filter (fun e => stripped e = false) l) name =
    if bool_decide (name = "CLAUDECODE" \/ name = "CLAUDE_CODE_ENTRYPOINT")
    then None else getenv l name.
Proof.
  intros Hname. induction l as [| e l IH]; simpl.
  - destruct (bool_decide _); reflexivity.
  - destruct (stripped e) eqn:Hs.
    + rewrite filter_cons_False by (rewrite Hs; discriminate). rewrite IH.
      case_bool_decide as Hn; [reflexivity |].
      destruct (getenv l name); [reflexivity |].
      destruct (cut_prefix (name +:+ "=") e) as [v |] eqn:Hc; [| reflexivity].
      rewrite (stripped_defines name e v Hname Hc) in Hs.
      rewrite bool_decide_eq_false_2 in Hs by exact Hn. discriminate.
    + rewrite filter_cons_True by exact Hs. simpl. rewrite IH.
      case_bool_decide as Hn.
      * destruct (cut_prefix (name +:+ "=") e) as [v |] eqn:Hc; [| reflexivity].
        rewrite (stripped_defines name e v Hname Hc) in Hs.
        rewrite bool_decide_eq_true_2 in Hs by exact Hn. discriminate.
      * reflexivity.
Qed.

(** The entries made from the caller's map define exactly its bindings. *)
Lemma getenv_entries (kvs : list (string * string)) name :
  no_equals name -> NoDup kvs.*1 -> Forall (fun kv => no_equals kv.1) kvs ->
  forall v, getenv (map (fun kv => kv.1 +:+ "=" +:+ kv.2) kvs) name = Some v <->
            (name, v) ∈ kvs.
Proof.
  intros Hname. induction kvs as [| [k w] kvs IH]; intros Hnd Hall v; simpl.
  - split; [discriminate | intros H; inversion H].
  - apply NoDup_cons in Hnd as [Hk Hnd]. apply Forall_cons in Hall as [Hkw Hall].
    simpl in Hk, Hkw. specialize (IH Hnd Hall).
    destruct (getenv (map _ kvs) name) as [v' |].
    + pose proof (proj1 (IH v') eq_refl) as Hg. split.
      * intros [= <-]. apply elem_of_cons. right. exact Hg.
      * intros Hin. apply elem_of_cons in Hin as [[= <- <-] | Hin].
        -- exfalso. apply Hk. apply list_elem_of_fmap. exists (name, v').
           split; [reflexivity | exact Hg].
        -- apply IH in Hin. exact Hin.
    + split.
      * intros Hc. apply cut_prefix_name in Hc as [-> ->]; [| assumption..].
        apply elem_of_cons. left. reflexivity.
      * intros Hin. apply elem_of_cons in Hin as [[= <- <-] | Hin].
        -- apply cut_prefix_self.
        -- apply IH in Hin. discriminate.
Qed.

Lemma getenv_entries_lookup os (env : gmap string string) name :
  no_equals name -> (forall k, k ∈ dom env -> no_equals k) ->
  range_env os env ≡ₚ map_to_list env ->
  getenv (map (fun kv => kv.1 +:+ "=" +:+ kv.2) (range_env os env)) name = env !! name.
Proof.
  intros Hname Hkeys Hperm.
  assert (Hnd : NoDup (range_env os env).*1).
  { rewrite Hperm. apply NoDup_fst_map_to_list. }
  assert (Hall : Forall (fun kv => no_equals kv.1) (range_env os env)).
  { rewrite Hperm. apply Forall_forall. intros [k v] Hin.
    apply elem_of_map_to_list in Hin. apply Hkeys. apply elem_of_dom. eauto. }
  pose proof (getenv_entries (range_env os env) name Hname Hnd Hall) as H.
  destruct (env !! name) as [v |] eqn:Hv.
  - apply H. rewrite Hperm. apply elem_of_map_to_list. exact Hv.
  - destruct (getenv _ name) as [v' |]; [| reflexivity].
    pose proof (proj1 (H v') eq_refl) as Hin. rewrite Hperm in Hin.
    apply elem_of_map_to_list in Hin. congruence.
Qed.

(** The key [dedupEnv] cuts off an entry is the name the entry defines. *)
Lemma index_equals_name name rest :
  no_equals name -> index_equals (name +:+ "=" +:+ rest) = Some (String.length name).
Proof.
  induction name as [| c name IH]; intros Hn; [reflexivity |].
  apply no_equals_cons in Hn as [Hc Hn].
  rewrite append_cons. cbn [index_equals String.length].
  destruct (Ascii.eqb_spec c "="); [contradiction |]. rewrite (IH Hn). reflexivity.
Qed.

Lemma substring_name name rest :
  String.substring 0 (String.length name) (name +:+ rest) = name.
Proof.
  induction name as [| c name IH]; [destruct rest; reflexivity |].
  rewrite append_cons. cbn [String.length String.substring]. rewrite IH. reflexivity.
Qed.

Lemma index_equals_split kv i :
  index_equals kv = Some i ->
  exists rest, kv = String.substring 0 i kv +:+ "=" +:+ rest /\
               no_equals (String.substring 0 i kv).
Proof.
  revert i. induction kv as [| c kv IH]; intros i H; [discriminate |].
  cbn [index_equals] in H. destruct (Ascii.eqb_spec c "=") as [-> | Hc].
  - injection H as <-. exists kv. split; [reflexivity |].
    unfold no_equals. simpl. apply not_elem_of_nil.
  - destruct (index_equals kv) as [j |] eqn:Hj; [| discriminate].
    injection H as <-. destruct (IH j eq_refl) as (rest & Heq & Hno).
    exists rest. cbn [String.substring]. rewrite append_cons. split.
    + f_equal. exact Heq.
    + apply no_equals_cons. split; assumption.
Qed.

Lemma entry_key_defines name kv v :
  name <> "" -> no_equals name ->
  cut_prefix (name +:+ "=") kv = Some v -> entry_key kv = Some name.
Proof.
  intros Hne Hn Hc. apply cut_prefix_prefix in Hc. subst kv. rewrite append_assoc.
  unfold entry_key. rewrite (index_equals_name _ _ Hn).
  destruct name as [| c name]; [contradiction |].
  cbn [String.length]. f_equal. exact (substring_name (String c name) ("=" +:+ v)).
Qed.

Lemma entry_key_name name kv :
  name <> "" -> no_equals name ->
  entry_key kv = Some name -> is_Some (cut_prefix (name +:+ "=") kv).
Proof.
  intros Hne Hn Hk. unfold entry_key in Hk.
  destruct (index_equals kv) as [[| i] |] eqn:Hi; [| | discriminate].
  - exfalso. destruct kv as [| c kv]; [discriminate |].
    cbn [index_equals] in Hi. destruct (Ascii.eqb_spec c "=") as [-> | Hc].
    + destruct (index_equals _) as [j |]; injection Hk as <-; [| contradiction].
      cbn [String.substring] in Hn. apply no_equals_cons in Hn as [Hn _]. contradiction.
    + destruct (index_equals kv); discriminate.
  - injection Hk as <-. destruct (index_equals_split kv (S i) Hi) as (rest & Heq & _).
    revert Heq. generalize (String.substring 0 (S i) kv). intros pre ->.
    rewrite cut_prefix_self. eauto.
Qed.

Lemma getenv_defined l name kv :
  kv ∈ l -> is_Some (cut_prefix (name +:+ "=") kv) -> is_Some (getenv l name).
Proof.
  induction l as [| e l IH]; intros Hin Hc; [inversion Hin |].
  simpl. destruct (getenv l name) as [v |] eqn:Hg; [eauto |].
  apply elem_of_cons in Hin as [<- | Hin]; [exact Hc |].
  specialize (IH Hin Hc). destruct IH; discriminate.
Qed.

Lemma getenv_snoc l e name :
  getenv (l ++ [e]) name =
    match cut_prefix (name +:+ "=") e with Some v => Some v | None => getenv l name end.
Proof. rewrite getenv_app. reflexivity. Qed.

(** [dedupEnv] keeps the value of every name: what it removes is hidden
    by a later entry, or holds a NUL byte. *)
Lemma getenv_dedupEnv l name :
  name <> "" -> no_equals name ->
  getenv (dedupEnv l).1 name = getenv (filter (fun kv => has_NUL kv = false) l) name.
Proof.
  intros Hne Hn. unfold dedupEnv.
  assert (Hinv : forall out saw err, foldr dedup_visit ([], [], None) l = (out, saw, err) ->
            (forall k, k ∈ saw -> exists kv, kv ∈ out /\ entry_key kv = Some k) /\
            getenv (reverse out) name = getenv (filter (fun kv => has_NUL kv = false) l) name).
  { induction l as [| kv l IH]; intros out saw err H.
    - injection H as <- <- <-. split; [intros k Hk; inversion Hk | reflexivity].
    - cbn [foldr] in H.
      destruct (foldr dedup_visit ([], [], None) l) as [[out0 saw0] err0].
      destruct (IH out0 saw0 err0 eq_refl) as [IHs IHg]. unfold dedup_visit in H.
      destruct (has_NUL kv) eqn:Hnul.
      + injection H as <- <- <-.
        rewrite filter_cons_False by (rewrite Hnul; discriminate). split; assumption.
      + rewrite filter_cons_True by exact Hnul. cbn [getenv]. rewrite <- IHg.
        destruct (entry_key kv) as [k |] eqn:Hk.
        * case_bool_decide as Hsaw.
          -- injection H as <- <- <-. split; [exact IHs |].
             destruct (getenv (reverse out0) name) as [v |] eqn:Hg; [reflexivity |].
             destruct (cut_prefix (name +:+ "=") kv) as [v |] eqn:Hc; [| reflexivity].
             exfalso. rewrite (entry_key_defines name kv v Hne Hn Hc) in Hk.
             injection Hk as <-. destruct (IHs name Hsaw) as (kv' & Hin & Hk').
             apply (entry_key_name name kv' Hne Hn) in Hk'.
             assert (Hsome : is_Some (getenv (reverse out0) name)).
             { apply (getenv_defined _ _ kv'); [| exact Hk']. apply elem_of_reverse. exact Hin. }
             rewrite Hg in Hsome. destruct Hsome; discriminate.
          -- injection H as <- <- <-. split.
             ++ intros k' Hk'. apply elem_of_cons in Hk' as [-> | Hk'].
                ** exists kv. split; [apply elem_of_app; right; left | exact Hk].
                ** destruct (IHs k' Hk') as (kv' & Hin & Hkey). exists kv'.
                   split; [apply elem_of_app; left; exact Hin | exact Hkey].
             ++ rewrite reverse_app. reflexivity.
        * destruct (String.eqb_spec kv "") as [-> | Hkv].
          -- injection H as <- <- <-. split; [exact IHs |].
             destruct (getenv (reverse out0) name); [reflexivity |].
             destruct name; reflexivity.
          -- injection H as <- <- <-. split.
             ++ intros k' Hk'. destruct (IHs k' Hk') as (kv' & Hin & Hkey). exists kv'.
                split; [apply elem_of_app; left; exact Hin | exact Hkey].
             ++ rewrite reverse_app. reflexivity. }
  destruct (foldr dedup_visit ([], [], None) l) as [[out saw] err].
  exact (proj2 (Hinv out saw err eq_refl)).
Qed.

Lemma dedupEnv_elem_of l kv : kv ∈ (dedupEnv l).1 -> kv ∈ l.
Proof.
  unfold dedupEnv.
  assert (Hinv : forall out saw err, foldr dedup_visit ([], [], None) l = (out, saw, err) ->
            forall e, e ∈ out -> e ∈ l).
  { induction l as [| x l IH]; intros out saw err H e He.
    - injection H as <- <- <-. inversion He.
    - cbn [foldr] in H.
      destruct (foldr dedup_visit ([], [], None) l) as [[out0 saw0] err0].
      specialize (IH out0 saw0 err0 eq_refl). unfold dedup_visit in H.
      assert (Hcases : e ∈ out0 \/ e = x).
      { destruct (has_NUL x); [injection H as <- <- <-; left; exact He |].
        destruct (entry_key x) as [k |].
        - case_bool_decide; injection H as <- <- <-; [left; exact He |].
          apply elem_of_app in He as [He | He]; [left; exact He |].
          right. apply list_elem_of_singleton in He. exact He.
        - destruct (String.eqb x ""); injection H as <- <- <-; [left; exact He |].
          apply elem_of_app in He as [He | He]; [left; exact He |].
          right. apply list_elem_of_singleton in He. exact He. }
      destruct Hcases as [Hin | ->]; [right; apply IH; exact Hin | left]. }
  destruct (foldr dedup_visit ([], [], None) l) as [[out saw] err]. cbn [fst].
  intros Hin. rewrite elem_of_reverse in Hin. exact (Hinv out saw err eq_refl kv Hin).
Qed.

Lemma has_NUL_append a b : has_NUL (a +:+ b) = has_NUL a || has_NUL b.
Proof.
  unfold has_NUL. induction a as [| c a IH]; [reflexivity |].
  rewrite append_cons. simpl in *. rewrite IH, orb_assoc. reflexivity.
Qed.

(** C9 (amended): the environment of a started child is the environment
    the supervisor hands on, overlaid with the caller's map, the caller's
    value winning, without CLAUDECODE and CLAUDE_CODE_ENTRYPOINT: whatever
    name is looked up, the two names are undefined (also when the caller's
    map supplies them, also when that map is empty), a name the caller's
    entries define has the caller's value, and any other name has the value
    the supervisor hands on.  For a caller's map without entries that is
    the supervisor's own environment.  For a caller's map with entries it
    is what [c.Environ()] holds: the supervisor's own environment, and
    behind it, when a working directory is given, [PWD] set to that
    directory; so the child's [PWD] is the working directory, not the
    supervisor's, unless the caller's map sets it.  The caller's entries
    define the bindings of the map when its keys hold no [=] sign.  An
    environment is read as [os/exec] reads one: the last entry of a name
    counts; [range] visits every entry of the map once. *)
Theorem childEnv_overlay id cmd args (env : gmap string string) cwd vm real mounts os pt
    id' pt' (name : string) :
  spawn id cmd args env cwd vm real mounts os pt = (Ok id', pt') ->
  name <> "" -> no_equals name ->
  range_env os env ≡ₚ map_to_list env ->
  let given := getenv (map (fun kv => kv.1 +:+ "=" +:+ kv.2) (range_env os env)) name in
  let PWD :=
    if String.eqb cwd "" then []
    else match fp_Abs os cwd with Some dir => ["PWD=" +:+ dir] | None => [] end in
  let inherited :=
    if bool_decide (env = ∅) then getenv (os_Environ os) name
    else getenv (filter (fun kv => has_NUL kv = false) (os_Environ os ++ PWD)) name in
  exists lp,
    lookup_process id' pt' = Some (length (objects pt), lp) /\
    cmd_Env lp = childEnv os env cwd /\
    getenv (cmd_Env lp) name =
      (if bool_decide (name = "CLAUDECODE" \/ name = "CLAUDE_CODE_ENTRYPOINT") then None
       else match given with
            | Some v => Some v
            | None => inherited
            end) /\
    ((forall k, k ∈ dom env -> no_equals k) -> given = env !! name) /\
    (forall dir,
       env <> ∅ -> cwd <> "" -> fp_Abs os cwd = Some dir -> has_NUL dir = false ->
       name = "PWD" -> inherited = Some dir) /\
    (Forall (fun kv => has_NUL kv = false) (os_Environ os) ->
     env = ∅ \/ cwd = "" \/ fp_Abs os cwd = None \/ name <> "PWD" ->
     inherited = getenv (os_Environ os) name) /\
    (forall e, e ∈ cmd_Env lp ->
       stripped e = false /\
       (e ∈ os_Environ os \/ (env <> ∅ /\ e ∈ PWD) \/
        e ∈ map (fun kv => kv.1 +:+ "=" +:+ kv.2) (range_env os env))).
Proof.
  intros Hs Hne Hname Hperm given PWD inherited.
  destruct (spawn_lookup _ _ _ _ _ _ _ _ _ _ _ _ Hs) as (lp & Hl & _).
  destruct (spawn_Ok _ _ _ _ _ _ _ _ _ _ _ _ Hs) as (_ & lp' & _ & Henv & _ & _ & _ & Hobj & Hp & _).
  assert (lp = lp') as <-.
  { unfold lookup_process in Hl. rewrite Hp, lookup_insert_eq, Hobj in Hl.
    rewrite lookup_app_r in Hl by lia. rewrite Nat.sub_diag in Hl. simpl in Hl. congruence. }
  exists lp. split; [exact Hl |]. split; [exact Henv |].
  split; [| split; [| split; [| split]]].
  - rewrite Henv. unfold childEnv.
    rewrite stripNested_filter, getenv_filter_stripped by exact Hname.
    case_bool_decide as Hn; [reflexivity |].
    destruct (Nat.ltb_spec 0 (size env)) as [Hsz | Hsz].
    + rewrite foldl_snoc_entries, getenv_app. fold given.
      destruct given as [v |]; [reflexivity |].
      subst inherited. rewrite bool_decide_eq_false_2.
      * unfold Environ. rewrite getenv_dedupEnv by assumption. subst PWD.
        destruct (String.eqb cwd ""); cbn [negb]; [rewrite app_nil_r; reflexivity |].
        destruct (fp_Abs os cwd); [reflexivity | rewrite app_nil_r; reflexivity].
      * intros ->. rewrite map_size_empty in Hsz. lia.
    + assert (env = ∅) as Hempty by (apply map_size_empty_iff; lia).
      subst inherited. rewrite bool_decide_eq_true_2 by exact Hempty.
      assert (Hgiven : given = None).
      { subst given. rewrite Hempty, map_to_list_empty in Hperm.
        apply Permutation_nil_r in Hperm. rewrite Hempty, Hperm. reflexivity. }
      rewrite Hgiven. reflexivity.
  - intros Hkeys. apply getenv_entries_lookup; assumption.
  - intros dir Henv' Hcwd Habs Hnul ->. subst inherited PWD.
    rewrite bool_decide_eq_false_2 by exact Henv'.
    destruct (String.eqb_spec cwd ""); [contradiction |]. rewrite Habs.
    rewrite filter_app, getenv_app.
    rewrite filter_cons_True by (rewrite has_NUL_append, Hnul; reflexivity).
    rewrite filter_nil. cbn [getenv]. change "PWD=" with ("PWD" +:+ "=").
    rewrite append_assoc, cut_prefix_self. reflexivity.
  - intros Hclean Hcase. subst inherited PWD.
    case_bool_decide as Hempty; [reflexivity |].
    assert (Hf : forall l, Forall (fun kv => has_NUL kv = false) l ->
              filter (fun kv => has_NUL kv = false) l = l).
    { intros l Hl'. induction Hl' as [| x l Hx _ IH]; [reflexivity |].
      rewrite filter_cons_True by exact Hx. rewrite IH. reflexivity. }
    destruct Hcase as [-> | [-> | [Habs | Hpwd]]]; [contradiction | | |].
    + simpl. rewrite app_nil_r, (Hf _ Hclean). reflexivity.
    + rewrite Habs. destruct (String.eqb cwd ""); rewrite app_nil_r, (Hf _ Hclean);
        reflexivity.
    + rewrite filter_app, getenv_app, (Hf _ Hclean).
      destruct (String.eqb cwd ""); [reflexivity |].
      destruct (fp_Abs os cwd) as [dir |]; [| reflexivity].
      destruct (has_NUL ("PWD=" +:+ dir)) eqn:Hnul.
      * rewrite filter_cons_False by (rewrite Hnul; discriminate). reflexivity.
      * rewrite filter_cons_True by exact Hnul. rewrite filter_nil. cbn [getenv].
        destruct (cut_prefix (name +:+ "=") ("PWD=" +:+ dir)) as [v |] eqn:Hc; [| reflexivity].
        exfalso. change "PWD=" with ("PWD" +:+ "=") in Hc. rewrite append_assoc in Hc.
        apply cut_prefix_name in Hc as [-> _]; [contradiction | exact Hname |].
        apply (bool_decide_eq_true_1 _). vm_compute. reflexivity.
  - intros e He. rewrite Henv in He. unfold childEnv in He.
    rewrite stripNested_filter in He. apply list_elem_of_filter in He as [Hstr He].
    split; [exact Hstr |].
    destruct (Nat.ltb_spec 0 (size env)) as [Hsz | Hsz]; [| left; exact He].
    rewrite foldl_snoc_entries in He. apply elem_of_app in He as [He | He]; [| auto].
    unfold Environ in He. apply dedupEnv_elem_of in He. subst PWD.
    assert (Hne' : env <> ∅) by (intros ->; rewrite map_size_empty in Hsz; lia).
    destruct (String.eqb cwd ""); cbn [negb] in He; [left; exact He |].
    destruct (fp_Abs os cwd); [| left; exact He].
    apply elem_of_app in He as [He | He]; [left; exact He | right; left; split; assumption].
Qed.

Lemma childEnv_overlay_witness :
  exists lp,
    lookup_process "p"
      (spawn "p" "/bin/cat" [] Fixtures.caller_env "/work" "" "" [] (Fixtures.os_ok 100)
         (newProcessTracker false)).2 = Some (0%nat, lp) /\
    cmd_Env lp = ["PATH=/usr/bin"; "HOME=/home/u"; "PWD=/work"; "FOO=bar"] /\
    getenv (cmd_Env lp) "CLAUDECODE" = None.
Proof.
  destruct (childEnv_overlay "p" "/bin/cat" [] Fixtures.caller_env "/work" "" "" []
              (Fixtures.os_ok 100) (newProcessTracker false) "p"
              (spawn "p" "/bin/cat" [] Fixtures.caller_env "/work" "" "" [] (Fixtures.os_ok 100)
                 (newProcessTracker false)).2 "CLAUDECODE")
    as (lp & Hl & Henv & Hget & _).
  - vm_compute. reflexivity.
  - discriminate.
  - apply (bool_decide_eq_true_1 _). vm_compute. reflexivity.
  - reflexivity.
  - exists lp. split; [exact Hl |]. split; [| exact Hget].
    rewrite Henv. vm_compute. reflexivity.
Defined.

(** C9 as stated fails for the variable PWD: the supervisor runs in /srv,
    the caller's map sets FOO alone and the working directory is /work; the
    child's PWD is /work, which is neither the supervisor's value nor a
    value of the caller's map. *)
Lemma child_PWD_is_the_working_directory :
  getenv (os_Environ (Fixtures.os_in_srv 100)) "PWD" = Some "/srv" /\
  (<["FOO" := "bar"]> ∅ : gmap string string) !! "PWD" = None /\
  exists lp,
    lookup_process "p"
      (spawn "p" "/bin/cat" [] (<["FOO" := "bar"]> ∅) "/work" "" "" [] (Fixtures.os_in_srv 100)
         (newProcessTracker false)).2 = Some (0%nat, lp) /\
    cmd_Env lp = ["PATH=/usr/bin"; "PWD=/work"; "FOO=bar"] /\
    getenv (cmd_Env lp) "PWD" = Some "/work".
Proof.
  split; [reflexivity |]. split; [reflexivity |].
  eexists. split; [vm_compute; reflexivity |]. split; vm_compute; reflexivity.
Qed.
End Environment.

(** ** Skill prefix stripping *)

Section SkillPrefix.
Import Native.

Lemma HasPrefix_app s t : Bytes.HasPrefix (s ++ t) s = true.
Proof. induction s as [| c s IH]; simpl; [reflexivity |]. rewrite Ascii.eqb_refl. exact IH. Qed.

Lemma HasPrefix_spec s p : Bytes.HasPrefix s p = true <-> exists t, s = p ++ t.
Proof.
  revert s. induction p as [| a p IH]; intros s; simpl.
  - split; [intros _; exists s; reflexivity | reflexivity].
  - destruct s as [| b s]; [split; [discriminate | intros [t [=]]] |].
    rewrite andb_true_iff, IH. split.
    + intros [Hab [t ->]]. apply Ascii.eqb_eq in Hab as ->. exists t. reflexivity.
    + intros [t [= -> ->]]. split; [apply Ascii.eqb_refl | exists t; reflexivity].
Qed.

(** A pattern that begins with literal bytes matches where these bytes are,
    followed by a match of the rest. *)
Lemma match_here_literals l re s :
  Regexp.match_here (map Regexp.Lit l ++ re) s =
    if Bytes.HasPrefix s l
    then (fun n => (length l + n)%nat) <$> Regexp.match_here re (drop (length l) s)
    else None.
Proof.
  revert s. induction l as [| a l IH]; intros s.
  - simpl. rewrite drop_0. destruct (Regexp.match_here re s); reflexivity.
  - destruct s as [| b s]; [reflexivity |].
    cbn [map app Regexp.match_here Bytes.HasPrefix length drop].
    rewrite Ascii.eqb_sym. destruct (Ascii.eqb a b); [| reflexivity].
    rewrite IH. simpl. destruct (Bytes.HasPrefix s l); [| reflexivity].
    destruct (Regexp.match_here re (drop (length l) s)); reflexivity.
Qed.

Lemma run_then_nil cls c : Regexp.match_here (run_then cls c) [] = None.
Proof. reflexivity. Qed.

Lemma run_then_cons cls c x s :
  Regexp.match_here (run_then cls c) (x :: s) =
    if cls x
    then match Regexp.match_here (run_then cls c) s with
         | Some n => Some (S n)
         | None => S <$> Regexp.match_here [Regexp.Lit c] s
         end
    else None.
Proof. reflexivity. Qed.

Lemma run_then_match cls c name rest :
  cls c = false -> name <> [] -> Forall (fun x => cls x = true) name ->
  Regexp.match_here (run_then cls c) (name ++ c :: rest) = Some (length name + 1)%nat.
Proof.
  intros Hc Hne Hall. induction Hall as [| x name Hx Hall IH]; [congruence |].
  rewrite <- app_comm_cons, run_then_cons, Hx.
  destruct name as [| y name].
  - simpl app. rewrite run_then_cons, Hc. simpl. rewrite Ascii.eqb_refl. reflexivity.
  - rewrite IH by discriminate. simpl. reflexivity.
Qed.

(** Such a match does not look beyond a byte that is neither in the class
    nor [c]. *)
Lemma run_then_local cls c u q rest :
  cls q = false -> q <> c ->
  Regexp.match_here (run_then cls c) (u ++ q :: rest) =
  Regexp.match_here (run_then cls c) u.
Proof.
  intros Hq Hqc. induction u as [| x u IH].
  - simpl app. rewrite run_then_cons, Hq. reflexivity.
  - rewrite <- app_comm_cons, !run_then_cons, IH.
    destruct (cls x); [| reflexivity].
    destruct (Regexp.match_here (run_then cls c) u); [reflexivity |].
    destruct u as [| y u]; simpl; [| reflexivity].
    destruct (Ascii.eqb_spec q c); [contradiction | reflexivity].
Qed.

Lemma match_here_le re s n : Regexp.match_here re s = Some n -> (n <= length s)%nat.
Proof.
  revert s n. induction re as [| [c | cls] re IH]; intros s n H.
  - injection H as <-. lia.
  - destruct s as [| x s]; [discriminate |]. cbn [Regexp.match_here] in H.
    destruct (Ascii.eqb x c); [| discriminate].
    destruct (Regexp.match_here re s) as [m |] eqn:Hm; [| discriminate].
    injection H as <-. apply IH in Hm. simpl. lia.
  - revert n H. induction s as [| x s IHs]; intros n H; [discriminate |].
    cbn [Regexp.match_here] in H. destruct (cls x); [| discriminate].
    match type of H with
    | match ?f s with _ => _ end = _ => destruct (f s) as [m |] eqn:Hm
    end.
    + injection H as <-. specialize (IHs m Hm). simpl. lia.
    + destruct (Regexp.match_here re s) as [m |] eqn:Hm'; [| discriminate].
      injection H as <-. apply IH in Hm'. simpl. lia.
Qed.

Lemma skillPrefixRe_eq :
  skillPrefixRe = map Regexp.Lit skillMarker ++ run_then skillNameByte ":".
Proof. reflexivity. Qed.

Lemma match_here_skill s :
  Regexp.match_here skillPrefixRe s =
    if Bytes.HasPrefix s skillMarker
    then (fun n => (length skillMarker + n)%nat) <$>
           Regexp.match_here (run_then skillNameByte ":") (drop (length skillMarker) s)
    else None.
Proof. rewrite skillPrefixRe_eq. apply match_here_literals. Qed.

Lemma match_here_occurrence name rest :
  name <> [] -> Forall (fun x => skillNameByte x = true) name ->
  Regexp.match_here skillPrefixRe (occurrence name ++ rest) = Some (length (occurrence name)).
Proof.
  intros Hne Hall. rewrite match_here_skill. unfold occurrence.
  rewrite <- !app_assoc, HasPrefix_app, drop_app_length.
  change ([":"%char] ++ rest) with (":"%char :: rest).
  rewrite run_then_match by (assumption || reflexivity).
  rewrite !length_app. simpl. f_equal; lia.
Qed.

Lemma replace_matches_cons_0 re repl c s :
  Regexp.replace_matches re repl 0 (c :: s) =
    match Regexp.match_here re (c :: s) with
    | Some (S n) => repl ++ Regexp.replace_matches re repl n s
    | _ => c :: Regexp.replace_matches re repl 0 s
    end.
Proof. reflexivity. Qed.

Lemma replace_matches_cons_S re repl k c s :
  Regexp.replace_matches re repl (S k) (c :: s) = Regexp.replace_matches re repl k s.
Proof. reflexivity. Qed.

Lemma replace_matches_skip re repl k s :
  (k <= length s)%nat ->
  Regexp.replace_matches re repl k s = Regexp.replace_matches re repl 0 (drop k s).
Proof.
  revert k. induction s as [| c s IH]; intros [| k] Hk; try reflexivity. simpl in Hk.
  rewrite replace_matches_cons_S. simpl drop. apply IH. lia.
Qed.

(** A match at the head of the text is replaced and the scan resumes after it. *)
Lemma ReplaceAll_match re repl s n :
  Regexp.match_here re s = Some (S n) ->
  Regexp.ReplaceAll re s repl = repl ++ Regexp.ReplaceAll re (drop (S n) s) repl.
Proof.
  intros Hm. unfold Regexp.ReplaceAll. pose proof (match_here_le _ _ _ Hm) as Hle.
  destruct s as [| c s]; [simpl in Hle; lia |].
  rewrite replace_matches_cons_0, Hm. simpl in Hle.
  rewrite replace_matches_skip by lia. reflexivity.
Qed.

(** Without a match at the head, the first byte is copied. *)
Lemma ReplaceAll_no_match re repl c s :
  Regexp.match_here re (c :: s) = None ->
  Regexp.ReplaceAll re (c :: s) repl = c :: Regexp.ReplaceAll re s repl.
Proof.
  intros Hm. unfold Regexp.ReplaceAll. rewrite replace_matches_cons_0, Hm. reflexivity.
Qed.

Lemma ReplaceAll_unmatched re repl s :
  Regexp.Match re s = false -> Regexp.ReplaceAll re s repl = s.
Proof.
  induction s as [| c s IH]; intros Hm; [reflexivity |].
  cbn [Regexp.Match] in Hm.
  destruct (Regexp.match_here re (c :: s)) eqn:Hh; [discriminate |].
  rewrite ReplaceAll_no_match by exact Hh. rewrite IH by exact Hm. reflexivity.
Qed.

Lemma Match_Contains s :
  Regexp.Match skillPrefixRe s = true -> Bytes.Contains s skillMarker = true.
Proof.
  induction s as [| c s IH]; cbn [Regexp.Match Bytes.Contains]; rewrite match_here_skill.
  - destruct (Bytes.HasPrefix [] skillMarker); [reflexivity | discriminate].
  - destruct (Bytes.HasPrefix (c :: s) skillMarker); [reflexivity |].
    intros H. rewrite IH by exact H. reflexivity.
Qed.

(** The two tests at the head of the stripping step do not change its
    result: it is the replacement of all matches. *)
Lemma stripSkillPrefix_ReplaceAll data :
  stripSkillPrefix data = Regexp.ReplaceAll skillPrefixRe data skillMarker.
Proof.
  unfold stripSkillPrefix.
  destruct (Regexp.Match skillPrefixRe data) eqn:Hm.
  - rewrite (Match_Contains _ Hm). reflexivity.
  - rewrite ReplaceAll_unmatched by exact Hm. destruct (Bytes.Contains _ _); reflexivity.
Qed.

Lemma stripSkillPrefix_occurrence name rest :
  name <> [] -> Forall (fun x => skillNameByte x = true) name ->
  stripSkillPrefix (occurrence name ++ rest) = skillMarker ++ stripSkillPrefix rest.
Proof.
  intros Hne Hall. rewrite !stripSkillPrefix_ReplaceAll.
  pose proof (match_here_occurrence name rest Hne Hall) as Hm.
  assert (Hlen : exists n, length (occurrence name) = S n).
  { unfold occurrence. rewrite length_app. simpl. eexists. reflexivity. }
  destruct Hlen as [n Hn]. rewrite Hn in Hm.
  rewrite (ReplaceAll_match _ _ _ n Hm), <- Hn, drop_app_length. reflexivity.
Qed.

Lemma HasPrefix_app_long s x p :
  (length p <= length s)%nat -> Bytes.HasPrefix (s ++ x) p = Bytes.HasPrefix s p.
Proof.
  revert s. induction p as [| a p IH]; intros s Hlen; [reflexivity |].
  destruct s as [| b s]; simpl in Hlen; [lia |].
  simpl. rewrite IH by lia. reflexivity.
Qed.

(** The marker does not overlap itself: no proper, non-empty shift of the
    marker starts with the head of the marker. *)
Lemma marker_border t rest :
  (0 < length t < length skillMarker)%nat ->
  Bytes.HasPrefix (t ++ skillMarker ++ rest) skillMarker = false.
Proof.
  intros Hlen.
  destruct (Bytes.HasPrefix (t ++ skillMarker ++ rest) skillMarker) eqn:Hp; [| reflexivity].
  exfalso. apply HasPrefix_spec in Hp as [z Hz].
  change (length skillMarker) with 12%nat in Hlen.
  do 12 (destruct t as [| ? t];
         [simpl in Hlen; try lia; vm_compute in Hz; simplify_eq |]).
  simpl in Hlen. lia.
Qed.

(** Whether the pattern matches at a position before an occurrence, and how
    far, does not depend on the occurrence and on what follows it. *)
Lemma match_here_before_marker t rest :
  t <> [] ->
  Regexp.match_here skillPrefixRe (t ++ skillMarker ++ rest) =
  Regexp.match_here skillPrefixRe t.
Proof.
  intros Hne. rewrite !match_here_skill.
  destruct (Nat.le_gt_cases (length skillMarker) (length t)) as [Hlong | Hshort].
  - rewrite HasPrefix_app_long by exact Hlong.
    destruct (Bytes.HasPrefix t skillMarker); [| reflexivity].
    rewrite drop_app_le by exact Hlong.
    change (skillMarker ++ rest) with ("034"%char :: tl skillMarker ++ rest).
    rewrite run_then_local by (reflexivity || discriminate). reflexivity.
  - rewrite marker_border
      by (split; [destruct t; [congruence | simpl; lia] | exact Hshort]).
    destruct (Bytes.HasPrefix t skillMarker) eqn:Hp; [| reflexivity].
    apply HasPrefix_length in Hp. lia.
Qed.

Lemma replace_matches_before_marker repl pre rest k :
  (k <= length pre)%nat ->
  Regexp.replace_matches skillPrefixRe repl k (pre ++ skillMarker ++ rest) =
  Regexp.replace_matches skillPrefixRe repl k pre ++
  Regexp.replace_matches skillPrefixRe repl 0 (skillMarker ++ rest).
Proof.
  revert k. induction pre as [| c pre IH]; intros k Hk.
  - simpl in Hk. assert (k = 0%nat) as -> by lia.
    rewrite app_nil_l. change (Regexp.replace_matches skillPrefixRe repl 0 []) with (@nil ascii).
    rewrite app_nil_l. reflexivity.
  - rewrite <- app_comm_cons. destruct k as [| k].
    + rewrite !replace_matches_cons_0, app_comm_cons.
      rewrite match_here_before_marker by discriminate.
      destruct (Regexp.match_here skillPrefixRe (c :: pre)) as [[| n] |] eqn:Hm.
      * rewrite IH by lia. reflexivity.
      * apply match_here_le in Hm. simpl in Hm.
        rewrite IH by lia. rewrite app_assoc. reflexivity.
      * rewrite IH by lia. reflexivity.
    + rewrite !replace_matches_cons_S. apply IH. simpl in Hk. lia.
Qed.

(** Every occurrence is replaced: wherever an occurrence stands in the
    payload, the result has the marker in its place, between the results
    for the text before it and for the text after it. *)
Lemma stripSkillPrefix_split pre name post :
  name <> [] -> Forall (fun x => skillNameByte x = true) name ->
  stripSkillPrefix (pre ++ occurrence name ++ post) =
    stripSkillPrefix pre ++ skillMarker ++ stripSkillPrefix post.
Proof.
  intros Hne Hall.
  rewrite <- (stripSkillPrefix_occurrence name post Hne Hall).
  rewrite !stripSkillPrefix_ReplaceAll. unfold Regexp.ReplaceAll, occurrence.
  rewrite <- !app_assoc. apply replace_matches_before_marker. lia.
Qed.

Lemma lookup_process_objects id pt p lp :
  lookup_process id pt = Some (p, lp) -> objects pt !! p = Some lp.
Proof.
  unfold lookup_process. destruct (processes pt !! id) as [q |]; [| discriminate].
  destruct (objects pt !! q) as [lq |] eqn:Hq; [| discriminate].
  intros [= <- <-]. exact Hq.
Qed.

Lemma writeStdin_write processID data race pt p lp :
  lookup_process processID pt = Some (p, lp) -> done lp = false -> select race = CaseWrite ->
  let err := match write_returns race with Some (_, err) => err | None => None end in
  (writeStdin processID data race pt).1 = err /\
  exists lp',
    objects (writeStdin processID data race pt).2 !! p = Some lp' /\
    stdin_ops lp' =
      stdin_ops lp ++ [MuLock; StdinWrite (stripSkillPrefix (remapPaths lp data)) err; MuUnlock].
Proof.
  intros Hl Hd Hs err. unfold writeStdin. rewrite Hl, Hd, Hs. fold err.
  split; [reflexivity |]. apply lookup_process_objects in Hl.
  eexists. split.
  - simpl. rewrite list_lookup_alter_eq, Hl. reflexivity.
  - reflexivity.
Qed.

(** C8: a payload without the marker passes the stripping step unchanged;
    in a payload with occurrences of the pattern (the marker, one or more
    bytes of [A-Za-z0-9_-], a colon) every occurrence is replaced by the
    marker: wherever an occurrence stands, the result has the marker in its
    place, between the results for the text before and the text after it;
    and the bytes handed to the child's stdin are the payload after this
    step (and after path remapping).  The payload with /foo-bar:baz as
    content reaches the child with /baz as content. *)
Theorem stripSkillPrefix_replaces_every_occurrence :
  (forall data, Bytes.Contains data skillMarker = false -> stripSkillPrefix data = data) /\
  (forall pre name post,
     name <> [] -> Forall (fun x => skillNameByte x = true) name ->
     stripSkillPrefix (pre ++ occurrence name ++ post) =
       stripSkillPrefix pre ++ skillMarker ++ stripSkillPrefix post) /\
  (forall processID data race pt p lp,
     lookup_process processID pt = Some (p, lp) -> done lp = false ->
     select race = CaseWrite ->
     exists err lp',
       objects (writeStdin processID data race pt).2 !! p = Some lp' /\
       stdin_ops lp' =
         stdin_ops lp ++
         [MuLock; StdinWrite (stripSkillPrefix (remapPaths lp data)) err; MuUnlock]) /\
  stripSkillPrefix (Backends.json_text "{'content':'/foo-bar:baz qux'}") =
    Backends.json_text "{'content':'/baz qux'}".
Proof.
  split; [| split; [| split]].
  - intros data Hc. unfold stripSkillPrefix. rewrite Hc. reflexivity.
  - apply stripSkillPrefix_split.
  - intros processID data race pt p lp Hl Hd Hs.
    destruct (writeStdin_write processID data race pt p lp Hl Hd Hs) as (_ & lp' & H1 & H2).
    eexists _, lp'. split; [exact H1 | exact H2].
  - vm_compute. reflexivity.
Qed.

Lemma stripSkillPrefix_replaces_every_occurrence_witness :
  stripSkillPrefix (Backends.json_text "{'type':'user','content':'/document-skills:pdf x'}") =
    Backends.json_text "{'type':'user'," ++ skillMarker ++ Backends.json_text "pdf x'}" /\
  stripSkillPrefix (Backends.json_text "{'content':'hello'}") =
    Backends.json_text "{'content':'hello'}".
Proof.
  destruct stripSkillPrefix_replaces_every_occurrence as (Hnone & Hocc & _ & _).
  split.
  - rewrite <- (Hnone (Backends.json_text "{'type':'user',") eq_refl).
    rewrite <- (Hnone (Backends.json_text "pdf x'}") eq_refl).
    refine (eq_trans _ (Hocc (Backends.json_text "{'type':'user',")
                          (bytes_of_string "document-skills")
                          (Backends.json_text "pdf x'}") _ _)).
    + vm_compute. reflexivity.
    + discriminate.
    + repeat constructor.
  - apply Hnone. reflexivity.
Defined.
End SkillPrefix.

(** ** Writing to a child's stdin *)

Section WriteStdin.
Import Native.

Lemma select_only r c0 :
  (forall c, ready_at r c = Some (first_ready r) <-> c = c0) -> select r = c0.
Proof.
  intros Hw. unfold select.
  set (l := pollorder r ++ [CaseWrite; CaseDone; CaseTimeout]).
  assert (Hin : c0 ∈ l).
  { subst l. apply elem_of_app. right. destruct c0; rewrite !elem_of_cons; auto. }
  assert (Hf : c0 ∈ filter (fun c => bool_decide (ready_at r c = Some (first_ready r)) = true) l).
  { apply list_elem_of_filter. split; [| exact Hin].
    apply bool_decide_eq_true. apply Hw. reflexivity. }
  destruct (filter _ l) as [| c l'] eqn:Hl; [inversion Hf |].
  assert (Hc : c ∈ filter (fun c => bool_decide (ready_at r c = Some (first_ready r)) = true) l)
    by (rewrite Hl; left).
  apply list_elem_of_filter in Hc as [Hc _]. apply bool_decide_eq_true in Hc.
  apply Hw. exact Hc.
Qed.

Lemma select_latch r t :
  latch_closes r = Some t -> t < stdinTimeout ->
  (forall tw e, write_returns r = Some (tw, e) -> t < tw) ->
  select r = CaseDone.
Proof.
  intros Hl Ht Hw. apply select_only.
  assert (Hf : first_ready r = t).
  { unfold first_ready. simpl. rewrite Hl.
    destruct (write_returns r) as [[tw e] |]; simpl; [specialize (Hw tw e eq_refl) |]; lia. }
  rewrite Hf. intros [| |]; simpl; rewrite ?Hl.
  - destruct (write_returns r) as [[tw e] |]; simpl; [specialize (Hw tw e eq_refl) |];
      split; intros [=]; lia.
  - split; reflexivity.
  - split; intros [=]; lia.
Qed.

Lemma select_timeout r :
  (forall tw e, write_returns r = Some (tw, e) -> stdinTimeout < tw) ->
  (forall t, latch_closes r = Some t -> stdinTimeout < t) ->
  select r = CaseTimeout.
Proof.
  intros Hw Hl. apply select_only.
  assert (Hf : first_ready r = stdinTimeout).
  { unfold first_ready. simpl.
    destruct (write_returns r) as [[tw e] |]; simpl; [specialize (Hw tw e eq_refl) |];
      (destruct (latch_closes r) as [t |]; simpl; [specialize (Hl t eq_refl) |]); lia. }
  rewrite Hf. intros [| |]; simpl.
  - destruct (write_returns r) as [[tw e] |]; simpl; [specialize (Hw tw e eq_refl) |];
      split; intros [=]; lia.
  - destruct (latch_closes r) as [t |]; simpl; [specialize (Hl t eq_refl) |];
      split; intros [=]; lia.
  - split; reflexivity.
Qed.

Lemma select_write r tw e :
  write_returns r = Some (tw, e) -> tw < stdinTimeout ->
  (forall t, latch_closes r = Some t -> tw < t) ->
  select r = CaseWrite.
Proof.
  intros Hw Ht Hl. apply select_only.
  assert (Hf : first_ready r = tw).
  { unfold first_ready. simpl. rewrite Hw. simpl.
    destruct (latch_closes r) as [t |]; simpl; [specialize (Hl t eq_refl) |]; lia. }
  rewrite Hf. intros [| |]; simpl; rewrite ?Hw; simpl.
  - split; reflexivity.
  - destruct (latch_closes r) as [t |]; simpl; [specialize (Hl t eq_refl) |];
      split; intros [=]; lia.
  - split; intros [=]; lia.
Qed.

(** C6 (amended): [writeStdin] on an unknown id fails with "process <id>
    not found".  On a known process it fails with "process <id> has exited"
    when the latch is set before the write begins; with "process <id>
    exited during write" when the latch is closed while the write is
    pending; with "stdin write timeout for process <id>" when neither has
    happened after 10 seconds; and when the write returns first, the call
    returns what the write returned: nil after a successful write, the
    write's error otherwise.  In that last case the remapped and stripped
    bytes went to the child's stdin between locking and unlocking the stdin
    mutex of the process. *)
Theorem writeStdin_outcomes processID data race pt :
  match lookup_process processID pt with
  | None =>
      writeStdin processID data race pt =
        (Some ("process " +:+ processID +:+ " not found"), pt)
  | Some (p, lp) =>
      (done lp = true ->
       writeStdin processID data race pt =
         (Some ("process " +:+ processID +:+ " has exited"), pt)) /\
      (done lp = false ->
       (forall t, latch_closes race = Some t -> t < 10 * 1000000000 ->
          (forall tw e, write_returns race = Some (tw, e) -> t < tw) ->
          writeStdin processID data race pt =
            (Some ("process " +:+ processID +:+ " exited during write"), pt)) /\
       ((forall tw e, write_returns race = Some (tw, e) -> 10 * 1000000000 < tw) ->
        (forall t, latch_closes race = Some t -> 10 * 1000000000 < t) ->
        writeStdin processID data race pt =
          (Some ("stdin write timeout for process " +:+ processID), pt)) /\
       (forall tw e, write_returns race = Some (tw, e) -> tw < 10 * 1000000000 ->
          (forall t, latch_closes race = Some t -> tw < t) ->
          (writeStdin processID data race pt).1 = e /\
          exists lp',
            objects (writeStdin processID data race pt).2 !! p = Some lp' /\
            stdin_ops lp' =
              stdin_ops lp ++
              [MuLock; StdinWrite (stripSkillPrefix (remapPaths lp data)) e; MuUnlock]))
  end.
Proof.
  destruct (lookup_process processID pt) as [[p lp] |] eqn:Hl.
  - split; [| intros Hd; split; [| split]].
    + intros Hd. unfold writeStdin. rewrite Hl, Hd. reflexivity.
    + intros t Ht Hlt Hw. unfold writeStdin.
      rewrite Hl, Hd, (select_latch race t Ht Hlt Hw). reflexivity.
    + intros Hw Hla. unfold writeStdin.
      rewrite Hl, Hd, (select_timeout race Hw Hla). reflexivity.
    + intros tw e Hw Hlt Hla.
      pose proof (select_write race tw e Hw Hlt Hla) as Hs.
      destruct (writeStdin_write processID data race pt p lp Hl Hd Hs) as (H1 & lp' & H2 & H3).
      rewrite Hw in H1, H3. split; [exact H1 |]. exists lp'. split; [exact H2 | exact H3].
  - unfold writeStdin. rewrite Hl. reflexivity.
Qed.

Lemma writeStdin_outcomes_witness :
  writeStdin "proc-1" (bytes_of_string "x") (mkStdinRace None (Some 5) []) Fixtures.one_process =
    (Some "process proc-1 exited during write", Fixtures.one_process) /\
  (writeStdin "proc-1" (bytes_of_string "x") (mkStdinRace (Some (7, None)) None [])
     Fixtures.one_process).1 = None.
Proof.
  split.
  - pose proof (writeStdin_outcomes "proc-1" (bytes_of_string "x")
                  (mkStdinRace None (Some 5) []) Fixtures.one_process) as H.
    change (lookup_process "proc-1" Fixtures.one_process)
      with (Some (0%nat, Fixtures.mapped_process)) in H.
    destruct H as [_ H]. destruct (H eq_refl) as (Hlatch & _ & _).
    apply (Hlatch 5 eq_refl); [lia | intros tw e [=]].
  - pose proof (writeStdin_outcomes "proc-1" (bytes_of_string "x")
                  (mkStdinRace (Some (7, None)) None []) Fixtures.one_process) as H.
    change (lookup_process "proc-1" Fixtures.one_process)
      with (Some (0%nat, Fixtures.mapped_process)) in H.
    destruct H as [_ H]. destruct (H eq_refl) as (_ & _ & Hwrite).
    apply (Hwrite 7 None eq_refl); [lia | intros t [=]].
Defined.

(** C6 as stated fails in its last case: the process is known, the latch is
    open and stays open, the write returns after a millisecond, well before
    the timeout, but with an error (the child has closed its stdin); the
    call does not succeed, it returns that error. *)
Lemma writeStdin_write_error :
  lookup_process "proc-1" Fixtures.one_process = Some (0%nat, Fixtures.mapped_process) /\
  done Fixtures.mapped_process = false /\
  select Fixtures.write_fails = CaseWrite /\
  (writeStdin "proc-1" (bytes_of_string "x") Fixtures.write_fails Fixtures.one_process).1 =
    Some "write |1: broken pipe".
Proof. vm_compute. repeat split. Qed.
End WriteStdin.

(** ** The dispatcher *)

(** Case analysis on the method of a request, against the seventeen names. *)
Ltac by_method req :=
  repeat (match goal with
          | |- context [String.eqb (Pipe.Method req) ?k] =>
              let Hm := fresh "Hm" in
              destruct (String.eqb_spec (Pipe.Method req) k) as [Hm | Hm]
          | H : context [String.eqb (Pipe.Method req) ?k] |- _ =>
              let Hm := fresh "Hm" in
              destruct (String.eqb_spec (Pipe.Method req) k) as [Hm | Hm]
          end; cbv beta iota in *; try congruence).

Ltac break_match :=
  repeat match goal with
         | |- context [match ?x with _ => _ end] => destruct x eqn:?
         | H : context [match ?x with _ => _ end] |- _ => destruct x eqn:?
         end.

(** Membership of the request's method, once known, in a list of names. *)
Ltac listed_or_not :=
  match goal with
  | H : Pipe.Method _ = _ |- _ =>
      rewrite H; apply (bool_decide_eq_true_1 _); vm_compute; reflexivity
  end.

(** A string that is not in a list of literals. *)
Ltac not_listed H :=
  solve [exfalso; repeat (apply elem_of_cons in H as [H | H]; [congruence |]); inversion H].

Section DispatcherProperties.
Import Frame Pipe.
Context {codec : Codec} {St : Type} (backend : VMBackend St).

Lemma reply_WriteError id code message conn (s : St) :
  reply (WriteError id code message) (conn, s) =
    replied (Response_document (mkResponse false None message)) conn s.
Proof. reflexivity. Qed.

Lemma reply_WriteResponse result conn (s : St) :
  reply (WriteResponse result) (conn, s) = replied (success_document result) conn s.
Proof. destruct result; reflexivity. Qed.

Lemma error_document_nonempty message :
  message <> "" -> Response_document (mkResponse false None message) = error_document message.
Proof.
  intros Hne. unfold Response_document, error_document. simpl.
  destruct (String.eqb_spec message ""); [contradiction | reflexivity].
Qed.

Lemma append_nonempty (a b : string) : a <> "" -> a +:+ b <> "".
Proof. destruct a; [congruence | discriminate]. Qed.

Lemma ReadMessage_out c : conn_out (ReadMessage c).2 = conn_out c.
Proof.
  unfold ReadMessage, ReadFull.
  repeat match goal with
         | |- context [if ?b then _ else _] => destruct b; simpl
         end; reflexivity.
Qed.

Lemma ReadMessage_Ok_shrinks c payload c' :
  ReadMessage c = (Ok payload, c') -> (length (conn_in c') < length (conn_in c))%nat.
Proof.
  unfold ReadMessage, ReadFull.
  destruct (Nat.leb_spec 4 (length (conn_in c))) as [H4 |]; [| discriminate].
  cbn [conn_in conn_closed conn_out].
  destruct (Uint32 _ =? 0); [discriminate |].
  destruct (Uint32 _ >? maxMessageSize); [discriminate |].
  destruct (Nat.leb_spec (Z.to_nat (Uint32 (take 4 (conn_in c)))) (length (drop 4 (conn_in c))));
    [| discriminate].
  intros [= _ <-]. simpl. rewrite !length_drop. lia.
Qed.

Lemma readUntilError_out fuel c c' :
  readUntilError fuel c = Some c' -> conn_out c' = conn_out c.
Proof.
  revert c. induction fuel as [| fuel IH]; intros c H; [discriminate |]. simpl in H.
  pose proof (ReadMessage_out c) as Ho.
  destruct (ReadMessage c) as [[payload | e] c1]; simpl in Ho.
  - rewrite (IH c1 H). exact Ho.
  - injection H as <-. exact Ho.
Qed.

(** The read loop ends: with fuel above the length of the input it returns
    through a failed read. *)
Lemma readUntilError_total fuel c :
  (length (conn_in c) < fuel)%nat -> is_Some (readUntilError fuel c).
Proof.
  revert c. induction fuel as [| fuel IH]; intros c Hlt; [lia |]. simpl.
  destruct (ReadMessage c) as [[payload | e] c1] eqn:Hr; [| eauto].
  apply IH. apply ReadMessage_Ok_shrinks in Hr. lia.
Qed.

Lemma switch_None {A} (cases : list (string * A)) x :
  x ∉ cases.*1 -> switch cases x = None.
Proof.
  induction cases as [| [k a] cases IH]; intros Hx; [reflexivity |].
  simpl in *. apply not_elem_of_cons in Hx as [Hne Hx].
  destruct (String.eqb_spec x k); [contradiction | apply IH; exact Hx].
Qed.

Lemma methods_names : (methods backend).*1 = method_names.
Proof. reflexivity. Qed.


(** C1 (amended): a payload that does not decode as a request is answered
    with the failure document whose error is "Parse error" (the document has
    the members success and error, no id); a request whose method is not one
    of the seventeen names with "Method not found: " followed by the method;
    and for the thirteen methods configure, createVM, startVM, stopVM,
    spawn, kill, writeStdin, isProcessRunning, mountPath, readFile,
    installSdk, addApprovedOauthToken and setDebugLogging, a request whose
    params fail to decode into the method's parameter shape with
    "Invalid params: " followed by the decoder's error, the backend left
    alone.  isRunning, isGuestConnected and subscribeEvents drop the
    decoder's error and go on with the name as far as it was decoded;
    getDownloadStatus does not read params: their reply is the backend's
    answer. *)
Theorem Handle_error_replies (payload : bytes) (conn : Conn) (s : St) :
  let req := (json_Unmarshal payload (zero : Request)).1 in
  let err := (json_Unmarshal payload (zero : Request)).2 in
  let name := vn_Name (optionalName req) in
  (is_Some err ->
   Handle backend payload (conn, s) = replied (error_document "Parse error") conn s) /\
  (err = None -> Method req ∉ method_names ->
   Handle backend payload (conn, s) =
     replied (error_document ("Method not found: " +:+ Method req)) conn s) /\
  (err = None -> Method req ∈ strict_methods ->
   forall detail, params_error req = Some detail ->
   Handle backend payload (conn, s) =
     replied (error_document ("Invalid params: " +:+ detail)) conn s) /\
  (err = None -> Method req = "isRunning" ->
   Handle backend payload (conn, s) =
     match IsRunning backend name s with
     | (Ok running, s') =>
         replied (success_document (Some (JObject [("running", JBool running)]))) conn s'
     | (Err e, s') => replied (Response_document (mkResponse false None e)) conn s'
     end) /\
  (err = None -> Method req = "isGuestConnected" ->
   Handle backend payload (conn, s) =
     match IsGuestConnected backend name s with
     | (Ok connected, s') =>
         replied (success_document (Some (JObject [("connected", JBool connected)]))) conn s'
     | (Err e, s') => replied (Response_document (mkResponse false None e)) conn s'
     end) /\
  (err = None -> Method req = "subscribeEvents" ->
   conn_out (Handle backend payload (conn, s)).1 =
     conn_out conn ++
     [frame (json_Marshal
        match SubscribeEvents backend name s with
        | (Ok _, _) => success_document (Some (JObject [("subscribed", JBool true)]))
        | (Err e, _) => Response_document (mkResponse false None e)
        end)]) /\
  (err = None -> Method req = "getDownloadStatus" ->
   Handle backend payload (conn, s) =
     replied (success_document
                (Some (JObject [("status", JString (GetDownloadStatus backend s).1)])))
       conn (GetDownloadStatus backend s).2).
Proof.
  intros req err name. subst req err name. unfold Handle.
  destruct (json_Unmarshal payload (zero : Request)) as [req [e |]]; simpl fst; simpl snd.
  - split; [intros _; rewrite reply_WriteError; reflexivity |].
    repeat split; discriminate.
  - split; [intros [? [=]] |].
    split; [| split; [| repeat split]].
    + intros _ Hm. rewrite switch_None by (rewrite methods_names; exact Hm).
      rewrite reply_WriteError, error_document_nonempty; [reflexivity |].
      apply append_nonempty. discriminate.
    + intros _ Hin detail Hpe. unfold params_error in Hpe.
      cbn [switch methods] in *. by_method req; try not_listed Hin;
        unfold handleConfigure, handleCreateVM, handleStartVM, handleStopVM, handleSpawn,
          handleKill, handleWriteStdin, handleIsProcessRunning, handleMountPath,
          handleReadFile, handleInstallSdk, handleAddApprovedOauthToken,
          handleSetDebugLogging;
        match type of Hpe with
        | default None (Some (?e).2) = _ => destruct e as [p [e' |]]
        end; simpl in Hpe; simplify_eq;
        rewrite reply_WriteError, error_document_nonempty;
        (reflexivity || (apply append_nonempty; discriminate)).
    + intros _ Hm. cbn [switch methods]. by_method req.
      unfold handleIsRunning. cbn [fst snd].
      destruct (IsRunning backend _ s) as [[running | e] s'].
      * apply reply_WriteResponse.
      * apply reply_WriteError.
    + intros _ Hm. cbn [switch methods]. by_method req.
      unfold handleIsGuestConnected. cbn [fst snd].
      destruct (IsGuestConnected backend _ s) as [[connected | e] s'].
      * apply reply_WriteResponse.
      * apply reply_WriteError.
    + intros _ Hm. cbn [switch methods]. by_method req.
      unfold handleSubscribeEvents. cbn [fst snd].
      destruct (SubscribeEvents backend _ s) as [[cancel | e] s']; [| reflexivity].
      rewrite reply_WriteResponse. unfold replied.
      destruct (readUntilError _ _) as [c' |] eqn:Hr; [| reflexivity].
      apply readUntilError_out in Hr. exact Hr.
    + intros _ Hm. cbn [switch methods]. by_method req.
      unfold handleGetDownloadStatus. cbn [fst snd].
      destruct (GetDownloadStatus backend s) as [status s'].
      apply reply_WriteResponse.
Qed.

(** C5 (amended): when an operation completes successfully, the reply on
    the wire is one frame holding a document whose first member is success,
    true.  For the seven operations with a result shape (isRunning,
    isGuestConnected, spawn, isProcessRunning, readFile, subscribeEvents,
    getDownloadStatus) a second member, result, carries the result.  For the
    ten operations whose result is null (configure, createVM, startVM,
    stopVM, kill, writeStdin, mountPath, installSdk, addApprovedOauthToken,
    setDebugLogging) there is no result member: the document is success,
    true alone. *)
Theorem success_reply_shape (payload : bytes) (req : Request) (conn : Conn) (s s' : St)
    (result : option json) :
  json_Unmarshal payload (zero : Request) = (req, None) ->
  operation_result backend req s = Some (result, s') ->
  exists doc,
    (conn_out (Handle backend payload (conn, s)).1 =
       conn_out conn ++ [frame (json_Marshal doc)]) /\
    ((Method req ∈ null_result_methods /\ result = None /\
      doc = JObject [("success", JBool true)]) \/
     ((Method req ∉ null_result_methods) /\
      exists d, result = Some d /\ doc = JObject [("success", JBool true); ("result", d)])).
Proof.
  intros Hreq Hres. unfold Handle. rewrite Hreq. unfold operation_result in Hres.
  cbn [switch methods] in *. by_method req; cbn [mjoin option_join] in Hres; try discriminate;
    unfold handleConfigure, handleCreateVM, handleStartVM, handleStopVM, handleIsRunning,
      handleIsGuestConnected, handleSpawn, handleKill, handleWriteStdin,
      handleIsProcessRunning, handleMountPath, handleReadFile, handleInstallSdk,
      handleAddApprovedOauthToken, handleSetDebugLogging, handleSubscribeEvents,
      handleGetDownloadStatus;
    cbn [fst snd] in *; break_match; simplify_eq;
    rewrite ?reply_WriteResponse in *; unfold replied in *; simplify_eq;
    (eexists; split;
     [first [reflexivity
            | match goal with
              | Hr : readUntilError _ _ = Some _ |- _ =>
                  cbn [fst]; rewrite (readUntilError_out _ _ _ Hr); reflexivity
              end]
     | first [left; split;
               [listed_or_not
               | split; reflexivity]
             | right; split;
               [listed_or_not
               | eexists; split; reflexivity]]]).
Qed.
End DispatcherProperties.

(** *** The dispatcher on the JSON codec *)

Section DispatcherExamples.
Import Frame Pipe Encoding Backends.

Lemma Handle_error_replies_witness :
  Handle quiet (bytes_of_string "nonsense") (reader [], tt) =
    replied (error_document "Parse error") (reader []) tt /\
  Handle quiet unknown_method (reader [], tt) =
    replied (error_document "Method not found: frobnicate") (reader []) tt /\
  exists detail,
    Handle quiet configure_bad_params (reader [], tt) =
      replied (error_document ("Invalid params: " +:+ detail)) (reader []) tt.
Proof.
  split; [| split].
  - pose proof (Handle_error_replies quiet (bytes_of_string "nonsense") (reader []) tt) as H.
    cbv zeta in H. destruct H as (Hparse & _). apply Hparse. vm_compute. eauto.
  - pose proof (Handle_error_replies quiet unknown_method (reader []) tt) as H.
    cbv zeta in H. destruct H as (_ & Hunknown & _).
    refine (eq_trans (Hunknown _ _) _).
    + vm_compute. reflexivity.
    + vm_compute. intros Hin.
      repeat (apply elem_of_cons in Hin as [Hin | Hin]; [discriminate |]). inversion Hin.
    + vm_compute. reflexivity.
  - pose proof (Handle_error_replies quiet configure_bad_params (reader []) tt) as H.
    cbv zeta in H. destruct H as (_ & _ & Hinvalid & _).
    eexists. apply Hinvalid.
    + vm_compute. reflexivity.
    + apply elem_of_cons. left. vm_compute. reflexivity.
    + vm_compute. reflexivity.
Defined.

(** C1 as stated fails for isRunning: the payload decodes as a request, its
    params (the number 5) do not decode into the shape with a name, and the
    reply is not a failure with "Invalid params": the handler goes on with
    the empty name and the reply is the backend's answer. *)
Lemma Handle_isRunning_ignores_bad_params :
  (json_Unmarshal isRunning_bad_params (zero : Request)).2 = None /\
  Method (json_Unmarshal isRunning_bad_params (zero : Request)).1 = "isRunning" /\
  is_Some (params_error (json_Unmarshal isRunning_bad_params (zero : Request)).1) /\
  conn_out (Handle quiet isRunning_bad_params (reader [], tt)).1 =
    [frame (json_text "{'success':true,'result':{'running':false}}")].
Proof. vm_compute. repeat split. eauto. Qed.

Lemma success_reply_shape_witness :
  exists doc,
    conn_out (Handle quiet configure_request (reader [], tt)).1 = [frame (json_Marshal doc)] /\
    doc = JObject [("success", JBool true)].
Proof.
  destruct (success_reply_shape quiet configure_request
              (json_Unmarshal configure_request (zero : Request)).1 (reader []) tt tt None)
    as (doc & Hout & [(_ & _ & Hdoc) | (_ & d & Hd & _)]).
  - vm_compute. reflexivity.
  - vm_compute. reflexivity.
  - exists doc. split; [exact Hout | exact Hdoc].
  - discriminate.
Defined.

(** C5 as stated fails for configure: the request is well formed, the
    operation completes successfully, and the frame on the wire holds the
    document with the single member success; it has no result member. *)
Lemma configure_reply_omits_result :
  (json_Unmarshal configure_request (zero : Request)).2 = None /\
  operation_result quiet (json_Unmarshal configure_request (zero : Request)).1 tt =
    Some (None, tt) /\
  conn_out (Handle quiet configure_request (reader [], tt)).1 =
    [frame (json_text "{'success':true}")] /\
  parse (json_text "{'success':true}") = Some (JObject [("success", JBool true)]) /\
  json_text "{'success':true}" <> json_text "{'success':true,'result':null}".
Proof. vm_compute. repeat split. discriminate. Qed.
End DispatcherExamples.

(** ** The kill operation *)

Section KillSignal.
Import Frame Pipe Native Backends.
Context {codec : Codec}.

(** The signals one [kill] sends. *)
Lemma kill_signalled processID signal getpgid pt :
  signalled (kill processID signal getpgid pt).2 =
    signalled pt ++
    match lookup_process processID pt with
    | Some (_, lp) =>
        match cmd_Process lp with
        | Some pid =>
            [match getpgid pid with
             | Some pgid => KillGroup pgid (mapSignal signal)
             | None => SignalProcess pid (mapSignal signal)
             end]
        | None => []
        end
    | None => []
    end.
Proof.
  unfold kill. destruct (lookup_process processID pt) as [[p lp] |];
    [| simpl; rewrite app_nil_r; reflexivity].
  destruct (cmd_Process lp) as [pid |]; [| simpl; rewrite app_nil_r; reflexivity].
  destruct (getpgid pid); reflexivity.
Qed.

Lemma kill_error processID signal getpgid pt :
  (kill processID signal getpgid pt).1 =
    match lookup_process processID pt with
    | Some _ => None
    | None => Some ("process " +:+ processID +:+ " not found")
    end.
Proof.
  unfold kill. destruct (lookup_process processID pt) as [[p lp] |]; [| reflexivity].
  destruct (cmd_Process lp) as [pid |]; [| reflexivity].
  destruct (getpgid pid); reflexivity.
Qed.

Lemma mapSignal_empty : mapSignal "" = SIGTERM.
Proof. reflexivity. Qed.

(** A name that is none of the six recognised ones, after the prefix SIG
    is removed and case is ignored, is translated to SIGTERM. *)
Lemma mapSignal_default name :
  ToUpper (TrimPrefix (ToUpper name) "SIG") ∉ ["KILL"; "INT"; "QUIT"; "HUP"; "USR1"; "USR2"] ->
  mapSignal name = SIGTERM.
Proof.
  intros Hn. unfold mapSignal.
  repeat match goal with
         | |- context [String.eqb ?a ?b] =>
             destruct (String.eqb_spec a b) as [Heq | _];
             [exfalso; apply Hn; rewrite Heq; rewrite !elem_of_cons; tauto |]
         end.
  reflexivity.
Qed.

(** C10 (amended): a client cannot choose the signal of a kill.  The
    handler decodes the params into a record whose only field is the id and
    hands the backend nothing but that id; the native backend's Kill passes
    the empty signal name to the tracker; the translation of signal names
    maps the empty name, like any unrecognised name, to SIGTERM.  So
    whatever the request holds, a kill of a tracked process sends exactly
    one signal, and that signal is SIGTERM: to the process group when the
    group of the process can be looked up, to the process itself when it
    cannot, and the reply is success; a kill of an unknown id sends nothing
    and is answered with "process <id> not found"; a request whose params do
    not decode sends nothing. *)
Theorem kill_sends_SIGTERM (backend : VMBackend processTracker) (getpgid : Z -> option Z)
    (req : Request) (conn : Conn) (pt : processTracker) :
  Kill backend = Backend_Kill getpgid ->
  let decoded := json_Unmarshal (raw req) (zero : processIDParams) in
  let pt' := (handleKill backend req (conn, pt)).2 in
  let sent := drop (length (signalled pt)) (signalled pt') in
  pt' = match decoded.2 with
        | None => (kill (pi_ProcessID decoded.1) "" getpgid pt).2
        | Some _ => pt
        end /\
  signalled pt' = signalled pt ++ sent /\
  Forall (fun s => signal_of s = SIGTERM) sent /\
  (forall p lp pid,
     decoded.2 = None ->
     lookup_process (pi_ProcessID decoded.1) pt = Some (p, lp) ->
     cmd_Process lp = Some pid ->
     sent = [match getpgid pid with
             | Some pgid => KillGroup pgid SIGTERM
             | None => SignalProcess pid SIGTERM
             end] /\
     conn_out (handleKill backend req (conn, pt)).1 =
       conn_out conn ++ [frame (json_Marshal (JObject [("success", JBool true)]))]) /\
  (sent = [] \/
   exists p lp pid,
     decoded.2 = None /\
     lookup_process (pi_ProcessID decoded.1) pt = Some (p, lp) /\
     cmd_Process lp = Some pid /\
     sent = [match getpgid pid with
             | Some pgid => KillGroup pgid SIGTERM
             | None => SignalProcess pid SIGTERM
             end]) /\
  (decoded.2 = None -> lookup_process (pi_ProcessID decoded.1) pt = None ->
   sent = [] /\
   conn_out (handleKill backend req (conn, pt)).1 =
     conn_out conn ++
     [frame (json_Marshal
        (error_document ("process " +:+ pi_ProcessID decoded.1 +:+ " not found")))]) /\
  (decoded.2 <> None -> sent = []) /\
  mapSignal "" = SIGTERM /\
  (forall name,
     ToUpper (TrimPrefix (ToUpper name) "SIG") ∉ ["KILL"; "INT"; "QUIT"; "HUP"; "USR1"; "USR2"] ->
     mapSignal name = SIGTERM).
Proof.
  intros HK decoded pt' sent.
  assert (Hpt : pt' = match decoded.2 with
                      | None => (kill (pi_ProcessID decoded.1) "" getpgid pt).2
                      | Some _ => pt
                      end).
  { subst pt' decoded. unfold handleKill.
    destruct (json_Unmarshal (raw req) zero) as [p [e |]]; [reflexivity |].
    rewrite HK. unfold Backend_Kill. cbn [fst snd].
    destruct (kill (pi_ProcessID p) "" getpgid pt) as [[e |] pt1]; reflexivity. }
  assert (Hsent : sent =
            match decoded.2 with
            | None =>
                match lookup_process (pi_ProcessID decoded.1) pt with
                | Some (_, lp) =>
                    match cmd_Process lp with
                    | Some pid =>
                        [match getpgid pid with
                         | Some pgid => KillGroup pgid SIGTERM
                         | None => SignalProcess pid SIGTERM
                         end]
                    | None => []
                    end
                | None => []
                end
            | Some _ => []
            end).
  { subst sent. rewrite Hpt. destruct decoded.2.
    - rewrite drop_all. reflexivity.
    - rewrite kill_signalled, drop_app_length. reflexivity. }
  assert (Hall : signalled pt' = signalled pt ++ sent).
  { subst sent. rewrite Hpt. destruct decoded.2.
    - rewrite drop_all, app_nil_r. reflexivity.
    - rewrite kill_signalled, drop_app_length. reflexivity. }
  split; [exact Hpt |]. split; [exact Hall |].
  split; [| split; [| split; [| split; [| split; [| split]]]]].
  - rewrite Hsent. destruct decoded.2; [constructor |].
    destruct (lookup_process _ pt) as [[p lp] |]; [| constructor].
    destruct (cmd_Process lp) as [pid |]; [| constructor].
    destruct (getpgid pid); repeat constructor.
  - intros p lp pid Hd Hl Hp. rewrite Hsent, Hd, Hl, Hp. split; [reflexivity |].
    subst decoded. unfold handleKill.
    destruct (json_Unmarshal (raw req) zero) as [q [e |]]; [discriminate |].
    rewrite HK. unfold Backend_Kill. cbn [fst snd] in *.
    pose proof (kill_error (pi_ProcessID q) "" getpgid pt) as He. rewrite Hl in He.
    destruct (kill (pi_ProcessID q) "" getpgid pt) as [[e |] pt1]; simpl in He; [discriminate |].
    reflexivity.
  - rewrite Hsent. destruct decoded.2; [left; reflexivity |].
    destruct (lookup_process _ pt) as [[p lp] |] eqn:Hl; [| left; reflexivity].
    destruct (cmd_Process lp) as [pid |] eqn:Hp; [| left; reflexivity].
    right. exists p, lp, pid. repeat split; assumption.
  - intros Hd Hl. rewrite Hsent, Hd, Hl. split; [reflexivity |].
    subst decoded. unfold handleKill.
    destruct (json_Unmarshal (raw req) zero) as [p [e |]]; [discriminate |].
    rewrite HK. unfold Backend_Kill. cbn [fst snd] in *.
    pose proof (kill_error (pi_ProcessID p) "" getpgid pt) as He. rewrite Hl in He.
    destruct (kill (pi_ProcessID p) "" getpgid pt) as [[e |] pt1]; simpl in He; [| discriminate].
    injection He as ->. reflexivity.
  - intros Hd. rewrite Hsent. destruct decoded.2; [reflexivity | contradiction].
  - exact mapSignal_empty.
  - exact mapSignal_default.
Qed.
End KillSignal.

Section KillExamples.
Import Frame Pipe Native Encoding Backends.

Lemma kill_sends_SIGTERM_witness :
  signalled
    (handleKill (quiet_with_Kill (fun _ => Some 4242))
       (json_Unmarshal kill_with_signal (zero : Request)).1
       (reader [], Fixtures.one_process)).2 =
    [KillGroup 4242 SIGTERM].
Proof.
  destruct (kill_sends_SIGTERM (quiet_with_Kill (fun _ => Some 4242)) (fun _ => Some 4242)
              (json_Unmarshal kill_with_signal (zero : Request)).1 (reader [])
              Fixtures.one_process eq_refl) as (_ & Hall & _ & H & _).
  destruct (H 0%nat Fixtures.mapped_process 4242) as [Hsent _].
  - vm_compute. reflexivity.
  - vm_compute. reflexivity.
  - reflexivity.
  - rewrite Hall, Hsent. reflexivity.
Defined.

(** C10 as stated fails in its last part: the request names SIGKILL, the
    process is tracked, the lookup of its process group fails (the process
    is gone); the signal is SIGTERM, as the claim says, but it is sent to
    the process, not to its group. *)
Lemma kill_falls_back_to_process :
  signalled
    (Handle (quiet_with_Kill (fun _ => None)) kill_with_signal
       (reader [], Fixtures.one_process)).2 =
    [SignalProcess 4242 SIGTERM].
Proof. vm_compute. reflexivity. Qed.
End KillExamples.

(** * Further properties *)

(** ** The frame codec, read side *)

Section FrameReader.
Import Frame.

Lemma byte_of_Z_mod v : byte_of_Z (v mod 256) = byte_of_Z v.
Proof. unfold byte_of_Z. rewrite Z.mod_mod by lia. reflexivity. Qed.

Lemma byte_of_Z_low b q : byte_of_Z (byte_to_Z b + q * 256) = b.
Proof.
  rewrite <- byte_of_Z_mod, Z.mod_add by lia. rewrite byte_of_Z_mod. apply byte_of_to_Z.
Qed.

(** The header written for the number a header denotes is that header. *)
Lemma PutUint32_Uint32 hdr : length hdr = 4%nat -> PutUint32 (Uint32 hdr) = hdr.
Proof.
  intros Hlen.
  destruct hdr as [| b0 [| b1 [| b2 [| b3 [| ? ?]]]]]; try discriminate.
  rewrite Uint32_arith. unfold PutUint32. rewrite !Z.shiftr_div_pow2 by lia.
  pose proof (byte_to_Z_range b0). pose proof (byte_to_Z_range b1).
  pose proof (byte_to_Z_range b2). pose proof (byte_to_Z_range b3).
  set (v := byte_to_Z b3 + byte_to_Z b2 * 2 ^ 8 + byte_to_Z b1 * 2 ^ 16 + byte_to_Z b0 * 2 ^ 24).
  assert (H24 : v / 2 ^ 24 = byte_to_Z b0 + 0 * 256).
  { symmetry. apply Z.div_unique with (byte_to_Z b3 + byte_to_Z b2 * 2 ^ 8 + byte_to_Z b1 * 2 ^ 16);
      subst v; lia. }
  assert (H16 : v / 2 ^ 16 = byte_to_Z b1 + byte_to_Z b0 * 256).
  { symmetry. apply Z.div_unique with (byte_to_Z b3 + byte_to_Z b2 * 2 ^ 8); subst v; lia. }
  assert (H8 : v / 2 ^ 8 = byte_to_Z b2 + (byte_to_Z b1 + byte_to_Z b0 * 256) * 256).
  { symmetry. apply Z.div_unique with (byte_to_Z b3); subst v; lia. }
  assert (Hv : v = byte_to_Z b3 +
                   (byte_to_Z b2 + (byte_to_Z b1 + byte_to_Z b0 * 256) * 256) * 256)
    by (subst v; lia).
  rewrite H24, H16, H8, !byte_of_Z_low. rewrite Hv, byte_of_Z_low. reflexivity.
Qed.

(** X1: whatever [ReadMessage] accepts is a frame as [WriteMessage] writes
    it.  When a read returns the payload [p], the input began with the
    frame of [p], that is the four-byte big-endian length of [p] and then
    [p]; exactly these bytes were taken and the rest of the input is left
    for the next read; [p] has between 1 and 10 * 2^20 bytes; nothing was
    written. *)
Theorem ReadMessage_accepts_frames (c c' : Conn) (p : bytes) :
  ReadMessage c = (Ok p, c') ->
  conn_in c = frame p ++ conn_in c' /\
  1 <= Z.of_nat (length p) <= 10 * 2 ^ 20 /\
  conn_out c' = conn_out c /\ conn_closed c' = conn_closed c.
Proof.
  unfold ReadMessage, ReadFull.
  destruct (Nat.leb_spec 4 (length (conn_in c))) as [H4 |]; [| discriminate].
  cbn [conn_in conn_closed conn_out].
  set (hdr := take 4 (conn_in c)).
  assert (Hl : length hdr = 4%nat) by (subst hdr; rewrite length_take; lia).
  pose proof (Uint32_range hdr) as Hr.
  destruct (Z.eqb_spec (Uint32 hdr) 0) as [| Hne]; [discriminate |].
  destruct (Z.gtb_spec (Uint32 hdr) maxMessageSize) as [| Hle]; [discriminate |].
  destruct (Nat.leb_spec (Z.to_nat (Uint32 hdr)) (length (drop 4 (conn_in c)))) as [Hn |];
    [| discriminate].
  intros [= <- <-]. cbn [conn_in conn_closed conn_out].
  assert (Hp : Z.of_nat (length (take (Z.to_nat (Uint32 hdr)) (drop 4 (conn_in c)))) = Uint32 hdr).
  { rewrite length_take. lia. }
  unfold maxMessageSize in Hle.
  split; [| split; [lia | split; reflexivity]].
  unfold frame. rewrite Hp. unfold uint32. rewrite Z.mod_small by lia.
  rewrite PutUint32_Uint32 by exact Hl.
  rewrite <- app_assoc, take_drop. subst hdr. rewrite take_drop. reflexivity.
Qed.

Lemma ReadMessage_accepts_frames_witness :
  conn_in (reader (frame (bytes_of_string "{}") ++ bytes_of_string "next")) =
    frame (bytes_of_string "{}") ++ bytes_of_string "next" /\
  1 <= Z.of_nat (length (bytes_of_string "{}")) <= 10 * 2 ^ 20.
Proof.
  destruct (ReadMessage_accepts_frames
              (reader (frame (bytes_of_string "{}") ++ bytes_of_string "next"))
              (reader (bytes_of_string "next")) (bytes_of_string "{}") eq_refl)
    as (Hin & Hlen & _).
  split; [exact Hin | exact Hlen].
Defined.

(** X2: how [ReadMessage] fails.  At the end of the stream between two
    frames the error is the end-of-file error under the prefix of the
    header; a stream cut inside the header, or inside the payload, gives the
    unexpected-end error (the plain end-of-file error when not one byte of
    the payload came), and all the input is used up.  A header that
    declares 0 bytes, or more than 10 * 2^20, is refused after its four
    bytes have been taken: what follows it stays unread.  In no case is
    anything written. *)
Theorem ReadMessage_failures (c : Conn) :
  (conn_in c = [] ->
   ReadMessage c = (Err "reading length prefix: EOF", c)) /\
  ((0 < length (conn_in c) < 4)%nat ->
   ReadMessage c =
     (Err "reading length prefix: unexpected EOF", mkConn [] (conn_closed c) (conn_out c))) /\
  (forall hdr rest, conn_in c = hdr ++ rest -> length hdr = 4%nat ->
     let n := Uint32 hdr in
     let after_header := mkConn rest (conn_closed c) (conn_out c) in
     let used_up := mkConn [] (conn_closed c) (conn_out c) in
     (n = 0 -> ReadMessage c = (Err "zero-length message", after_header)) /\
     (10 * 2 ^ 20 < n ->
      ReadMessage c = (Err ("message too large: " +:+ pretty n +:+ " bytes"), after_header)) /\
     (1 <= n <= 10 * 2 ^ 20 -> rest = [] ->
      ReadMessage c = (Err ("reading payload (" +:+ pretty n +:+ " bytes): EOF"), used_up)) /\
     (1 <= n <= 10 * 2 ^ 20 -> 0 < Z.of_nat (length rest) < n ->
      ReadMessage c =
        (Err ("reading payload (" +:+ pretty n +:+ " bytes): unexpected EOF"), used_up))).
Proof.
  split; [| split].
  - intros Hin. unfold ReadMessage, ReadFull. rewrite Hin. destruct c; simpl in *.
    subst. reflexivity.
  - intros Hlen. unfold ReadMessage, ReadFull.
    destruct (Nat.leb_spec 4 (length (conn_in c))); [lia |].
    destruct (conn_in c); [simpl in Hlen; lia | reflexivity].
  - intros hdr rest Hin Hl n after_header used_up.
    assert (Hmax : maxMessageSize = 10 * 2 ^ 20) by reflexivity.
    unfold ReadMessage. rewrite (ReadMessage_header c hdr rest Hin Hl). cbv zeta. fold n.
    repeat split.
    + intros ->. reflexivity.
    + intros Hn. destruct (Z.eqb_spec n 0); [lia |].
      destruct (Z.gtb_spec n maxMessageSize); [reflexivity | lia].
    + intros Hn ->. destruct (Z.eqb_spec n 0); [lia |].
      destruct (Z.gtb_spec n maxMessageSize); [lia |].
      unfold ReadFull. cbn [conn_in conn_closed conn_out length].
      destruct (Nat.leb_spec (Z.to_nat n) 0); [lia | reflexivity].
    + intros Hn Hrest. destruct (Z.eqb_spec n 0); [lia |].
      destruct (Z.gtb_spec n maxMessageSize); [lia |].
      unfold ReadFull. cbn [conn_in conn_closed conn_out].
      destruct (Nat.leb_spec (Z.to_nat n) (length rest)); [lia |].
      destruct rest; [simpl in Hrest; lia | reflexivity].
Qed.

Lemma ReadMessage_failures_witness :
  ReadMessage (reader []) = (Err "reading length prefix: EOF", reader []) /\
  ReadMessage (reader (PutUint32 0 ++ bytes_of_string "{}")) =
    (Err "zero-length message", reader (bytes_of_string "{}")) /\
  ReadMessage (reader (PutUint32 3 ++ bytes_of_string "{}")) =
    (Err "reading payload (3 bytes): unexpected EOF", reader []).
Proof.
  split; [| split].
  - apply (proj1 (ReadMessage_failures (reader []))). reflexivity.
  - destruct (proj2 (proj2 (ReadMessage_failures (reader (PutUint32 0 ++ bytes_of_string "{}"))))
                (PutUint32 0) (bytes_of_string "{}") eq_refl eq_refl) as (H0 & _).
    apply H0. reflexivity.
  - destruct (proj2 (proj2 (ReadMessage_failures (reader (PutUint32 3 ++ bytes_of_string "{}"))))
                (PutUint32 3) (bytes_of_string "{}") eq_refl eq_refl) as (_ & _ & _ & H3).
    apply H3; vm_compute; split; first [reflexivity | discriminate].
Defined.

(** X3: the writer of the earlier revision, which sends the header and
    the payload in two [Write] calls, puts the same bytes on the connection
    as the one-call writer, so a frame it writes alone is read back as it
    was.  When the write of the header fails it gives up with the error of
    that write under the prefix "writing length prefix", and the payload is
    not attempted. *)
Theorem WriteMessage_two_writes_same_bytes (data : bytes) (c : Conn) :
  let header := PutUint32 (uint32 (Z.of_nat (length data))) in
  (conn_closed c = false ->
   (WriteMessage_two_writes data c).1 = None /\
   conn_out (WriteMessage_two_writes data c).2 = conn_out c ++ [header; data] /\
   wire (WriteMessage_two_writes data c).2 = wire (WriteMessage data c).2 /\
   (1 <= Z.of_nat (length data) <= 10 * 2 ^ 20 ->
    forall rest,
      ReadMessage (reader (concat (writes_of (WriteMessage_two_writes data) c) ++ rest)) =
        (Ok data, reader rest))) /\
  (forall e, (conn_Write header c).1 = Some e ->
   (WriteMessage_two_writes data c).1 = Some ("writing length prefix: " +:+ e) /\
   conn_out (WriteMessage_two_writes data c).2 = conn_out c ++ [header]).
Proof.
  intros header. split.
  - intros Hc.
    assert (Hout : conn_out (WriteMessage_two_writes data c).2 =
                     conn_out c ++ [header; data]).
    { unfold WriteMessage_two_writes, conn_Write. rewrite Hc.
      cbn [conn_in conn_closed conn_out fst snd]. rewrite ?Hc. cbn [fst snd conn_out].
      rewrite <- app_assoc. reflexivity. }
    split; [| split; [exact Hout | split]].
    + unfold WriteMessage_two_writes, conn_Write. rewrite Hc.
      cbn [conn_in conn_closed conn_out fst snd]. rewrite ?Hc. reflexivity.
    + unfold wire. rewrite Hout, WriteMessage_log, !concat_app. simpl.
      rewrite !app_nil_r. reflexivity.
    + intros Hlen rest. rewrite writes_of_two_writes, Hc. simpl. rewrite app_nil_r.
      apply (ReadMessage_frame data rest false []). exact Hlen.
  - intros e He. unfold WriteMessage_two_writes. fold header.
    destruct (conn_Write header c) as [[e' |] c1] eqn:Hw; simpl in He; [| discriminate].
    injection He as ->. split; [reflexivity |].
    unfold conn_Write in Hw. injection Hw as _ <-. reflexivity.
Qed.

Lemma WriteMessage_two_writes_same_bytes_witness :
  wire (WriteMessage_two_writes (bytes_of_string "{}") (reader [])).2 =
    wire (WriteMessage (bytes_of_string "{}") (reader [])).2.
Proof.
  destruct (WriteMessage_two_writes_same_bytes (bytes_of_string "{}") (reader [])) as [Hopen _].
  destruct (Hopen eq_refl) as (_ & _ & H & _).
  exact H.
Defined.

(** X4: the writer does not check what the reader checks.  [WriteMessage]
    writes a frame for every payload, and reports no error on a connection
    that takes writes; but the frame of the empty payload is refused by
    [ReadMessage] as a zero-length message, and the frame of a payload of
    more than 10 * 2^20 bytes (and less than 2^32) is refused as too large,
    in both cases after the four bytes of the header: the payload stays in
    the stream. *)
Theorem WriteMessage_unchecked (s rest : bytes) (c : Conn) :
  (conn_closed c = false -> (WriteMessage s c).1 = None) /\
  (s = [] ->
   ReadMessage (reader (wire (WriteMessage s (reader [])).2 ++ rest)) =
     (Err "zero-length message", reader rest)) /\
  (10 * 2 ^ 20 < Z.of_nat (length s) < 2 ^ 32 ->
   ReadMessage (reader (wire (WriteMessage s (reader [])).2 ++ rest)) =
     (Err ("message too large: " +:+ pretty (Z.of_nat (length s)) +:+ " bytes"),
      reader (s ++ rest))).
Proof.
  split; [| split].
  - intros Hc. unfold WriteMessage, conn_Write. rewrite Hc. reflexivity.
  - intros ->. reflexivity.
  - intros Hlen. unfold wire. rewrite WriteMessage_log.
    cbn [reader conn_out app concat]. rewrite app_nil_r.
    set (hdr := PutUint32 (uint32 (Z.of_nat (length s)))).
    assert (Hu : Uint32 hdr = Z.of_nat (length s)).
    { subst hdr. unfold uint32. rewrite Z.mod_small by lia. apply Uint32_PutUint32. lia. }
    unfold ReadMessage.
    rewrite (ReadMessage_header _ hdr (s ++ rest));
      [| unfold frame; cbn [conn_in reader]; fold hdr; rewrite <- app_assoc; reflexivity
       | reflexivity].
    cbv zeta. rewrite Hu.
    destruct (Z.eqb_spec (Z.of_nat (length s)) 0); [lia |].
    destruct (Z.gtb_spec (Z.of_nat (length s)) maxMessageSize) as [| Hle];
      [reflexivity | unfold maxMessageSize in Hle; lia].
Qed.

Lemma WriteMessage_unchecked_witness :
  ReadMessage (reader (wire (WriteMessage [] (reader [])).2 ++ bytes_of_string "next")) =
    (Err "zero-length message", reader (bytes_of_string "next")).
Proof.
  apply (proj1 (proj2 (WriteMessage_unchecked [] (bytes_of_string "next") (reader [])))).
  reflexivity.
Defined.

End FrameReader.

(** ** The dispatcher: replies, backend errors, subscriptions *)

Section DispatcherReplies.
Import Frame Pipe Service.
Context {codec : Codec} {St : Type} (backend : VMBackend St).

Lemma replied_out doc conn (s : St) :
  conn_out (replied doc conn s).1 = conn_out conn ++ [frame (json_Marshal doc)].
Proof. reflexivity. Qed.

(** [ReadMessage] looks at the input only. *)
Lemma ReadMessage_reader i cl out :
  ReadMessage (mkConn i cl out) =
    ((ReadMessage (reader i)).1, mkConn (conn_in (ReadMessage (reader i)).2) cl out).
Proof.
  unfold ReadMessage, ReadFull, reader. cbn [conn_in conn_closed conn_out].
  repeat match goal with
         | |- context [if ?b then _ else _] => destruct b; cbn [conn_in conn_closed conn_out fst snd]
         end; reflexivity.
Qed.

Lemma ReadMessage_closed c : conn_closed (ReadMessage c).2 = conn_closed c.
Proof.
  destruct c as [i cl out]. rewrite ReadMessage_reader. reflexivity.
Qed.

Lemma ReadMessage_in_le c : (length (conn_in (ReadMessage c).2) <= length (conn_in c))%nat.
Proof.
  destruct c as [i cl out]. rewrite ReadMessage_reader. cbn [snd conn_in].
  unfold ReadMessage, ReadFull, reader. cbn [conn_in conn_closed conn_out].
  repeat match goal with
         | |- context [if ?b then _ else _] => destruct b; cbn [conn_in conn_closed conn_out fst snd]
         end; cbn [length]; rewrite ?length_drop; lia.
Qed.

Lemma readUntilError_closed fuel c c' :
  readUntilError fuel c = Some c' -> conn_closed c' = conn_closed c.
Proof.
  revert c. induction fuel as [| fuel IH]; intros c H; [discriminate |]. simpl in H.
  pose proof (ReadMessage_closed c) as Hc.
  destruct (ReadMessage c) as [[payload | e] c1]; simpl in Hc.
  - rewrite (IH c1 H). exact Hc.
  - injection H as <-. exact Hc.
Qed.

Lemma readUntilError_in_le fuel c c' :
  readUntilError fuel c = Some c' -> (length (conn_in c') <= length (conn_in c))%nat.
Proof.
  revert c. induction fuel as [| fuel IH]; intros c H; [discriminate |]. simpl in H.
  pose proof (ReadMessage_in_le c) as Hc.
  destruct (ReadMessage c) as [[payload | e] c1]; simpl in Hc.
  - specialize (IH c1 H). lia.
  - injection H as <-. exact Hc.
Qed.

(** A request other than [subscribeEvents]: the handler writes one reply
    and leaves the connection otherwise alone; neither the reply nor the
    state of the backend depends on the connection. *)
Lemma Handle_replied payload (s : St) :
  subscribes payload = false ->
  exists ok members s', forall conn,
    Handle backend payload (conn, s) =
      replied (JObject (("success", JBool ok) :: members)) conn s'.
Proof.
  unfold subscribes, Handle.
  destruct (json_Unmarshal payload (zero : Request)) as [req [e |]]; intros Hsub.
  - eexists _, _, s. intros conn. rewrite reply_WriteError. reflexivity.
  - apply String.eqb_neq in Hsub. cbn [switch methods]. by_method req;
      unfold handleConfigure, handleCreateVM, handleStartVM, handleStopVM, handleIsRunning,
        handleIsGuestConnected, handleSpawn, handleKill, handleWriteStdin,
        handleIsProcessRunning, handleMountPath, handleReadFile, handleInstallSdk,
        handleAddApprovedOauthToken, handleSetDebugLogging, handleGetDownloadStatus;
      cbn [fst snd]; break_match;
      eexists _, _, _; intros conn;
      rewrite ?reply_WriteError, ?reply_WriteResponse; reflexivity.
Qed.

(** A request for [subscribeEvents]: one reply is written, the rest is
    reading. *)
Lemma Handle_subscribes payload (s : St) :
  subscribes payload = true ->
  exists ok members, forall conn,
    let conn' := (Handle backend payload (conn, s)).1 in
    conn_out conn' = conn_out conn ++ [frame (json_Marshal (JObject (("success", JBool ok) :: members)))] /\
    conn_closed conn' = conn_closed conn /\
    (length (conn_in conn') <= length (conn_in conn))%nat.
Proof.
  unfold subscribes, Handle.
  destruct (json_Unmarshal payload (zero : Request)) as [req [e |]]; intros Hsub;
    [discriminate |].
  apply String.eqb_eq in Hsub. cbn [switch methods]. by_method req.
  unfold handleSubscribeEvents. cbn [fst snd].
  destruct (SubscribeEvents backend _ s) as [[h | e] s1].
  - eexists _, _. intros conn. rewrite reply_WriteResponse. unfold replied.
    destruct (readUntilError _ _) as [c' |] eqn:Hr; cbn [fst].
    + rewrite (readUntilError_out _ _ _ Hr), (readUntilError_closed _ _ _ Hr).
      apply readUntilError_in_le in Hr.
      split; [reflexivity | split; [reflexivity | exact Hr]].
    + split; [reflexivity | split; reflexivity].
  - eexists _, _. intros conn. rewrite reply_WriteError.
    split; [reflexivity | split; reflexivity].
Qed.

(** Whatever the payload, one frame is added to the log of the connection. *)
Lemma Handle_one_reply_out payload conn (s : St) :
  exists x, conn_out (Handle backend payload (conn, s)).1 = conn_out conn ++ [x].
Proof.
  destruct (subscribes payload) eqn:Hsub.
  - destruct (Handle_subscribes payload s Hsub) as (ok & members & H).
    destruct (H conn) as (H1 & _). eexists. exact H1.
  - destruct (Handle_replied payload s Hsub) as (ok & members & s' & H).
    rewrite H. eexists. reflexivity.
Qed.

(** X5: every request gets exactly one reply.  Whatever the payload,
    [Handle] makes one write on the connection, a frame holding a document
    whose first member is success; it does not close the connection; and
    unless the payload is a request for subscribeEvents it reads nothing
    from it, and neither the reply nor the effect on the backend depends on
    the connection. *)
Theorem Handle_one_reply (payload : bytes) (s : St) :
  exists (ok : bool) (members : list (string * json)) (s' : St),
    (forall conn,
       let conn' := (Handle backend payload (conn, s)).1 in
       conn_out conn' =
         conn_out conn ++ [frame (json_Marshal (JObject (("success", JBool ok) :: members)))] /\
       conn_closed conn' = conn_closed conn) /\
    (subscribes payload = false ->
     forall conn,
       Handle backend payload (conn, s) =
         (mkConn (conn_in conn) (conn_closed conn)
            (conn_out conn ++ [frame (json_Marshal (JObject (("success", JBool ok) :: members)))]),
          s')).
Proof.
  destruct (subscribes payload) eqn:Hsub.
  - destruct (Handle_subscribes payload s Hsub) as (ok & members & H).
    exists ok, members, s. split; [| discriminate].
    intros conn. destruct (H conn) as (H1 & H2 & _). split; assumption.
  - destruct (Handle_replied payload s Hsub) as (ok & members & s' & H).
    exists ok, members, s'. split.
    + intros conn. cbv zeta. rewrite H. split; reflexivity.
    + intros _ conn. rewrite H. reflexivity.
Qed.

(** X6: an error of the backend is passed on as it is.  When the operation
    of a request reports the error [e], the reply is the failure document
    whose error member is [e], and the backend is left as the operation left
    it; when [e] is the empty text the error member is left out, the reply
    is success false alone. *)
Theorem Handle_backend_error (payload : bytes) (req : Request) (conn : Conn) (s s' : St)
    (e : string) :
  json_Unmarshal payload (zero : Request) = (req, None) ->
  operation_error backend req s = Some (e, s') ->
  Handle backend payload (conn, s) =
    replied (JObject (("success", JBool false) ::
                      if String.eqb e "" then [] else [("error", JString e)])) conn s'.
Proof.
  intros Hreq Hres.
  change (JObject (("success", JBool false) ::
                   if String.eqb e "" then [] else [("error", JString e)]))
    with (Response_document (mkResponse false None e)).
  unfold Handle. rewrite Hreq. unfold operation_error in Hres.
  cbn [switch methods] in *. by_method req; cbn [mjoin option_join] in Hres; try discriminate;
    unfold handleConfigure, handleCreateVM, handleStartVM, handleStopVM, handleIsRunning,
      handleIsGuestConnected, handleSpawn, handleKill, handleWriteStdin,
      handleIsProcessRunning, handleMountPath, handleReadFile, handleInstallSdk,
      handleAddApprovedOauthToken, handleSubscribeEvents;
    cbn [fst snd] in *; break_match; simplify_eq;
    rewrite reply_WriteError; reflexivity.
Qed.

(** X7: the id of a request is not used.  Two payloads that decode to
    requests with the same method and the same params are handled alike,
    whatever their ids: the same reply, the same effect. *)
Theorem Handle_ignores_id (p1 p2 : bytes) (st : Conn * St) :
  let d1 := json_Unmarshal p1 (zero : Request) in
  let d2 := json_Unmarshal p2 (zero : Request) in
  d1.2 = None -> d2.2 = None ->
  Method d1.1 = Method d2.1 -> Params d1.1 = Params d2.1 ->
  Handle backend p1 st = Handle backend p2 st.
Proof.
  intros d1 d2. subst d1 d2. unfold Handle.
  destruct (json_Unmarshal p1 (zero : Request)) as [[m1 q1 i1] e1].
  destruct (json_Unmarshal p2 (zero : Request)) as [[m2 q2 i2] e2].
  cbn [fst snd Method Params]. intros -> -> -> ->.
  cbn [switch methods Method].
  repeat match goal with
         | |- context [String.eqb m2 ?k] => destruct (String.eqb m2 k); [reflexivity |]
         end.
  reflexivity.
Qed.


(** Reading and dropping frames until a read fails: the frames in front
    are taken one after the other, and the loop stops where the first read
    fails. *)
Lemma readUntilError_frames ds tail cl out fuel :
  Forall (fun d => 1 <= Z.of_nat (length d) <= 10 * 2 ^ 20) ds ->
  is_Err (ReadMessage (reader tail)).1 ->
  (length ds < fuel)%nat ->
  readUntilError fuel (mkConn (concat (map frame ds) ++ tail) cl out) =
    Some (mkConn (conn_in (ReadMessage (reader tail)).2) cl out).
Proof.
  intros Hds Htail. revert fuel.
  induction Hds as [| d ds Hd _ IH]; intros fuel Hf.
  - destruct fuel as [| fuel]; [simpl in Hf; lia |]. simpl.
    rewrite ReadMessage_reader.
    destruct (ReadMessage (reader tail)) as [[p | e] c']; [contradiction | reflexivity].
  - destruct fuel as [| fuel]; [simpl in Hf; lia |].
    cbn [map concat readUntilError]. rewrite <- app_assoc.
    rewrite ReadMessage_frame by exact Hd. apply IH. simpl in Hf. lia.
Qed.

Lemma concat_frames_length ds :
  (length ds <= length (concat (map frame ds)))%nat.
Proof.
  induction ds as [| d ds IH]; [reflexivity |].
  cbn [map concat]. rewrite length_app, frame_length. simpl. lia.
Qed.

(** X9: a subscription takes over the connection.  When the backend
    accepts the subscription, the handler writes the acknowledgement and
    then reads and drops every frame that follows, up to the first read
    that fails; then it cancels the subscription.  So no request sent after
    subscribeEvents on the same connection is dispatched or answered before
    a read has failed. *)
Theorem subscribeEvents_takes_over (payload : bytes) (req : Request) (conn : Conn) (s s' : St)
    (h : nat) (ds : list bytes) (tail : bytes) :
  json_Unmarshal payload (zero : Request) = (req, None) ->
  Method req = "subscribeEvents" ->
  SubscribeEvents backend (vn_Name (optionalName req)) s = (Ok h, s') ->
  conn_in conn = concat (map frame ds) ++ tail ->
  Forall (fun d => 1 <= Z.of_nat (length d) <= 10 * 2 ^ 20) ds ->
  is_Err (ReadMessage (reader tail)).1 ->
  Handle backend payload (conn, s) =
    (mkConn (conn_in (ReadMessage (reader tail)).2) (conn_closed conn)
       (conn_out conn ++
        [frame (json_Marshal
           (JObject [("success", JBool true); ("result", JObject [("subscribed", JBool true)])]))]),
     Cancel backend h s').
Proof.
  intros Hreq Hm Hsub Hin Hds Htail. unfold Handle. rewrite Hreq.
  cbn [switch methods]. by_method req.
  unfold handleSubscribeEvents. cbn [fst snd]. rewrite Hsub.
  rewrite reply_WriteResponse. unfold replied. cbn [conn_in]. rewrite Hin.
  rewrite readUntilError_frames; [reflexivity | exact Hds | exact Htail |].
  apply Nat.lt_succ_r. etransitivity; [apply concat_frames_length |].
  rewrite length_app. apply Nat.le_add_r.
Qed.

End DispatcherReplies.

(** ** Serving a connection *)

Section Connection.
Import Frame Pipe Service.
Context {codec : Codec} {St : Type} (backend : VMBackend St).

(** The state after the requests [ps] have been handled one after the
    other. *)
Lemma foldl_Handle_replied ps i i' cl out (s : St) :
  Forall (fun p => subscribes p = false) ps ->
  let r := foldl (fun st p => Handle backend p st) (mkConn i cl out, s) ps in
  let r' := foldl (fun st p => Handle backend p st) (mkConn i' cl out, s) ps in
  r.2 = r'.2 /\ conn_out r.1 = conn_out r'.1 /\ conn_in r.1 = i /\ conn_closed r.1 = cl /\
  length (conn_out r.1) = (length out + length ps)%nat.
Proof.
  intros Hps. revert out s. induction Hps as [| p ps Hp _ IH]; intros out s.
  - simpl. repeat split; try reflexivity. lia.
  - cbn [foldl].
    destruct (Handle_replied backend p s Hp) as (ok & members & s' & H).
    rewrite !H. unfold replied. cbn [conn_in conn_closed conn_out].
    destruct (IH (out ++ [frame (json_Marshal (JObject (("success", JBool ok) :: members)))]) s')
      as (H1 & H2 & H3 & H4 & H5).
    repeat split; try assumption. rewrite H5, length_app. simpl. lia.
Qed.

Lemma connectionLoop_frames ps tail cl out (s : St) fuel :
  Forall (fun p => 1 <= Z.of_nat (length p) <= 10 * 2 ^ 20) ps ->
  Forall (fun p => subscribes p = false) ps ->
  is_Err (ReadMessage (reader tail)).1 ->
  (length ps < fuel)%nat ->
  connectionLoop backend fuel None (mkConn (concat (map frame ps) ++ tail) cl out, s) =
    Some (let r := foldl (fun st p => Handle backend p st) (mkConn [] cl out, s) ps in
          (mkConn (conn_in (ReadMessage (reader tail)).2) true (conn_out r.1), r.2)).
Proof.
  intros Hlen Hsub Htail. revert out s fuel.
  induction Hlen as [| p ps Hp _ IH]; intros out s fuel Hf.
  - destruct fuel as [| fuel]; [simpl in Hf; lia |]. simpl.
    rewrite ReadMessage_reader.
    destruct (ReadMessage (reader tail)) as [[q | e] c']; [contradiction | reflexivity].
  - destruct fuel as [| fuel]; [simpl in Hf; lia |].
    apply Forall_cons in Hsub as [Hs Hsub].
    cbn [map concat connectionLoop fst snd fmap option_fmap option_map]. rewrite <- app_assoc.
    rewrite ReadMessage_frame by exact Hp.
    destruct (Handle_replied backend p s Hs) as (ok & members & s' & H).
    cbn [foldl]. rewrite !H. unfold replied. cbn [conn_in conn_closed conn_out].
    apply IH; [exact Hsub | simpl in Hf; lia].
Qed.

Lemma connectionLoop_quit ps tail cl out (s : St) fuel k :
  Forall (fun p => 1 <= Z.of_nat (length p) <= 10 * 2 ^ 20) ps ->
  Forall (fun p => subscribes p = false) ps ->
  (k <= length ps)%nat -> (k < fuel)%nat ->
  connectionLoop backend fuel (Some k) (mkConn (concat (map frame ps) ++ tail) cl out, s) =
    Some (let r := foldl (fun st p => Handle backend p st) (mkConn [] cl out, s) (take k ps) in
          (mkConn (concat (map frame (drop k ps)) ++ tail) true (conn_out r.1), r.2)).
Proof.
  intros Hlen Hsub. revert out s fuel k.
  induction Hlen as [| p ps Hp _ IH]; intros out s fuel k Hk Hf.
  - destruct fuel as [| fuel]; [lia |]. simpl in Hk.
    assert (k = 0%nat) as -> by lia. reflexivity.
  - destruct fuel as [| fuel]; [lia |].
    destruct k as [| k]; [reflexivity |].
    apply Forall_cons in Hsub as [Hs Hsub].
    cbn [map concat connectionLoop fst snd fmap option_fmap option_map Nat.pred take drop].
    rewrite <- app_assoc. rewrite ReadMessage_frame by exact Hp.
    destruct (Handle_replied backend p s Hs) as (ok & members & s' & H).
    cbn [foldl]. rewrite !H. unfold replied. cbn [conn_in conn_closed conn_out].
    apply IH; [exact Hsub | simpl in Hk; lia | lia].
Qed.

(** X10: one connection is served in order.  When the client has sent the
    requests [ps], none of them a subscription, and the stream then ends or
    goes on with something that is not a frame, [handleConnection] handles
    the requests one after the other, each seeing the backend as the one
    before left it, writes exactly one reply for each, in the order of the
    requests, stops at the first read that fails and closes the connection;
    nothing behind that point is handled.  When the server is stopped, the
    loop leaves before the next read: the requests read so far have been
    answered, the others are left unread. *)
Theorem handleConnection_in_order (ps : list bytes) (tail : bytes) (s : St) :
  Forall (fun p => 1 <= Z.of_nat (length p) <= 10 * 2 ^ 20) ps ->
  Forall (fun p => subscribes p = false) ps ->
  is_Err (ReadMessage (reader tail)).1 ->
  let after qs := foldl (fun st p => Handle backend p st) (reader [], s) qs in
  handleConnection backend None (reader (concat (map frame ps) ++ tail), s) =
    Some (mkConn (conn_in (ReadMessage (reader tail)).2) true (conn_out (after ps).1),
          (after ps).2) /\
  length (conn_out (after ps).1) = length ps /\
  (forall k, (k <= length ps)%nat ->
     handleConnection backend (Some k) (reader (concat (map frame ps) ++ tail), s) =
       Some (mkConn (concat (map frame (drop k ps)) ++ tail) true
               (conn_out (after (take k ps)).1),
             (after (take k ps)).2)).
Proof.
  intros Hlen Hsub Htail after.
  assert (Hfuel : (length ps <= length (concat (map frame ps) ++ tail))%nat).
  { etransitivity; [apply concat_frames_length |]. rewrite length_app. apply Nat.le_add_r. }
  split; [| split].
  - unfold handleConnection, reader. cbn [fst conn_in].
    rewrite connectionLoop_frames; [reflexivity | assumption.. |].
    apply Nat.lt_succ_r. exact Hfuel.
  - destruct (foldl_Handle_replied ps [] [] false [] s Hsub) as (_ & _ & _ & _ & H).
    exact H.
  - intros k Hk. unfold handleConnection, reader. cbn [fst conn_in].
    rewrite connectionLoop_quit; [reflexivity | assumption.. |].
    apply Nat.lt_succ_r. etransitivity; [exact Hk | exact Hfuel].
Qed.

(** The loop ends, whatever is on the connection. *)
Lemma Handle_in_le payload conn (s : St) :
  (length (conn_in (Handle backend payload (conn, s)).1) <= length (conn_in conn))%nat.
Proof.
  destruct (subscribes payload) eqn:Hsub.
  - destruct (Handle_subscribes backend payload s Hsub) as (ok & members & H).
    destruct (H conn) as (_ & _ & Hle). exact Hle.
  - destruct (Handle_replied backend payload s Hsub) as (ok & members & s' & H).
    rewrite H. reflexivity.
Qed.

Lemma connectionLoop_total fuel quit (st : Conn * St) :
  (length (conn_in st.1) < fuel)%nat -> is_Some (connectionLoop backend fuel quit st).
Proof.
  revert quit st. induction fuel as [| fuel IH]; intros quit [conn s] Hf; [lia |].
  cbn [connectionLoop fst snd] in *.
  destruct quit as [[| k] |]; [eauto | |];
    (destruct (ReadMessage conn) as [[p | e] c1] eqn:Hr; [| eauto];
     apply IH; apply ReadMessage_Ok_shrinks in Hr;
     pose proof (Handle_in_le p c1 s) as Hle;
     destruct (Handle backend p (c1, s)) as [c2 s2]; cbn [fst] in *; lia).
Qed.

(** X11: a connection handler always comes to an end, and it leaves the
    connection closed.  Whatever bytes the client sends and however the
    backend answers, with or without a subscription among the requests,
    [handleConnection] returns once the client's input has ended, and it
    never takes a reply back: the replies written at the start are still
    there at the end. *)
Theorem handleConnection_ends (quit : option nat) (conn : Conn) (s : St) :
  exists conn' s',
    handleConnection backend quit (conn, s) = Some (conn', s') /\
    conn_closed conn' = true /\
    conn_out conn `prefix_of` conn_out conn'.
Proof.
  unfold handleConnection. cbn [fst].
  assert (Hgen : forall fuel quit conn s conn' s',
            connectionLoop backend fuel quit (conn, s) = Some (conn', s') ->
            conn_closed conn' = true /\ conn_out conn `prefix_of` conn_out conn').
  { clear. induction fuel as [| fuel IH]; intros quit conn s conn' s' H; [discriminate |].
    cbn [connectionLoop fst snd] in H.
    assert (Hread : match ReadMessage conn with
                    | (Err _, c1) => Some (Close c1, s)
                    | (Ok payload, c1) =>
                        connectionLoop backend fuel (Nat.pred <$> quit)
                          (Handle backend payload (c1, s))
                    end = Some (conn', s') ->
                    conn_closed conn' = true /\ conn_out conn `prefix_of` conn_out conn').
    { pose proof (ReadMessage_out conn) as Ho.
      destruct (ReadMessage conn) as [[p | e] c1]; cbn [snd] in Ho.
      - intros Hl. destruct (Handle_one_reply_out backend p c1 s) as (x & Hx).
        destruct (Handle backend p (c1, s)) as [c2 s2] eqn:Hh. cbn [fst] in Hx.
        apply IH in Hl as [Hc Hp]. split; [exact Hc |].
        etransitivity; [| exact Hp]. rewrite Hx, Ho. apply prefix_app_r. reflexivity.
      - intros [= <- <-]. split; [reflexivity |]. simpl. rewrite Ho. reflexivity. }
    destruct quit as [[| k] |]; [| exact (Hread H) | exact (Hread H)].
    injection H as <- <-. split; reflexivity. }
  destruct (connectionLoop_total (S (length (conn_in conn))) quit (conn, s)) as [[conn' s'] H];
    [simpl; lia |].
  exists conn', s'. split; [exact H |]. eapply Hgen. exact H.
Qed.

End Connection.

(** ** The process tracker: failures, life cycle, registry *)

Section TrackerLifeCycle.
Import Events Native Run Registry.

Lemma spawn_Err id cmd args env cwd vm real mounts os pt e pt' :
  spawn id cmd args env cwd vm real mounts os pt = (Err e, pt') ->
  objects pt' = objects pt /\ processes pt' = processes pt /\ signalled pt' = signalled pt /\
  ((exists why,
      os_StdinPipe os = None /\ os_StdoutPipe os = None /\ os_StderrPipe os = None /\
      os_Start os = Err why /\ e = "starting process: " +:+ why /\
      emitted pt' =
        emitted pt ++
        [EvError (mkErrorEvent "error" (assigned_id id pt)
                    ("failed to start process: " +:+ why) true)]) \/
   (emitted pt' = emitted pt /\
    exists why,
      (os_StdinPipe os = Some why /\ e = "creating stdin pipe: " +:+ why) \/
      (os_StdinPipe os = None /\ os_StdoutPipe os = Some why /\
       e = "creating stdout pipe: " +:+ why) \/
      (os_StdinPipe os = None /\ os_StdoutPipe os = None /\ os_StderrPipe os = Some why /\
       e = "creating stderr pipe: " +:+ why))).
Proof.
  unfold spawn, assigned_id.
  destruct (String.eqb id ""), (os_StdinPipe os) as [e1 |], (os_StdoutPipe os) as [e2 |],
    (os_StderrPipe os) as [e3 |], (os_Start os) as [pid | e4];
    cbv beta iota zeta; intros H; simplify_eq; simpl;
    (split; [reflexivity |]); (split; [reflexivity |]); (split; [reflexivity |]);
    first [left; eexists; repeat split; reflexivity
          | right; split; [reflexivity |]; eexists;
            first [left; split; reflexivity
                  | right; left; repeat split; reflexivity
                  | right; right; repeat split; reflexivity]].
Qed.

(** X12: a spawn that fails leaves no process behind.  The registry and
    the records are as before and no signal is sent.  When a pipe cannot be
    created the error names the pipe and the cause, and no event is emitted;
    when the process cannot be started the error is "starting process: "
    followed by the cause, and exactly one event is emitted, an error event
    marked fatal that carries the id the call had settled on and the text
    "failed to start process: " followed by the cause.  There is no other
    way to fail.  A failed call with an empty id has still used up a number:
    the next generated id skips it. *)
Theorem spawn_failure id cmd args (env : gmap string string) cwd vm real mounts os pt e pt' :
  spawn id cmd args env cwd vm real mounts os pt = (Err e, pt') ->
  (forall id0, lookup_process id0 pt' = lookup_process id0 pt) /\
  signalled pt' = signalled pt /\
  ((exists why,
      os_StdinPipe os = None /\ os_StdoutPipe os = None /\ os_StderrPipe os = None /\
      os_Start os = Err why /\ e = "starting process: " +:+ why /\
      emitted pt' =
        emitted pt ++
        [EvError (mkErrorEvent "error" (assigned_id id pt)
                    ("failed to start process: " +:+ why) true)]) \/
   (emitted pt' = emitted pt /\
    exists why,
      (os_StdinPipe os = Some why /\ e = "creating stdin pipe: " +:+ why) \/
      (os_StdinPipe os = None /\ os_StdoutPipe os = Some why /\
       e = "creating stdout pipe: " +:+ why) \/
      (os_StdinPipe os = None /\ os_StdoutPipe os = None /\ os_StderrPipe os = Some why /\
       e = "creating stderr pipe: " +:+ why))) /\
  (id = "" ->
   forall cmd2 args2 env2 cwd2 vm2 real2 mounts2 os2 id2 pt2,
     spawn "" cmd2 args2 env2 cwd2 vm2 real2 mounts2 os2 pt' = (Ok id2, pt2) ->
     id2 = "proc-" +:+ pretty (int_succ (int_succ (nextID pt)))).
Proof.
  intros Hs.
  pose proof (spawn_nextID id cmd args env cwd vm real mounts os pt) as Hn.
  rewrite Hs in Hn. cbn [snd] in Hn.
  destruct (spawn_Err _ _ _ _ _ _ _ _ _ _ _ _ Hs) as (Hobj & Hproc & Hsig & Hev).
  split; [| split; [exact Hsig | split; [exact Hev |]]].
  - intros id0. unfold lookup_process. rewrite Hobj, Hproc. reflexivity.
  - intros -> cmd2 args2 env2 cwd2 vm2 real2 mounts2 os2 id2 pt2 Hs2.
    apply spawn_Ok in Hs2 as [-> _]. unfold assigned_id. simpl in *. rewrite Hn. reflexivity.
Qed.

Lemma consistent_lookup pt id p :
  consistent pt -> processes pt !! id = Some p ->
  exists lp, objects pt !! p = Some lp /\ lp_id lp = id /\ is_Some (cmd_Process lp).
Proof.
  intros Hc Hp. specialize (Hc id p Hp). simpl in Hc.
  destruct (objects pt !! p) as [lp |]; [| contradiction]. exists lp. tauto.
Qed.

Lemma consistent_intro pt :
  (forall id p, processes pt !! id = Some p ->
     exists lp, objects pt !! p = Some lp /\ lp_id lp = id /\ is_Some (cmd_Process lp)) ->
  consistent pt.
Proof.
  intros H id p Hp. simpl. destruct (H id p Hp) as (lp & -> & Hid & Hpr). tauto.
Qed.

Lemma consistent_new dbg : consistent (newProcessTracker dbg).
Proof. intros id p Hp. simpl in Hp. rewrite lookup_empty in Hp. discriminate. Qed.

Lemma objects_foldl_emit {A} (f : A -> Event) (l : list A) pt :
  objects (foldl (fun pt a => emit (f a) pt) pt l) = objects pt /\
  processes (foldl (fun pt a => emit (f a) pt) pt l) = processes pt.
Proof.
  revert pt. induction l as [| a l IH]; intros pt; simpl; [split; reflexivity |].
  destruct (IH (emit (f a) pt)) as [-> ->]. split; reflexivity.
Qed.

Lemma streamOutput_registry id r stream pt :
  objects (streamOutput id r stream pt) = objects pt /\
  processes (streamOutput id r stream pt) = processes pt.
Proof.
  unfold streamOutput. destruct (scan_err r); simpl; apply objects_foldl_emit.
Qed.

Lemma kill_registry processID signal getpgid pt :
  objects (kill processID signal getpgid pt).2 = objects pt /\
  processes (kill processID signal getpgid pt).2 = processes pt /\
  emitted (kill processID signal getpgid pt).2 = emitted pt.
Proof.
  unfold kill. destruct (lookup_process processID pt) as [[p lp] |]; [| repeat split].
  destruct (cmd_Process lp) as [pid |]; [| repeat split].
  destruct (getpgid pid); repeat split.
Qed.

(** The two updates in place keep the id and the process of every record. *)
Lemma reap_objects id p w pt :
  processes (reap id p w pt) = processes pt /\
  length (objects (reap id p w pt)) = length (objects pt) /\
  forall q,
    objects (reap id p w pt) !! q =
      (fun lp => if bool_decide (q = p)
                 then mkLocalProcess (lp_id lp) (cmd_Path lp) (cmd_Args lp) (cmd_Dir lp)
                        (cmd_Env lp) (cmd_Process lp) (stdin_ops lp) true (vmPrefix lp)
                        (realPrefix lp) (reverseMap lp) (mountRemap lp)
                 else lp) <$> objects pt !! q.
Proof.
  assert (H : forall pt0, processes (close_done p pt0) = processes pt0 /\
            length (objects (close_done p pt0)) = length (objects pt0) /\
            forall q, objects (close_done p pt0) !! q =
              (fun lp => if bool_decide (q = p)
                 then mkLocalProcess (lp_id lp) (cmd_Path lp) (cmd_Args lp) (cmd_Dir lp)
                        (cmd_Env lp) (cmd_Process lp) (stdin_ops lp) true (vmPrefix lp)
                        (realPrefix lp) (reverseMap lp) (mountRemap lp)
                 else lp) <$> objects pt0 !! q).
  { intros pt0. unfold close_done. cbn [processes objects].
    split; [reflexivity |]. split; [apply length_alter |].
    intros q. case_bool_decide as Hq.
    - subst q. rewrite list_lookup_alter_eq. reflexivity.
    - rewrite list_lookup_alter_ne by congruence.
      destruct (objects pt0 !! q); reflexivity. }
  unfold reap. destruct w as [| code [sg |] |]; cbv beta iota zeta;
    repeat match goal with |- context [if ?b then _ else _] => destruct b end;
    match goal with |- context [close_done p ?x] => exact (H x) end.
Qed.

Lemma writeStdin_objects processID data race pt :
  processes (writeStdin processID data race pt).2 = processes pt /\
  length (objects (writeStdin processID data race pt).2) = length (objects pt) /\
  forall q lp', objects (writeStdin processID data race pt).2 !! q = Some lp' ->
    exists lp, objects pt !! q = Some lp /\ lp_id lp' = lp_id lp /\
      cmd_Process lp' = cmd_Process lp /\ done lp' = done lp.
Proof.
  unfold writeStdin. destruct (lookup_process processID pt) as [[p lp0] |];
    [| split; [reflexivity | split; [reflexivity | intros q lp' H; eauto]]].
  destruct (done lp0); [split; [reflexivity | split; [reflexivity | intros q lp' H; eauto]] |].
  destruct (select race);
    try (split; [reflexivity | split; [reflexivity | intros q lp' H; eauto]]).
  unfold record_stdin. cbn [snd processes objects].
  split; [reflexivity |]. split; [apply length_alter |].
  intros q lp' H. destruct (decide (q = p)) as [-> | Hne].
  - rewrite list_lookup_alter_eq in H.
    destruct (objects pt !! p) as [lp |]; [| discriminate]. injection H as <-.
    exists lp. repeat split.
  - rewrite list_lookup_alter_ne in H by congruence. eauto.
Qed.

(** One step keeps the registry consistent and forgets no entry. *)
Lemma exec_registry s pt r pt' :
  exec s pt = (r, pt') -> consistent pt ->
  consistent pt' /\
  (forall id, is_Some (processes pt !! id) -> is_Some (processes pt' !! id)) /\
  (forall id, r = Some (Ok id) -> is_Some (processes pt' !! id)).
Proof.
  intros He Hc. destruct s as [c | id0 r0 stream | id0 p w | pid sig getpgid | pid data race];
    simpl in He.
  - unfold do_spawn in He.
    destruct (spawn _ _ _ _ _ _ _ _ _ pt) as [[id1 | e] pt1] eqn:Hs; injection He as <- <-.
    + apply spawn_Ok in Hs as (_ & lp & Hid & _ & _ & _ & Hpr & Hobj & Hproc & _).
      split; [| split].
      * apply consistent_intro. intros id p Hp. rewrite Hproc in Hp. rewrite Hobj.
        destruct (decide (id = id1)) as [-> | Hne].
        -- rewrite lookup_insert_eq in Hp. injection Hp as <-.
           exists lp. rewrite lookup_app_r by lia. rewrite Nat.sub_diag.
           split; [reflexivity |]. split; [exact Hid |].
           destruct (cmd_Process lp); [eauto | contradiction].
        -- rewrite lookup_insert_ne in Hp by congruence.
           destruct (consistent_lookup pt id p Hc Hp) as (lp0 & H0 & H1 & H2).
           exists lp0. split; [| tauto]. apply lookup_app_l_Some. exact H0.
      * intros id [p Hp]. rewrite Hproc.
        destruct (decide (id = id1)) as [-> | Hne];
          [rewrite lookup_insert_eq | rewrite lookup_insert_ne by congruence]; eauto.
      * intros id [= <-]. rewrite Hproc, lookup_insert_eq. eauto.
    + apply spawn_Err in Hs as (Hobj & Hproc & _).
      split; [| split; [| intros ? [=]]].
      * intros id p Hp. rewrite Hproc in Hp. specialize (Hc id p Hp). simpl in *.
        rewrite Hobj. exact Hc.
      * intros id. rewrite Hproc. tauto.
  - injection He as <- <-. destruct (streamOutput_registry id0 r0 stream pt) as [Ho Hp].
    split; [| split; [| intros ? [=]]].
    + intros id p Hq. rewrite Hp in Hq. specialize (Hc id p Hq). simpl in *.
      rewrite Ho. exact Hc.
    + intros id. rewrite Hp. tauto.
  - injection He as <- <-. destruct (reap_objects id0 p w pt) as (Hp & _ & Ho).
    split; [| split; [| intros ? [=]]].
    + apply consistent_intro. intros id q Hq. rewrite Hp in Hq.
      destruct (consistent_lookup pt id q Hc Hq) as (lp0 & H0 & H1 & H2).
      rewrite Ho, H0. simpl. eexists. split; [reflexivity |].
      case_bool_decide; simpl; tauto.
    + intros id. rewrite Hp. tauto.
  - injection He as <- <-. destruct (kill_registry pid sig getpgid pt) as (Ho & Hp & _).
    split; [| split; [| intros ? [=]]].
    + intros id p Hq. rewrite Hp in Hq. specialize (Hc id p Hq). simpl in *.
      rewrite Ho. exact Hc.
    + intros id. rewrite Hp. tauto.
  - injection He as <- <-. destruct (writeStdin_objects pid data race pt) as (Hp & Hl & Ho).
    split; [| split; [| intros ? [=]]].
    + apply consistent_intro. intros id q Hq. rewrite Hp in Hq.
      destruct (consistent_lookup pt id q Hc Hq) as (lp0 & H0 & H1 & H2).
      assert (Hlt : (q < length (objects (writeStdin pid data race pt).2))%nat).
      { rewrite Hl. eapply lookup_lt_Some. exact H0. }
      apply lookup_lt_is_Some in Hlt as [lp' Hlp'].
      destruct (Ho q lp' Hlp') as (lp1 & H3 & H4 & H5 & _).
      assert (lp1 = lp0) as -> by congruence.
      exists lp'. split; [exact Hlp' |]. rewrite H4, H5. tauto.
    + intros id. rewrite Hp. tauto.
Qed.

Lemma run_registry steps pt rs pt' :
  run steps pt = (rs, pt') -> consistent pt ->
  consistent pt' /\
  (forall id, is_Some (processes pt !! id) -> is_Some (processes pt' !! id)) /\
  (forall i id, rs !! i = Some (Some (Ok id)) -> is_Some (processes pt' !! id)).
Proof.
  revert pt rs pt'. induction steps as [| s steps IH]; intros pt rs pt' H Hc; simpl in H.
  - injection H as <- <-. split; [exact Hc |]. split; [tauto |].
    intros i id Hi. rewrite lookup_nil in Hi. discriminate.
  - destruct (exec s pt) as [r pt1] eqn:He. destruct (run steps pt1) as [rs1 pt2] eqn:Hr.
    injection H as <- <-.
    destruct (exec_registry s pt r pt1 He Hc) as (Hc1 & Hk1 & Hn1).
    destruct (IH pt1 rs1 pt2 Hr Hc1) as (Hc2 & Hk2 & Hn2).
    split; [exact Hc2 |]. split; [intros id Hid; apply Hk2, Hk1, Hid |].
    intros [| i] id Hi; simpl in Hi.
    + injection Hi as ->. apply Hk2, Hn1. reflexivity.
    + eapply Hn2. exact Hi.
Qed.

(** X13: the registry stays consistent and never shrinks.  Over any run of
    the tracker from a fresh one (spawns that succeed or fail, output
    readers, reapers, kills, writes to stdin, in any order and number),
    every entry of the registry points to an allocated record that carries
    the key as its id and holds a started process; and every id a spawn has
    returned is still registered at the end: no operation of the tracker
    removes an entry, not even the reaper of a process that has exited. *)
Theorem registry_consistent_and_growing (steps : list step) (dbg : bool) rs pt' :
  run steps (newProcessTracker dbg) = (rs, pt') ->
  consistent pt' /\
  (forall id p, processes pt' !! id = Some p ->
     exists lp, lookup_process id pt' = Some (p, lp) /\ lp_id lp = id /\
       is_Some (cmd_Process lp)) /\
  (forall i id, rs !! i = Some (Some (Ok id)) -> is_Some (lookup_process id pt')).
Proof.
  intros Hrun.
  destruct (run_registry steps _ rs pt' Hrun (consistent_new dbg)) as (Hc & _ & Hn).
  split; [exact Hc |].
  assert (Hl : forall id p, processes pt' !! id = Some p ->
            exists lp, lookup_process id pt' = Some (p, lp) /\ lp_id lp = id /\
              is_Some (cmd_Process lp)).
  { intros id p Hp. destruct (consistent_lookup pt' id p Hc Hp) as (lp & H0 & H1 & H2).
    exists lp. unfold lookup_process. rewrite Hp, H0. tauto. }
  split; [exact Hl |].
  intros i id Hi. destruct (Hn i id Hi) as [p Hp].
  destruct (Hl id p Hp) as (lp & -> & _). eauto.
Qed.

Lemma registry_consistent_and_growing_witness :
  is_Some (lookup_process "proc-1"
             (run [StepSpawn (Fixtures.cat_call "" 100);
                   StepReap "proc-1" 0 WaitOk;
                   StepKill "proc-1" "" (fun _ => None)]
                (newProcessTracker false)).2).
Proof.
  destruct (registry_consistent_and_growing
              [StepSpawn (Fixtures.cat_call "" 100);
               StepReap "proc-1" 0 WaitOk;
               StepKill "proc-1" "" (fun _ => None)] false
              (run [StepSpawn (Fixtures.cat_call "" 100);
                    StepReap "proc-1" 0 WaitOk;
                    StepKill "proc-1" "" (fun _ => None)]
                 (newProcessTracker false)).1
              (run [StepSpawn (Fixtures.cat_call "" 100);
                    StepReap "proc-1" 0 WaitOk;
                    StepKill "proc-1" "" (fun _ => None)]
                 (newProcessTracker false)).2) as (_ & _ & H).
  - vm_compute. reflexivity.
  - apply (H 0%nat). vm_compute. reflexivity.
Defined.



End TrackerLifeCycle.

(** ** Signals, exit events and the bytes that reach a child *)

Section Signals.
Import Events Native Registry.

(** The text of a number holds digits only, after a dash when it is
    negative. *)
Lemma pretty_N_go_digits x s :
  Forall (fun c => byte_to_Z c < 65) (bytes_of_string s) ->
  Forall (fun c => byte_to_Z c < 65) (bytes_of_string (pretty_N_go x s)).
Proof.
  revert s. induction (N.lt_wf_0 x) as [x _ IH]; intros s Hs.
  assert (x = 0 \/ 0 < x)%N as [-> | Hx] by lia.
  - rewrite pretty_N_go_0. exact Hs.
  - rewrite pretty_N_go_step by exact Hx. apply IH.
    + apply N.div_lt; [exact Hx | reflexivity].
    + simpl. constructor; [| exact Hs].
      unfold pretty_N_char.
      repeat match goal with |- context [match ?y with _ => _ end] => destruct y end;
        reflexivity.
Qed.

Lemma pretty_Z_chars (z : Z) :
  Forall (fun c => byte_to_Z c < 65) (bytes_of_string (pretty z)).
Proof.
  assert (HN : forall n : N, Forall (fun c => byte_to_Z c < 65) (bytes_of_string (pretty n))).
  { intros n. unfold pretty, pretty_N. destruct (decide (n = 0%N)).
    - repeat constructor.
    - apply pretty_N_go_digits. constructor. }
  destruct z as [| x | x]; unfold pretty, pretty_Z.
  - repeat constructor.
  - apply HN.
  - rewrite bytes_of_string_app. apply Forall_app. split; [repeat constructor | apply HN].
Qed.

(** Text without small letters and without bytes above the ASCII range is
    its own upper case. *)
Lemma ToUpper_fixed s :
  Forall (fun c => byte_to_Z c < 97) (bytes_of_string s) -> ToUpper s = s.
Proof.
  induction s as [| c s IH]; intros Hs; [reflexivity |].
  simpl in Hs. apply Forall_cons in Hs as [Hc Hs]. specialize (IH Hs).
  destruct c as [[] [] [] [] [] [] [] []];
    try (exfalso; vm_compute in Hc; discriminate Hc);
    cbn [ToUpper]; rewrite IH; reflexivity.
Qed.

Lemma cut_prefix_append p s : cut_prefix p (p +:+ s) = Some s.
Proof.
  induction p as [| a p IH]; [destruct s; reflexivity |].
  rewrite append_cons, cut_prefix_cons, Ascii.eqb_refl. exact IH.
Qed.

Lemma TrimPrefix_append p s : TrimPrefix (p +:+ s) p = s.
Proof. unfold TrimPrefix. rewrite cut_prefix_append. reflexivity. Qed.

Lemma signalName_cases sig :
  ((sig ∈ [SIGTERM; SIGKILL; SIGINT; SIGQUIT; SIGHUP; SIGUSR1; SIGUSR2; SIGPIPE; SIGABRT;
           SIGSEGV]) /\
   (signalName sig ∈ ["SIGTERM"; "SIGKILL"; "SIGINT"; "SIGQUIT"; "SIGHUP"; "SIGUSR1"; "SIGUSR2";
                      "SIGPIPE"; "SIGABRT"; "SIGSEGV"])) \/
  ((sig ∉ [SIGTERM; SIGKILL; SIGINT; SIGQUIT; SIGHUP; SIGUSR1; SIGUSR2; SIGPIPE; SIGABRT;
           SIGSEGV]) /\
   signalName sig = "SIG" +:+ pretty sig).
Proof.
  unfold signalName.
  repeat match goal with
         | |- context [?a =? ?b] =>
             destruct (Z.eqb_spec a b) as [-> | ?];
             [left; split; apply (bool_decide_eq_true_1 _); vm_compute; reflexivity |]
         end.
  right. split; [| reflexivity].
  rewrite !not_elem_of_cons. repeat split; try assumption. apply not_elem_of_nil.
Qed.

(** X15: signal names, there and back.  The name [signalName] gives a
    signal selects, given to [mapSignal], the same signal for SIGKILL,
    SIGINT, SIGQUIT, SIGHUP, SIGUSR1 and SIGUSR2, and SIGTERM for every
    other signal: for SIGTERM itself, for SIGPIPE, SIGABRT and SIGSEGV, and
    for the signals named by their number.  A name is recognised in any
    letter case, with or without the prefix SIG.  Whatever the name,
    [mapSignal] selects one of the seven signals, no other. *)
Theorem signal_names_round_trip :
  (forall sig,
     mapSignal (signalName sig) =
       if bool_decide (sig ∈ [SIGKILL; SIGINT; SIGQUIT; SIGHUP; SIGUSR1; SIGUSR2])
       then sig else SIGTERM) /\
  (forall name word sig,
     (word, sig) ∈ [("KILL", SIGKILL); ("INT", SIGINT); ("QUIT", SIGQUIT); ("HUP", SIGHUP);
                    ("USR1", SIGUSR1); ("USR2", SIGUSR2)] ->
     ToUpper name = word \/ ToUpper name = "SIG" +:+ word ->
     mapSignal name = sig) /\
  (forall name,
     mapSignal name ∈ [SIGKILL; SIGINT; SIGQUIT; SIGHUP; SIGUSR1; SIGUSR2; SIGTERM]).
Proof.
  split; [| split].
  - intros sig. destruct (signalName_cases sig) as [[Hin _] | [Hout Hname]].
    + unfold signalName.
      repeat (apply elem_of_cons in Hin as [-> | Hin]; [vm_compute; reflexivity |]).
      inversion Hin.
    + rewrite Hname. rewrite bool_decide_eq_false_2.
      2:{ intros Hin. apply Hout.
          repeat (apply elem_of_cons in Hin as [-> | Hin];
                  [apply (bool_decide_eq_true_1 _); vm_compute; reflexivity |]).
          inversion Hin. }
      pose proof (pretty_Z_chars sig) as Hchars.
      assert (Hup : ToUpper (pretty sig) = pretty sig).
      { apply ToUpper_fixed. eapply Forall_impl; [exact Hchars |]. simpl. intros; lia. }
      apply mapSignal_default.
      assert (Hhead : ToUpper ("SIG" +:+ pretty sig) = "SIG" +:+ pretty sig).
      { rewrite !append_cons, append_nil_l. cbn [ToUpper]. rewrite Hup. reflexivity. }
      rewrite Hhead, TrimPrefix_append, Hup.
      intros Hin.
      assert (Hword : forall word,
                pretty sig = word -> Forall (fun c => byte_to_Z c < 65) (bytes_of_string word)).
      { intros word <-. exact Hchars. }
      repeat (apply elem_of_cons in Hin as [Heq | Hin];
              [apply Hword in Heq; cbn [bytes_of_string list_ascii_of_string] in Heq;
               apply Forall_cons in Heq as [Hc _]; vm_compute in Hc; discriminate Hc |]).
      inversion Hin.
  - intros name word sig Hin Hname. unfold mapSignal.
    repeat (apply elem_of_cons in Hin as [[= -> ->] | Hin];
            [destruct Hname as [-> | ->]; vm_compute; reflexivity |]).
    inversion Hin.
  - intros name. unfold mapSignal.
    repeat match goal with
           | |- context [String.eqb ?a ?b] => destruct (String.eqb a b)
           end; apply (bool_decide_eq_true_1 _); vm_compute; reflexivity.
Qed.

Lemma signal_names_round_trip_witness :
  mapSignal "sigkill" = SIGKILL /\ mapSignal "Usr1" = SIGUSR1.
Proof.
  destruct signal_names_round_trip as (_ & H & _). split.
  - apply (H "sigkill" "KILL"); [left | right; reflexivity].
  - apply (H "Usr1" "USR1"); [| left; reflexivity].
    do 4 right. left.
Defined.

Lemma signalName_nonempty sig : String.eqb (signalName sig) "" = false.
Proof.
  unfold signalName.
  repeat match goal with |- context [?a =? ?b] => destruct (a =? b); [reflexivity |] end.
  reflexivity.
Qed.

(** X16: the exit event of a process.  The reaper emits exactly one
    event, and then closes the latch of the process.  On the wire the event
    is the object with the members type (exit), id and exitCode, followed by
    the member signal exactly when the process was ended by a signal, which
    then holds the name of that signal; there is no other member.  The exit
    code is 0 after a clean exit, the code of the process after a failing
    one, and -1 when waiting failed for another reason. *)
Theorem reap_exit_event (id : string) (p : nat) (w : WaitResult) (pt : processTracker) :
  let code := match w with WaitOk => 0 | WaitExit code _ => code | WaitOther => -1 end in
  let signal := match w with WaitExit _ (Some s) => Some (signalName s) | _ => None end in
  exists e,
    emitted (reap id p w pt) = emitted pt ++ [EvExit e] /\
    Pipe.Event_document (EvExit e) =
      Pipe.JObject
        ([("type", Pipe.JString "exit"); ("id", Pipe.JString id);
          ("exitCode", Pipe.JNumber (pretty code))] ++
         match signal with
         | Some name => [("signal", Pipe.JString name)]
         | None => []
         end) /\
    signalled (reap id p w pt) = signalled pt /\
    (forall lp, objects pt !! p = Some lp ->
       exists lp', objects (reap id p w pt) !! p = Some lp' /\ done lp' = true).
Proof.
  intros code signal.
  assert (Hlatch : forall lp, objects pt !! p = Some lp ->
            exists lp', objects (reap id p w pt) !! p = Some lp' /\ done lp' = true).
  { intros lp Hlp. destruct (reap_objects id p w pt) as (_ & _ & Ho).
    rewrite Ho, Hlp. simpl. rewrite bool_decide_eq_true_2 by reflexivity.
    eexists. split; reflexivity. }
  assert (Hsig : signalled (reap id p w pt) = signalled pt).
  { unfold reap. destruct w as [| c [s |] |]; cbv beta iota zeta;
      repeat match goal with |- context [if ?b then _ else _] => destruct b end; reflexivity. }
  assert (Hem : exists e,
            emitted (reap id p w pt) = emitted pt ++ [EvExit e] /\
            Pipe.Event_document (EvExit e) =
              Pipe.JObject
                ([("type", Pipe.JString "exit"); ("id", Pipe.JString id);
                  ("exitCode", Pipe.JNumber (pretty code))] ++
                 match signal with
                 | Some name => [("signal", Pipe.JString name)]
                 | None => []
                 end)).
  { subst code signal. unfold reap. destruct w as [| c [s |] |]; cbv beta iota zeta.
    - eexists. split; reflexivity.
    - rewrite signalName_nonempty. cbn [negb]. eexists. split; [reflexivity |].
      unfold Pipe.Event_document, NewExitEventWithSignal.
      cbn [ex_Type ex_ProcessID ex_ExitCode ex_Signal ex_OOMKillCount].
      rewrite signalName_nonempty. reflexivity.
    - eexists. split; reflexivity.
    - eexists. split; reflexivity. }
  destruct Hem as (e & H1 & H2). exists e.
  split; [exact H1 | split; [exact H2 | split; [exact Hsig | exact Hlatch]]].
Qed.



End Signals.

Section Verbatim.
Import Native.

Lemma Contains_cons c s old :
  Bytes.Contains (c :: s) old = Bytes.HasPrefix (c :: s) old || Bytes.Contains s old.
Proof. destruct old; reflexivity. Qed.

(** Nothing is replaced where nothing occurs. *)
Lemma ReplaceAll_absent s old new :
  old <> [] -> Bytes.Contains s old = false -> Bytes.ReplaceAll s old new = s.
Proof.
  intros Hne. unfold Bytes.ReplaceAll. destruct old as [| a old]; [contradiction |].
  induction s as [| c s IH]; intros Hc; [reflexivity |].
  rewrite Contains_cons in Hc. apply orb_false_iff in Hc as [Hp Hc].
  rewrite replace_from_cons_0, Hp, IH by exact Hc. reflexivity.
Qed.

Lemma remapPaths_absent lp data :
  (forall vm, vmPrefix lp = Some vm -> vm <> [] /\ Bytes.Contains data vm = false) ->
  Forall (fun rm => from rm <> [] /\ Bytes.Contains data (from rm) = false) (mountRemap lp) ->
  remapPaths lp data = data.
Proof.
  intros Hvm Hm. unfold remapPaths.
  assert (H1 : match vmPrefix lp with
               | Some vm => Bytes.ReplaceAll data vm (default [] (realPrefix lp))
               | None => data
               end = data).
  { destruct (vmPrefix lp) as [vm |]; [| reflexivity].
    destruct (Hvm vm eq_refl) as [Hne Hc]. apply ReplaceAll_absent; assumption. }
  rewrite H1. induction Hm as [| rm l [Hne Hc] _ IH]; [reflexivity |].
  simpl. rewrite ReplaceAll_absent by assumption. exact IH.
Qed.

(** X18: a payload in which no mapped path and no skill marker occurs
    reaches the child byte for byte.  When the write wins the race, what is
    handed to the stdin of the process is the payload of the call,
    unchanged, inside the lock of the stdin mutex, and the call returns what
    the write returned. *)
Theorem writeStdin_verbatim processID data race pt p lp :
  lookup_process processID pt = Some (p, lp) -> done lp = false ->
  select race = CaseWrite ->
  (forall vm, vmPrefix lp = Some vm -> vm <> [] /\ Bytes.Contains data vm = false) ->
  Forall (fun rm => from rm <> [] /\ Bytes.Contains data (from rm) = false) (mountRemap lp) ->
  Bytes.Contains data skillMarker = false ->
  exists err lp',
    (writeStdin processID data race pt).1 = err /\
    objects (writeStdin processID data race pt).2 !! p = Some lp' /\
    stdin_ops lp' = stdin_ops lp ++ [MuLock; StdinWrite data err; MuUnlock].
Proof.
  intros Hl Hd Hs Hvm Hm Hmark.
  destruct (writeStdin_write processID data race pt p lp Hl Hd Hs) as (H1 & lp' & H2 & H3).
  rewrite (remapPaths_absent lp data Hvm Hm) in H3.
  unfold stripSkillPrefix in H3. rewrite Hmark in H3.
  eexists _, lp'. split; [exact H1 | split; [exact H2 | exact H3]].
Qed.

End Verbatim.

(** ** The channel to the guest *)

Section GuestChannel.
Import Frame Pipe Vsock.
Context {marshal : Marshal}.

Lemma conn_Write_open buf c :
  conn_closed c = false ->
  conn_Write buf c = (None, mkConn (conn_in c) false (conn_out c ++ [buf])).
Proof. intros Hc. unfold conn_Write. rewrite Hc. reflexivity. Qed.

Lemma conn_Write_closed buf c :
  conn_closed c = true ->
  (conn_Write buf c).1 = Some "use of closed network connection".
Proof. intros Hc. unfold conn_Write. rewrite Hc. reflexivity. Qed.

(** X19: a command and its response.  On a connection that takes writes,
    [SendCommand] sends the four-byte big-endian length of the marshalled
    command and then the command, the bytes of one frame, so that the peer
    reads the command with [ReadMessage]; and when the peer has answered
    with a frame of at most 10 * 2^20 bytes, [SendCommand] returns the
    payload of that frame and leaves what follows it unread.  Unlike
    [ReadMessage] it accepts a response of length 0, which it returns as the
    empty payload. *)
Theorem SendCommand_exchange (cmd : json) (v : VsockListener) (conn : Conn)
    (resp rest : bytes) :
  vs_conn v = Some conn -> conn_closed conn = false ->
  conn_in conn = frame resp ++ rest ->
  Z.of_nat (length resp) <= 10 * 2 ^ 20 ->
  let sent := [PutUint32 (uint32 (Z.of_nat (length (json_Marshal cmd)))); json_Marshal cmd] in
  SendCommand cmd v = (Ok resp, with_conn (mkConn rest false (conn_out conn ++ sent)) v) /\
  concat sent = frame (json_Marshal cmd) /\
  (1 <= Z.of_nat (length (json_Marshal cmd)) <= 10 * 2 ^ 20 ->
   forall more, ReadMessage (reader (concat sent ++ more)) = (Ok (json_Marshal cmd), reader more)).
Proof.
  intros Hv Hc Hin Hlen sent.
  assert (Hsent : concat sent = frame (json_Marshal cmd)).
  { subst sent. simpl. rewrite app_nil_r. reflexivity. }
  split; [| split; [exact Hsent |]].
  - unfold SendCommand. rewrite Hv. cbv zeta.
    rewrite conn_Write_open by exact Hc.
    rewrite conn_Write_open by reflexivity. cbn [conn_in conn_closed conn_out].
    set (hdr := PutUint32 (uint32 (Z.of_nat (length resp)))).
    assert (Hu : Uint32 hdr = Z.of_nat (length resp)).
    { subst hdr. unfold uint32. rewrite Z.mod_small by lia. apply Uint32_PutUint32. lia. }
    rewrite (ReadMessage_header _ hdr (resp ++ rest));
      [| cbn [conn_in]; rewrite Hin; unfold frame; rewrite <- app_assoc; reflexivity
       | reflexivity].
    cbn [conn_in conn_closed conn_out]. rewrite Hu.
    destruct (Z.gtb_spec (Z.of_nat (length resp)) (10 * 1024 * 1024)); [lia |].
    rewrite ReadFull_enough by (cbn [conn_in]; rewrite length_app; lia).
    cbn [conn_in conn_closed conn_out]. rewrite Nat2Z.id, take_app_length, drop_app_length.
    subst sent. rewrite <- app_assoc. reflexivity.
  - intros Hcmd more. rewrite Hsent. apply (ReadMessage_frame _ more false []). exact Hcmd.
Qed.

(** X20: how [SendCommand] fails.  Without a connection it fails with
    "sdk-daemon not connected" and changes nothing.  When a write or a read
    on the connection fails, the connection is dropped and the listener
    marked as disconnected, so that every later command fails with
    "sdk-daemon not connected" until the guest connects again.  A response
    that declares more than 10 * 2^20 bytes is refused after its header has
    been read: the listener stays connected and the bytes of that response
    stay in the stream, where the next command finds them in place of its
    own response. *)
Theorem SendCommand_failure (cmd : json) (v v' : VsockListener) (e : string) :
  SendCommand cmd v = (Err e, v') ->
  (vs_conn v = None /\ e = "sdk-daemon not connected" /\ v' = v) \/
  (v' = markDisconnected v /\ IsConnected v' = false /\
   forall cmd', SendCommand cmd' v' = (Err "sdk-daemon not connected", v')) \/
  (exists conn hdr rest,
     vs_conn v = Some conn /\ conn_in conn = hdr ++ rest /\ length hdr = 4%nat /\
     10 * 2 ^ 20 < Uint32 hdr /\
     e = "response too large: " +:+ pretty (Uint32 hdr) +:+ " bytes" /\
     IsConnected v' = IsConnected v /\
     exists conn', vs_conn v' = Some conn' /\ conn_in conn' = rest).
Proof.
  unfold SendCommand. destruct (vs_conn v) as [conn |] eqn:Hv.
  2:{ intros [= <- <-]. left. repeat split. }
  cbv zeta.
  assert (Hdis : forall e0, (@Err bytes e, v') = (Err e0, markDisconnected v) ->
            v' = markDisconnected v /\ IsConnected v' = false /\
            forall cmd', SendCommand cmd' v' = (Err "sdk-daemon not connected", v')).
  { intros e0 [= -> ->]. repeat split. }
  destruct (conn_Write _ conn) as [[e1 |] c1] eqn:Hw1;
    [intros Hres; right; left; exact (Hdis _ (eq_sym Hres)) |].
  destruct (conn_Write _ c1) as [[e2 |] c2] eqn:Hw2;
    [intros Hres; right; left; exact (Hdis _ (eq_sym Hres)) |].
  assert (Hin : conn_in c2 = conn_in conn).
  { unfold conn_Write in Hw1, Hw2. injection Hw1 as _ <-. injection Hw2 as _ <-. reflexivity. }
  unfold ReadFull at 1.
  destruct (Nat.leb_spec 4 (length (conn_in c2))) as [H4 |];
    [| intros Hres; right; left; exact (Hdis _ (eq_sym Hres))].
  cbn [conn_in conn_closed conn_out].
  destruct (Z.gtb_spec (Uint32 (take 4 (conn_in c2))) (10 * 1024 * 1024)) as [Hbig |].
  - intros [= <- <-]. right. right.
    exists conn, (take 4 (conn_in c2)), (drop 4 (conn_in c2)).
    split; [reflexivity |]. split; [rewrite take_drop; symmetry; exact Hin |].
    split; [rewrite length_take; lia |]. split; [lia |]. split; [reflexivity |].
    split; [reflexivity |]. eexists. split; reflexivity.
  - destruct (ReadFull _ _) as [[resp | e3] c3];
      [discriminate | intros Hres; right; left; exact (Hdis _ (eq_sym Hres))].
Qed.

(** The flag and the connection of a listener go together. *)
Lemma step_connected (ev : event) (v : VsockListener) :
  (vs_connected v = true <-> is_Some (vs_conn v)) ->
  (vs_connected (step ev v) = true <-> is_Some (vs_conn (step ev v))).
Proof.
  intros Hinv. destruct ev as [c | cmd | |]; cbn [step].
  - simpl. split; eauto.
  - unfold SendCommand. destruct (vs_conn v) as [conn |] eqn:Hv; [| simpl; rewrite Hv; exact Hinv].
    cbv zeta.
    assert (Hdis : vs_connected (markDisconnected v) = true <->
                   is_Some (vs_conn (markDisconnected v))).
    { simpl. split; [discriminate | intros [? [=]]]. }
    assert (Hwith : forall c, vs_connected (with_conn c v) = true <->
                              is_Some (vs_conn (with_conn c v))).
    { intros c. simpl. split; [eauto | intros _; apply Hinv; eauto]. }
    repeat match goal with
           | |- context [match ?x with _ => _ end] => destruct x
           end; cbn [snd]; first [exact Hdis | apply Hwith].
  - simpl. split; [discriminate | intros [? [=]]].
  - unfold Close. cbn [vs_connected vs_conn]. destruct (vs_conn v) as [conn |].
    + split; [discriminate | intros [? [=]]].
    + split; [| intros [? [=]]]. intros Hc. apply Hinv in Hc as [? [=]].
Qed.

(** X21: the listener counts as connected exactly when it holds a
    connection.  Whatever happens to a listener (the guest connects, a
    command is sent and succeeds or fails, the connection is dropped, the
    listener is closed), the flag [IsConnected] reports stays in step with
    the connection; so a command sent after a positive answer of
    [IsConnected] never fails for lack of a connection. *)
Theorem listener_connected_iff_conn (events : list event) (port : Z) (dbg : bool) :
  let v := foldl (fun v ev => step ev v) (NewVsockListener port dbg) events in
  (IsConnected v = true <-> is_Some (vs_conn v)) /\
  (IsConnected v = true ->
   forall cmd, (SendCommand cmd v).1 <> Err "sdk-daemon not connected").
Proof.
  intros v.
  assert (Hinv : vs_connected v = true <-> is_Some (vs_conn v)).
  { subst v. induction events as [| ev events IH] using rev_ind.
    - simpl. split; [discriminate | intros [? [=]]].
    - rewrite foldl_app. cbn [foldl]. apply step_connected. exact IH. }
  split; [exact Hinv |]. intros Hc cmd. unfold IsConnected in Hc.
  apply Hinv in Hc as [conn Hconn]. unfold SendCommand. rewrite Hconn. cbv zeta.
  repeat match goal with
         | |- context [match ?x with _ => _ end] => destruct x
         end; cbn [fst];
    first [discriminate | intros [= H]; rewrite ?append_cons in H; discriminate].
Qed.

End GuestChannel.

(** ** Processes inside the guest *)

Section GuestTracker.
Import Frame Pipe Vsock GuestProcesses.
Context {marshal : Marshal} {unmarshal_result : Unmarshal spawnResult}.

Lemma IsRunning_stopped id other (t : Tracker) v :
  IsRunning other (mkGuestTracker v (stopped id (processes t))) =
    if bool_decide (other = id) then false else IsRunning other t.
Proof.
  unfold IsRunning, stopped. cbn [processes]. case_bool_decide as Hid.
  - subst other. rewrite lookup_alter_eq. destruct (processes t !! id); reflexivity.
  - rewrite lookup_alter_ne by congruence. reflexivity.
Qed.

(** X22: the table of guest processes.  Without a connected daemon [Spawn]
    and [Kill] fail with "sdk-daemon not connected" and change nothing.  A
    spawn that succeeds registers the id the daemon answered as running and
    leaves every other id as it was; a spawn that fails registers nothing.
    A kill the daemon acknowledges marks the id as not running, and only it,
    and adds no entry for an id the table does not hold; a kill that fails
    leaves the table as it was, so the process still counts as running.
    [MarkExited] marks one id as not running, and an id the table does not
    hold is not running. *)
Theorem guest_process_table (t : Tracker) :
  (connected t = false ->
   (forall cmd args env cwd, Spawn cmd args env cwd t = (Err "sdk-daemon not connected", t)) /\
   (forall id, Kill id t = (Some "sdk-daemon not connected", t))) /\
  (forall cmd args env cwd id t',
     Spawn cmd args env cwd t = (Ok id, t') ->
     processes t' !! id = Some (mkProcessInfo id cmd args true) /\
     IsRunning id t' = true /\
     forall other, other <> id -> IsRunning other t' = IsRunning other t) /\
  (forall cmd args env cwd e t',
     Spawn cmd args env cwd t = (Err e, t') -> processes t' = processes t) /\
  (forall id t',
     Kill id t = (None, t') ->
     IsRunning id t' = false /\
     (forall other, other <> id -> IsRunning other t' = IsRunning other t) /\
     dom (processes t') = dom (processes t)) /\
  (forall id e t', Kill id t = (Some e, t') -> processes t' = processes t) /\
  (forall id other,
     IsRunning other (MarkExited id t) =
       if bool_decide (other = id) then false else IsRunning other t) /\
  (forall id, processes t !! id = None -> IsRunning id t = false).
Proof.
  split; [| split; [| split; [| split; [| split; [| split]]]]].
  - unfold connected, Spawn, Kill. intros Hc.
    destruct (vsock t) as [v |]; [rewrite Hc |]; split; reflexivity.
  - intros cmd args env cwd id t'. unfold Spawn.
    destruct (vsock t) as [v |]; [| discriminate].
    destruct (negb (IsConnected v)); [discriminate |].
    destruct (SendCommand _ v) as [[resp | err] v1]; [| discriminate].
    destruct (json_Unmarshal resp zero) as [res [err |]]; [discriminate |].
    intros [= <- <-]. unfold IsRunning. cbn [processes].
    rewrite lookup_insert_eq. split; [reflexivity |]. split; [reflexivity |].
    intros other Hne. rewrite lookup_insert_ne by congruence. reflexivity.
  - intros cmd args env cwd e t'. unfold Spawn.
    destruct (vsock t) as [v |]; [| intros [= _ <-]; reflexivity].
    destruct (negb (IsConnected v)); [intros [= _ <-]; reflexivity |].
    destruct (SendCommand _ v) as [[resp | err] v1]; [| intros [= _ <-]; reflexivity].
    destruct (json_Unmarshal resp zero) as [res [err |]]; [| discriminate].
    intros [= _ <-]. reflexivity.
  - intros id t'. unfold Kill.
    destruct (vsock t) as [v |]; [| discriminate].
    destruct (negb (IsConnected v)); [discriminate |].
    destruct (SendCommand _ v) as [[resp | err] v1]; [| discriminate].
    intros [= <-]. split; [| split].
    + rewrite IsRunning_stopped, bool_decide_eq_true_2; reflexivity.
    + intros other Hne. rewrite IsRunning_stopped, bool_decide_eq_false_2; [reflexivity | exact Hne].
    + cbn [processes]. unfold stopped. apply dom_alter_L.
  - intros id e t'. unfold Kill.
    destruct (vsock t) as [v |]; [| intros [= _ <-]; reflexivity].
    destruct (negb (IsConnected v)); [intros [= _ <-]; reflexivity |].
    destruct (SendCommand _ v) as [[resp | err] v1]; [discriminate |].
    intros [= _ <-]. reflexivity.
  - intros id other. unfold MarkExited. apply IsRunning_stopped.
  - intros id Hid. unfold IsRunning. rewrite Hid. reflexivity.
Qed.

End GuestTracker.

(** ** The VM manager: settings, subscriptions, bundles *)

Section ManagerSettings.
Import Manager.

Lemma Configure_fields (a b : Z) (m : Manager) :
  (Configure a b m).1 = None /\
  memory (Configure a b m).2 = (if 0 <? a then a else memory m) /\
  cpus (Configure a b m).2 = (if 0 <? b then b else cpus m) /\
  dataDir (Configure a b m).2 = dataDir m /\ bundlesDir (Configure a b m).2 = bundlesDir m /\
  debug (Configure a b m).2 = debug m /\ cid (Configure a b m).2 = cid m /\
  subscribers (Configure a b m).2 = subscribers m.
Proof. unfold Configure. destruct (0 <? a), (0 <? b); repeat split. Qed.

(** X23: the settings stay positive.  [Configure] never fails; a value
    that is zero or negative is passed over and the earlier setting kept.
    So after any number of calls on a new manager, the memory is the last
    positive value given, 4096 when there was none, the number of CPUs is
    the last positive value given, 2 when there was none, and both are
    positive. *)
Theorem Configure_keeps_positive (calls : list (Z * Z)) (data bundles : string) (dbg : bool) :
  let m := foldl (fun m c => (Configure c.1 c.2 m).2) (NewManager data bundles dbg) calls in
  memory m = default 4096 (last (filter (fun x => 0 < x) calls.*1)) /\
  cpus m = default 2 (last (filter (fun x => 0 < x) calls.*2)) /\
  0 < memory m /\ 0 < cpus m /\
  (forall a b, (Configure a b m).1 = None).
Proof.
  intros m.
  assert (H : memory m = default 4096 (last (filter (fun x => 0 < x) calls.*1)) /\
              cpus m = default 2 (last (filter (fun x => 0 < x) calls.*2))).
  { subst m. induction calls as [| [a b] calls IH] using rev_ind; [split; reflexivity |].
    rewrite foldl_app, !fmap_app, !filter_app. cbn [foldl fmap list_fmap fst snd].
    destruct (Configure_fields a b (foldl (fun m c => (Configure c.1 c.2 m).2)
                                      (NewManager data bundles dbg) calls))
      as (_ & -> & -> & _).
    destruct IH as [-> ->]. rewrite !filter_cons, !filter_nil. split.
    - destruct (Z.ltb_spec 0 a); destruct (decide (0 < a)); try lia.
      + rewrite last_snoc. reflexivity.
      + rewrite app_nil_r. reflexivity.
    - destruct (Z.ltb_spec 0 b); destruct (decide (0 < b)); try lia.
      + rewrite last_snoc. reflexivity.
      + rewrite app_nil_r. reflexivity. }
  destruct H as [Hm Hc]. split; [exact Hm |]. split; [exact Hc |].
  assert (Hpos : forall d (l : list Z), 0 < d -> 0 < default d (last (filter (fun x => 0 < x) l))).
  { intros d l Hd. destruct (last (filter (fun x => 0 < x) l)) as [x |] eqn:Hl; [| exact Hd].
    simpl. apply last_Some_elem_of, list_elem_of_filter in Hl as [Hx _]. exact Hx. }
  rewrite Hm, Hc. split; [apply Hpos; lia |]. split; [apply Hpos; lia |].
  intros a b. apply Configure_fields.
Qed.

(** X24: subscribing and cancelling.  For every event the callback of a
    new subscriber is started, after those of the subscribers before it;
    cancelling its subscription stops its calls and nobody else's;
    cancelling another subscription leaves it subscribed; cancelling twice
    is cancelling once; and the place of a cancelled subscription is not
    given out again: the next subscriber gets the next index. *)
Theorem subscribe_cancel (name : string) (cb : callback) (m : Manager) :
  let h := length (subscribers m) in
  let m1 := (SubscribeEvents name cb m).2 in
  (SubscribeEvents name cb m).1 = Ok h /\
  emitEvent m1 = emitEvent m ++ [cb] /\
  emitEvent (cancel h m1) = emitEvent m /\
  (forall idx, (idx < h)%nat -> emitEvent (cancel idx m1) = emitEvent (cancel idx m) ++ [cb]) /\
  (forall idx, cancel idx (cancel idx m1) = cancel idx m1) /\
  (forall name2 cb2, (SubscribeEvents name2 cb2 (cancel h m1)).1 = Ok (S h)).
Proof.
  intros h m1. subst h m1. unfold SubscribeEvents, emitEvent, cancel.
  cbn [fst snd subscribers]. rewrite !length_app. cbn [length].
  split; [reflexivity |]. split; [rewrite omap_app; reflexivity |]. split; [| split; [| split]].
  - destruct (Nat.ltb_spec (length (subscribers m)) (length (subscribers m) + 1)); [| lia].
    cbn [subscribers]. rewrite insert_app_r_alt by lia. rewrite Nat.sub_diag. simpl.
    rewrite omap_app. simpl. apply app_nil_r.
  - intros idx Hidx.
    destruct (Nat.ltb_spec idx (length (subscribers m) + 1)); [| lia].
    destruct (Nat.ltb_spec idx (length (subscribers m))); [| lia].
    cbn [subscribers]. rewrite insert_app_l by lia. rewrite omap_app. reflexivity.
  - intros idx.
    destruct (Nat.ltb_spec idx (length (subscribers m) + 1)) as [Hlt | Hge];
      cbn [subscribers]; rewrite ?length_insert, ?length_app; cbn [length].
    + destruct (Nat.ltb_spec idx (length (subscribers m) + 1)); [| lia].
      rewrite list_insert_insert_eq. reflexivity.
    + destruct (Nat.ltb_spec idx (length (subscribers m) + 1)); [lia | reflexivity].
  - intros name2 cb2.
    destruct (Nat.ltb_spec (length (subscribers m)) (length (subscribers m) + 1)); [| lia].
    cbn [subscribers]. rewrite length_insert, length_app. simpl. f_equal. lia.
Qed.

(** X25: the download status and the search for a bundle agree in one
    direction.  [GetDownloadStatus] answers Ready or NotDownloaded, nothing
    else; when it answers Ready, [findLatestBundle] finds a bundle; and the
    bundle found is a directory of the bundles directory that holds the
    disk image as rootfs.vhdx, as rootfs.qcow2 or compressed as
    rootfs.vhdx.zst.  The converse fails: a bundle present only in
    compressed form is found, yet reported as NotDownloaded. *)
Theorem download_status_and_bundle (fs : BundleFS) (m : Manager) :
  (GetDownloadStatus fs m = "Ready" \/ GetDownloadStatus fs m = "NotDownloaded") /\
  (GetDownloadStatus fs m = "Ready" -> exists dir, findLatestBundle fs m = Ok dir) /\
  (forall dir, findLatestBundle fs m = Ok dir ->
     exists entries entry,
       ReadDir fs (bundlesDir m) = Ok entries /\ entry ∈ entries /\ IsDir entry = true /\
       dir = Join fs (bundlesDir m) (Name entry) /\
       (holds fs dir "rootfs.vhdx" = true \/ holds fs dir "rootfs.qcow2" = true \/
        holds fs dir "rootfs.vhdx.zst" = true)) /\
  GetDownloadStatus Samples.compressed_only (NewManager "/data" "/bundles" false) =
    "NotDownloaded" /\
  findLatestBundle Samples.compressed_only (NewManager "/data" "/bundles" false) =
    Ok "/bundles/sha".
Proof.
  assert (Hd : forall dir entries,
            downloaded fs dir entries = "Ready" \/ downloaded fs dir entries = "NotDownloaded").
  { intros dir entries. induction entries as [| entry entries IH]; [right; reflexivity |].
    simpl. destruct (IsDir entry); [| exact IH].
    destruct (holds fs _ "rootfs.vhdx"); [left; reflexivity |].
    destruct (holds fs _ "rootfs.qcow2"); [left; reflexivity | exact IH]. }
  assert (Hl : forall dir entries,
            downloaded fs dir entries = "Ready" -> exists found, latest fs dir entries = Ok found).
  { intros dir entries. induction entries as [| entry entries IH]; [discriminate |].
    simpl. destruct (IsDir entry); [| exact IH].
    destruct (holds fs _ "rootfs.vhdx"); [eauto |].
    destruct (holds fs _ "rootfs.qcow2"); [eauto |].
    destruct (holds fs _ "rootfs.vhdx.zst"); [eauto | exact IH]. }
  assert (Hf : forall dir entries found,
            latest fs dir entries = Ok found ->
            exists entry, entry ∈ entries /\ IsDir entry = true /\
              found = Join fs dir (Name entry) /\
              (holds fs found "rootfs.vhdx" = true \/ holds fs found "rootfs.qcow2" = true \/
               holds fs found "rootfs.vhdx.zst" = true)).
  { intros dir entries found. induction entries as [| entry entries IH]; [discriminate |].
    simpl.
    assert (Hrest : latest fs dir entries = Ok found ->
              exists entry0, entry0 ∈ entry :: entries /\ IsDir entry0 = true /\
                found = Join fs dir (Name entry0) /\
                (holds fs found "rootfs.vhdx" = true \/ holds fs found "rootfs.qcow2" = true \/
                 holds fs found "rootfs.vhdx.zst" = true)).
    { intros H. destruct (IH H) as (entry0 & Hin & Hrest). exists entry0.
      split; [right; exact Hin | exact Hrest]. }
    destruct (IsDir entry) eqn:Hdir; [| exact Hrest]. cbv zeta.
    destruct (holds fs (Join fs dir (Name entry)) "rootfs.vhdx") eqn:H1;
      [intros [= <-]; exists entry; split; [left | repeat split; auto] |].
    destruct (holds fs (Join fs dir (Name entry)) "rootfs.qcow2") eqn:H2;
      [intros [= <-]; exists entry; split; [left | repeat split; auto] |].
    destruct (holds fs (Join fs dir (Name entry)) "rootfs.vhdx.zst") eqn:H3;
      [intros [= <-]; exists entry; split; [left | repeat split; auto] | exact Hrest]. }
  split; [| split; [| split; [| split; vm_compute; reflexivity]]].
  - unfold GetDownloadStatus. destruct (ReadDir fs (bundlesDir m)) as [[| e l] | err];
      try (right; reflexivity). apply Hd.
  - unfold GetDownloadStatus, findLatestBundle.
    destruct (ReadDir fs (bundlesDir m)) as [[| e l] | err]; try discriminate. apply Hl.
  - intros dir. unfold findLatestBundle.
    destruct (ReadDir fs (bundlesDir m)) as [entries | err]; [| discriminate].
    intros H. destruct (Hf _ _ _ H) as (entry & Hin & Hrest).
    exists entries, entry. split; [reflexivity |]. split; [exact Hin | exact Hrest].
Qed.

End ManagerSettings.

(** ** The dispatcher on the JSON codec, continued *)

Section AbsentParams.
Import Frame Pipe Encoding.
Context {St : Type} (backend : VMBackend St).

(** X26: a request without params.  For the thirteen methods whose handler
    reports a decoding error, a request that has no params member is
    refused: the handler decodes the empty text, and the reply is the
    failure "Invalid params: unexpected end of JSON input"; the backend is
    not called. *)
Theorem Handle_absent_params (payload : bytes) (req : Request) (conn : Conn) (s : St) :
  json_Unmarshal payload (zero : Request) = (req, None) ->
  Params req = None ->
  Method req ∈ strict_methods ->
  Handle backend payload (conn, s) =
    replied (error_document "Invalid params: unexpected end of JSON input") conn s.
Proof.
  intros Hreq Hp Hin. unfold Handle. rewrite Hreq.
  cbn [switch methods]. by_method req; try not_listed Hin;
    unfold handleConfigure, handleCreateVM, handleStartVM, handleStopVM, handleSpawn,
      handleKill, handleWriteStdin, handleIsProcessRunning, handleMountPath,
      handleReadFile, handleInstallSdk, handleAddApprovedOauthToken,
      handleSetDebugLogging, raw; rewrite Hp; reflexivity.
Qed.

End AbsentParams.

Section MoreExamples.
Import Frame Pipe Native Encoding Backends Service Samples.

Lemma Handle_absent_params_witness :
  Handle quiet (json_text "{'method':'kill'}") (reader [], tt) =
    replied (error_document "Invalid params: unexpected end of JSON input") (reader []) tt.
Proof.
  apply (Handle_absent_params quiet (json_text "{'method':'kill'}")
           (json_Unmarshal (json_text "{'method':'kill'}") (zero : Request)).1).
  - vm_compute. reflexivity.
  - vm_compute. reflexivity.
  - apply (bool_decide_eq_true_1 _). vm_compute. reflexivity.
Defined.

Lemma Handle_backend_error_witness :
  Handle (refusing "no KVM") configure_request (reader [], tt) =
    replied (JObject [("success", JBool false); ("error", JString "no KVM")]) (reader []) tt.
Proof.
  apply (Handle_backend_error (refusing "no KVM") configure_request
           (json_Unmarshal configure_request (zero : Request)).1 (reader []) tt tt "no KVM");
    vm_compute; reflexivity.
Defined.

Lemma Handle_ignores_id_witness :
  Handle quiet configure_request (reader [], tt) =
    Handle quiet configure_without_id (reader [], tt).
Proof.
  apply (Handle_ignores_id quiet configure_request configure_without_id); vm_compute; reflexivity.
Defined.

Lemma subscribeEvents_takes_over_witness :
  Handle quiet subscribe_request (reader (frame isRunning_request), tt) =
    (mkConn [] false
       [frame (json_Marshal
          (JObject [("success", JBool true); ("result", JObject [("subscribed", JBool true)])]))],
     tt).
Proof.
  apply (subscribeEvents_takes_over quiet subscribe_request
           (json_Unmarshal subscribe_request (zero : Request)).1
           (reader (frame isRunning_request)) tt tt 0 [isRunning_request] []).
  - vm_compute. reflexivity.
  - vm_compute. reflexivity.
  - reflexivity.
  - vm_compute. reflexivity.
  - repeat constructor; vm_compute; discriminate.
  - exact I.
Defined.

Lemma handleConnection_in_order_witness :
  handleConnection quiet None
    (reader (concat (map frame [configure_request; unknown_method]) ++ PutUint32 0), tt) =
    Some (mkConn [] true
            (conn_out (foldl (fun st p => Handle quiet p st) (reader [], tt)
                         [configure_request; unknown_method]).1),
          tt).
Proof.
  destruct (handleConnection_in_order quiet [configure_request; unknown_method] (PutUint32 0) tt)
    as (H & _).
  - repeat constructor; vm_compute; discriminate.
  - repeat constructor.
  - exact I.
  - exact H.
Defined.

Lemma spawn_failure_witness :
  emitted (spawn "" "/bin/cat" [] ∅ "" "" "" [] os_start_fails (newProcessTracker false)).2 =
    [Events.EvError
       (Events.mkErrorEvent "error" "proc-1" "failed to start process: exec format error" true)] /\
  signalled (spawn "" "/bin/cat" [] ∅ "" "" "" [] os_start_fails (newProcessTracker false)).2 =
    [] /\
  lookup_process "proc-1"
    (spawn "" "/bin/cat" [] ∅ "" "" "" [] os_start_fails (newProcessTracker false)).2 = None.
Proof.
  destruct (spawn_failure "" "/bin/cat" [] ∅ "" "" "" [] os_start_fails
              (newProcessTracker false) "starting process: exec format error"
              (spawn "" "/bin/cat" [] ∅ "" "" "" [] os_start_fails (newProcessTracker false)).2)
    as (H & Hs & Hev & _).
  - vm_compute. reflexivity.
  - split; [| split; [exact Hs | exact (H "proc-1")]].
    destruct Hev as [(why & _ & _ & _ & Hwhy & _ & Hem) | (_ & why & [[Hp _] | [(_ & Hp & _) | (_ & _ & Hp & _)]])];
      [| discriminate Hp | discriminate Hp | discriminate Hp].
    injection Hwhy as <-. exact Hem.
Defined.

Lemma writeStdin_verbatim_witness :
  exists err lp',
    (writeStdin "proc-1" (bytes_of_string "hello") (mkStdinRace (Some (7, None)) None [])
       plain_tracker).1 = err /\
    objects (writeStdin "proc-1" (bytes_of_string "hello") (mkStdinRace (Some (7, None)) None [])
               plain_tracker).2 !! 0%nat = Some lp' /\
    stdin_ops lp' =
      stdin_ops plain_process ++ [MuLock; StdinWrite (bytes_of_string "hello") err; MuUnlock].
Proof.
  apply (writeStdin_verbatim "proc-1" (bytes_of_string "hello")
           (mkStdinRace (Some (7, None)) None []) plain_tracker 0%nat plain_process).
  - reflexivity.
  - reflexivity.
  - vm_compute. reflexivity.
  - intros vm [=].
  - constructor.
  - vm_compute. reflexivity.
Defined.

Lemma SendCommand_exchange_witness :
  Vsock.SendCommand (GuestProcesses.kill_command "p1")
    (Vsock.accepted (reader (frame (bytes_of_string "{}"))) (Vsock.NewVsockListener 51234 false)) =
    (Ok (bytes_of_string "{}"),
     Vsock.with_conn
       (mkConn [] false
          [PutUint32 (uint32 (Z.of_nat (length (json_Marshal (GuestProcesses.kill_command "p1")))));
           json_Marshal (GuestProcesses.kill_command "p1")])
       (Vsock.accepted (reader (frame (bytes_of_string "{}")))
          (Vsock.NewVsockListener 51234 false))).
Proof.
  destruct (SendCommand_exchange (GuestProcesses.kill_command "p1")
              (Vsock.accepted (reader (frame (bytes_of_string "{}")))
                 (Vsock.NewVsockListener 51234 false))
              (reader (frame (bytes_of_string "{}"))) (bytes_of_string "{}") [])
    as (H & _).
  - reflexivity.
  - reflexivity.
  - reflexivity.
  - vm_compute. discriminate.
  - exact H.
Defined.

Lemma SendCommand_failure_witness :
  Vsock.IsConnected
    (Vsock.SendCommand (GuestProcesses.kill_command "p1")
       (Vsock.accepted (reader []) (Vsock.NewVsockListener 51234 false))).2 = false.
Proof.
  destruct (SendCommand_failure (GuestProcesses.kill_command "p1")
              (Vsock.accepted (reader []) (Vsock.NewVsockListener 51234 false))
              (Vsock.SendCommand (GuestProcesses.kill_command "p1")
                 (Vsock.accepted (reader []) (Vsock.NewVsockListener 51234 false))).2
              "reading from sdk-daemon: EOF")
    as [(Hnone & _) | [(Hv & Hc & _) | (conn & hdr & rest & Hconn & Hin & Hlen & _)]].
  - vm_compute. reflexivity.
  - discriminate Hnone.
  - exact Hc.
  - injection Hconn as <-. simpl in Hin.
    destruct hdr; [discriminate Hlen | discriminate Hin].
Defined.

End MoreExamples.
